(** * HeapKitDemo: the allocation tracker, the bug simulator, the
      grooming-strategy generator and the pattern detector, embedded from the
      JavaScript sources.

    - [HeapAnalyzer]               : src/unnamed/part_000 (heap-analyzer.js)
    - [BugSimulator]               : src/memory-pattern-detector.js, second module
    - [GroomingStrategyGenerator]  : src/heap-toolkit-main.js, third module
    - [PatternDetector]            : src/memory-pattern-detector.js, first module

    JavaScript numbers are modelled as [Z]: sizes, ids, timestamps and overflow
    sizes are integers in every call the repository makes, and on integers
    below 2^53 the float operations used here ([<=], [-], [Math.ceil (s / 2^k)],
    [*]) are exact.  Allocation records are JavaScript objects that are shared
    between the allocation table, the bucket arrays, the timeline and the bug
    records and are mutated in place; they live in an object store and the
    other structures hold references into it. *)

From Stdlib Require Import ZArith QArith List Bool Lia Ascii Sorted.
From stdpp Require Import base option list gmap strings.

Local Open Scope Z_scope.

(** ** JavaScript built-ins used by the sources *)

Module JS.

(** [Math.ceil (n / d)] for integers [n] and a positive integer [d]. *)
Definition Math_ceil_div (n d : Z) : Z := - ((- n) / d).

(** [s.startsWith (t)]. *)
Fixpoint startsWith (s t : string) : bool :=
  match t, s with
  | EmptyString, _ => true
  | String c t', String d s' => if decide (c = d) then startsWith s' t' else false
  | String _ _, EmptyString => false
  end.

(** [s.includes (t)]: [t] occurs in [s] as a contiguous substring. *)
Fixpoint includes (s t : string) : bool :=
  startsWith s t ||
  match s with
  | EmptyString => false
  | String _ s' => includes s' t
  end.

(** [types.some (t => s.includes (t))]. *)
Definition some_included (types : list string) (s : string) : bool :=
  existsb (fun t => includes s t) types.

(** A [Map]: keys in insertion order; [set] on a present key keeps its place. *)
Section Map.
Context {K V : Type} `{EqDecision K}.

Definition Map_get (k : K) (m : list (K * V)) : option V :=
  snd <$> List.find (fun kv => bool_decide (fst kv = k)) m.

Definition Map_has (k : K) (m : list (K * V)) : bool :=
  bool_decide (is_Some (Map_get k m)).

Fixpoint Map_set (k : K) (v : V) (m : list (K * V)) : list (K * V) :=
  match m with
  | [] => [(k, v)]
  | (k', v') :: m' =>
      if decide (k' = k) then (k, v) :: m' else (k', v') :: Map_set k v m'
  end.

Definition Map_values (m : list (K * V)) : list V := snd <$> m.
End Map.

(** [arr.findIndex (p)], with [None] for [-1]. *)
Fixpoint findIndex {A} (p : A -> bool) (arr : list A) : option nat :=
  match arr with
  | [] => None
  | x :: arr' => if p x then Some 0%nat else S <$> findIndex p arr'
  end.

(** [arr.sort (cmp)] for a consistent comparator: the sort is stable
    (ECMAScript 2019), so the result is the stable sorted permutation,
    computed here by insertion from the right. *)
Section Sort.
Context {A : Type} (cmp : A -> A -> Z).

Fixpoint sort_insert (x : A) (l : list A) : list A :=
  match l with
  | [] => [x]
  | y :: l' => if cmp x y <=? 0 then x :: l else y :: sort_insert x l'
  end.

Definition sort (l : list A) : list A := foldr sort_insert [] l.
End Sort.

End JS.

(** ** A state monad with a stuck outcome

    [None] stands for following a reference that points at no object, which
    cannot happen in JavaScript; every method is shown to return on the states
    the tracker can reach. *)

Definition M (S A : Type) : Type := S -> option (A * S).

Definition ret {S A} (a : A) : M S A := fun s => Some (a, s).

Definition bind {S A B} (m : M S A) (k : A -> M S B) : M S B :=
  fun s => match m s with
           | Some (a, s') => k a s'
           | None => None
           end.

Definition gets {S A} (f : S -> A) : M S A := fun s => Some (f s, s).
Definition modify {S} (f : S -> S) : M S unit := fun s => Some (tt, f s).

Declare Scope js_scope.
Delimit Scope js_scope with js.
Notation "x <- m ;; k" := (bind m (fun x => k))
  (at level 100, m at next level, right associativity) : js_scope.
Notation "m ;; k" := (bind m (fun _ => k))
  (at level 100, right associativity) : js_scope.
Local Open Scope js_scope.

(** [when c m]: [if (c) { m }]. *)
Definition when {S} (c : bool) (m : M S unit) : M S unit :=
  if c then m else ret tt.

(** ** heap-analyzer.js *)

Module Allocation.
Inductive Status := allocated | freed.

#[global] Instance Status_eq_dec : EqDecision Status.
Proof. solve_decision. Defined.

(** The object literal built by [recordAllocation]; [freedAt] is the property
    added by [recordDeallocation] ([None] while it is [undefined]). *)
Record t := mk {
  id : Z;
  size : Z;
  type : string;
  timestamp : Z;
  metadata : list (string * string);
  status : Status;
  freedAt : option Z
}.

#[global] Instance t_eq_dec : EqDecision t.
Proof. solve_decision. Defined.

Definition set_freed (at_ : Z) (a : t) : t :=
  mk (id a) (size a) (type a) (timestamp a) (metadata a) freed (Some at_).
End Allocation.

(** A reference to an allocation record: its index in the object store. *)
Abbreviation ref := nat (only parsing).

Module HeapAnalyzer.

Record Stats := mkStats {
  totalAllocations : Z;
  totalDeallocations : Z;
  maxLiveAllocations : Z;
  currentLiveAllocations : Z
}.

(** A property value of a [details] object handed to [recordBug]. *)
Inductive Value :=
| VUndefined
| VNumber (n : Z)
| VString (s : string).

Inductive TimelineEvent :=
| allocation_event (timestamp : Z) (allocation : ref)
| deallocation_event (timestamp : Z) (allocation : ref)
| bug_event (timestamp : Z) (sourceId : Z) (bugType : string)
    (details : list (string * Value)).

(** The fields of a [HeapAnalyzer], and [objects], the records they refer to. *)
Record t := mk {
  objects : list Allocation.t;
  allocations : list (Z * ref);
  buckets : gmap Z (list ref);
  timeline : list TimelineEvent;
  nextId : Z;
  detectedBucketSizes : list Z;
  stats : Stats
}.

Definition zero_stats : Stats := mkStats 0 0 0 0.

(** [constructor ()] *)
Definition new : t := mk [] [] ∅ [] 1 [] zero_stats.

Definition set_objects (f : list Allocation.t -> list Allocation.t) (h : t) : t :=
  mk (f (objects h)) (allocations h) (buckets h) (timeline h) (nextId h)
     (detectedBucketSizes h) (stats h).
Definition set_allocations (f : list (Z * ref) -> list (Z * ref)) (h : t) : t :=
  mk (objects h) (f (allocations h)) (buckets h) (timeline h) (nextId h)
     (detectedBucketSizes h) (stats h).
Definition set_buckets (f : gmap Z (list ref) -> gmap Z (list ref)) (h : t) : t :=
  mk (objects h) (allocations h) (f (buckets h)) (timeline h) (nextId h)
     (detectedBucketSizes h) (stats h).
Definition set_timeline (f : list TimelineEvent -> list TimelineEvent) (h : t) : t :=
  mk (objects h) (allocations h) (buckets h) (f (timeline h)) (nextId h)
     (detectedBucketSizes h) (stats h).
Definition set_nextId (f : Z -> Z) (h : t) : t :=
  mk (objects h) (allocations h) (buckets h) (timeline h) (f (nextId h))
     (detectedBucketSizes h) (stats h).
Definition set_stats (f : Stats -> Stats) (h : t) : t :=
  mk (objects h) (allocations h) (buckets h) (timeline h) (nextId h)
     (detectedBucketSizes h) (f (stats h)).

(** Creating an object literal: a fresh record in the store. *)
Definition new_object (a : Allocation.t) : M t ref :=
  fun h => Some (length (objects h), set_objects (fun os => os ++ [a]) h).

(** Reading through a reference. *)
Definition deref (r : ref) : M t Allocation.t :=
  fun h => match objects h !! r with
           | Some a => Some (a, h)
           | None => None
           end.

(** Reading through every reference of an array, keeping the references. *)
Fixpoint deref_all (rs : list ref) : M t (list (ref * Allocation.t)) :=
  match rs with
  | [] => ret []
  | r :: rs' =>
      a <- deref r ;;
      rest <- deref_all rs' ;;
      ret ((r, a) :: rest)
  end.

(** Assigning properties of the record behind a reference. *)
Definition update (r : ref) (f : Allocation.t -> Allocation.t) : M t unit :=
  _ <- deref r ;;
  modify (set_objects (alter f r)).

Definition bucketSizes : list Z :=
  [8; 16; 32; 48; 64; 80; 96; 112; 128;
   144; 160; 192; 224; 256; 320; 384;
   448; 512; 576; 640; 704; 768; 832; 896; 960; 1024].

(** [findBucketForSize (size)]; the table loop returns at the first entry
    with [size <= bucketSize] and otherwise falls through. *)
Definition findBucketForSize (size : Z) : Z :=
  if size <=? 0 then 0
  else
    match
      (if size <=? 1024
       then List.find (fun bucketSize => size <=? bucketSize) bucketSizes
       else None)
    with
    | Some bucketSize => bucketSize
    | None =>
        if size <=? 4096
        then JS.Math_ceil_div size 128 * 128
        else JS.Math_ceil_div size 4096 * 4096
    end.

(** A call of [console.warn]. *)
Inductive Warning :=
| deallocate_unknown_ID (id : Z)
| record_bug_for_unknown_ID (sourceId : Z).

Definition add_allocation (st : Stats) : Stats :=
  mkStats (totalAllocations st + 1) (totalDeallocations st)
          (maxLiveAllocations st) (currentLiveAllocations st + 1).
Definition raise_max (st : Stats) : Stats :=
  mkStats (totalAllocations st) (totalDeallocations st)
          (currentLiveAllocations st) (currentLiveAllocations st).
Definition add_deallocation (st : Stats) : Stats :=
  mkStats (totalAllocations st) (totalDeallocations st + 1)
          (maxLiveAllocations st) (currentLiveAllocations st - 1).

(** [recordAllocation (size, type, metadata)]; [now] is the value of
    [Date.now ()].  Returns the new id. *)
Definition recordAllocation (now : Z) (size : Z) (type : string)
    (metadata : list (string * string)) : M t Z :=
  id <- gets nextId ;;
  modify (set_nextId (fun n => n + 1)) ;;
  let timestamp := now in
  allocation <- new_object
    (Allocation.mk id size type timestamp metadata Allocation.allocated None) ;;
  modify (set_allocations (JS.Map_set id allocation)) ;;
  let bucketSize := findBucketForSize size in
  bs <- gets buckets ;;
  when (negb (bool_decide (is_Some (bs !! bucketSize))))
    (modify (set_buckets <[bucketSize := []]>)) ;;
  modify (set_buckets (alter (fun arr => arr ++ [allocation]) bucketSize)) ;;
  modify (set_timeline (fun tl => tl ++ [allocation_event timestamp allocation])) ;;
  modify (set_stats add_allocation) ;;
  st <- gets stats ;;
  when (maxLiveAllocations st <? currentLiveAllocations st)
    (modify (set_stats raise_max)) ;;
  ret id.

(** [recordDeallocation (id)]; returns the warning written to the console,
    if any (the method itself returns [undefined]). *)
Definition recordDeallocation (now : Z) (id : Z) : M t (option Warning) :=
  allocs <- gets allocations ;;
  match JS.Map_get id allocs with
  | None => ret (Some (deallocate_unknown_ID id))
  | Some allocation =>
      let timestamp := now in
      update allocation (Allocation.set_freed timestamp) ;;
      modify (set_timeline (fun tl => tl ++ [deallocation_event timestamp allocation])) ;;
      modify (set_stats add_deallocation) ;;
      ret None
  end.

(** [recordBug (sourceId, bugType, details)] *)
Definition recordBug (now : Z) (sourceId : Z) (bugType : string)
    (details : list (string * Value)) : M t (option Warning) :=
  allocs <- gets allocations ;;
  if JS.Map_has sourceId allocs then
    let timestamp := now in
    modify (set_timeline (fun tl => tl ++ [bug_event timestamp sourceId bugType details])) ;;
    ret None
  else ret (Some (record_bug_for_unknown_ID sourceId)).

(** [getActiveAllocations ()] *)
Definition getActiveAllocations : M t (list ref) :=
  allocs <- gets allocations ;;
  values <- deref_all (JS.Map_values allocs) ;;
  ret (fst <$> List.filter
         (fun alloc => bool_decide (Allocation.status (snd alloc) = Allocation.allocated))
         values).

(** [getAllocationsInBucket (bucketSize)] *)
Definition getAllocationsInBucket (bucketSize : Z) : M t (list ref) :=
  bs <- gets buckets ;;
  ret (default [] (bs !! bucketSize)).

Record Adjacent := mkAdjacent { prev : option ref; next : option ref }.

(** [findAdjacentAllocations (id)]; [None] is [null]. *)
Definition findAdjacentAllocations (id : Z) : M t Adjacent :=
  allocs <- gets allocations ;;
  match JS.Map_get id allocs with
  | None => ret (mkAdjacent None None)
  | Some r =>
      allocation <- deref r ;;
      let bucketSize := findBucketForSize (Allocation.size allocation) in
      bs <- gets buckets ;;
      let bucketed := default [] (bs !! bucketSize) in
      entries <- deref_all bucketed ;;
      match JS.findIndex (fun a => bool_decide (Allocation.id (snd a) = id)) entries with
      | None => ret (mkAdjacent None None)
      | Some index =>
          ret (mkAdjacent
                 (if decide (0 < index)%nat
                  then bucketed !! (index - 1)%nat else None)
                 (if decide (index < length bucketed - 1)%nat
                  then bucketed !! (index + 1)%nat else None))
      end
  end.

Record BucketStat := mkBucketStat {
  bs_totalAllocations : Z;
  activeAllocations : Z;
  freedAllocations : Z;
  utilizationRate : Q
}.

Definition count_status (st : Allocation.Status) (entries : list (ref * Allocation.t)) : Z :=
  Z.of_nat (length (List.filter
    (fun a => bool_decide (Allocation.status (snd a) = st)) entries)).

(** The body of the loop of [generateBucketStats]; the division is kept as
    an exact fraction. *)
Definition bucket_stat (entries : list (ref * Allocation.t)) : BucketStat :=
  let active := count_status Allocation.allocated entries in
  let freed := count_status Allocation.freed entries in
  let total := Z.of_nat (length entries) in
  mkBucketStat total active freed
    (if 0 <? total then Qred (Qmake active (Z.to_pos total)) else 0%Q).

Fixpoint generateBucketStats_loop (entries : list (Z * list ref))
    (stats : gmap Z BucketStat) : M t (gmap Z BucketStat) :=
  match entries with
  | [] => ret stats
  | (bucketSize, allocations) :: entries' =>
      resolved <- deref_all allocations ;;
      generateBucketStats_loop entries' (<[bucketSize := bucket_stat resolved]> stats)
  end.

(** [generateBucketStats ()] *)
Definition generateBucketStats : M t (gmap Z BucketStat) :=
  bs <- gets buckets ;;
  generateBucketStats_loop (map_to_list bs) ∅.

Record TypeStat := mkTypeStat {
  count : Z;
  totalSize : Z;
  active : Z;
  ts_freed : Z
}.

(** One iteration of the loop of [generateTypeStats].  A type named like a
    property that every object inherits ("constructor", "toString", ...) is
    outside this model. *)
Definition type_stat_step (stats : gmap string TypeStat) (allocation : Allocation.t)
    : gmap string TypeStat :=
  let cur := default (mkTypeStat 0 0 0 0) (stats !! Allocation.type allocation) in
  <[Allocation.type allocation :=
      match Allocation.status allocation with
      | Allocation.allocated =>
          mkTypeStat (count cur + 1) (totalSize cur + Allocation.size allocation)
                     (active cur + 1) (ts_freed cur)
      | Allocation.freed =>
          mkTypeStat (count cur + 1) (totalSize cur + Allocation.size allocation)
                     (active cur) (ts_freed cur + 1)
      end]> stats.

(** [generateTypeStats ()] *)
Definition generateTypeStats : M t (gmap string TypeStat) :=
  allocs <- gets allocations ;;
  values <- deref_all (JS.Map_values allocs) ;;
  ret (foldl type_stat_step ∅ (snd <$> values)).

(** [getActiveBuckets ()]: the keys of [buckets], sorted by [(a, b) => a - b].
    The keys are distinct, so the order in which the map lists them does not
    show in the result. *)
Definition getActiveBuckets : M t (list Z) :=
  bs <- gets buckets ;;
  ret (JS.sort (fun a b => a - b) (fst <$> map_to_list bs)).

(** [reset ()]; records that are no longer referenced by the tracker stay in
    the store, where bug records may still point at them. *)
Definition reset : M t unit :=
  modify (set_allocations (fun _ => [])) ;;
  modify (set_buckets (fun _ => ∅)) ;;
  modify (set_timeline (fun _ => [])) ;;
  modify (set_nextId (fun _ => 1)) ;;
  modify (set_stats (fun _ => zero_stats)).

End HeapAnalyzer.

(** ** bug-simulator.js *)

Module BugSimulator.

Inductive Severity := low | medium | high | critical | unknown.

#[global] Instance Severity_eq_dec : EqDecision Severity.
Proof. solve_decision. Defined.

(** The three shapes of [bugDetails] that the simulator builds: [type]
    together with the properties that only this type carries.  No method
    stores a bug of another type, so the [default] branches of the
    [switch (bug.type)] statements have no bug to run on. *)
Inductive Kind :=
| overflow (overflowSize : Z)
| use_after_free
| type_confusion (wrongType : string).

(** [this.bugTypes] *)
Definition type_of (k : Kind) : string :=
  match k with
  | overflow _ => "overflow"
  | use_after_free => "use-after-free"
  | type_confusion _ => "type-confusion"
  end.

Record Impact := mkImpact {
  severity : Severity;
  notes : option string;
  corruptedAllocation : option ref;
  reusingAllocation : option ref;
  exampleAllocation : option ref;
  originalType : option string;
  confusedType : option string
}.

Record BugDetails := mkBug {
  id : Z;
  kind : Kind;
  sourceId : Z;
  source : ref;
  timestamp : Z;
  impact : Impact
}.

(** The fields of a [BugSimulator] other than [analyzer]. *)
Record t := mk {
  activeBugs : gmap Z BugDetails;
  nextBugId : Z
}.

Definition new : t := mk ∅ 1.

End BugSimulator.

(** The objects wired together by [HeapGroomingToolkit]: the simulator and the
    generator hold the same [analyzer]. *)
Module Toolkit.
Record t := mk {
  analyzer : HeapAnalyzer.t;
  bugSimulator : BugSimulator.t
}.

Definition new : t := mk HeapAnalyzer.new BugSimulator.new.

(** Running a method of [this.analyzer]. *)
Definition on_analyzer {A} (m : M HeapAnalyzer.t A) : M t A :=
  fun w => match m (analyzer w) with
           | Some (a, h') => Some (a, mk h' (bugSimulator w))
           | None => None
           end.

Definition set_bugSimulator (f : BugSimulator.t -> BugSimulator.t) (w : t) : t :=
  mk (analyzer w) (f (bugSimulator w)).
End Toolkit.

Module BugSimulatorMethods.
Import BugSimulator Toolkit.

Definition criticalTypes : list string :=
  ["Function"; "ArrayBuffer"; "WebAssembly"; "VTable"].
Definition sensitiveTypes : list string :=
  ["Array"; "Object"; "Map"; "Set"].

(** [assessOverflowSeverity (source, target, overflowSize)] *)
Definition assessOverflowSeverity (source target : Allocation.t) (overflowSize : Z)
    : Severity :=
  if JS.some_included criticalTypes (Allocation.type target) then critical
  else if JS.some_included sensitiveTypes (Allocation.type target) then high
  else if 100 <? overflowSize then high
  else if 16 <? overflowSize then medium
  else low.

(** [assessUafSeverity (freed, reuser)] *)
Definition assessUafSeverity (freed reuser : Allocation.t) : Severity :=
  if JS.some_included criticalTypes (Allocation.type reuser) then critical
  else if JS.some_included sensitiveTypes (Allocation.type reuser) then high
  else if JS.some_included criticalTypes (Allocation.type freed) then high
  else medium.

(** [const bugId = this.nextBugId++] *)
Definition fresh_bugId : M Toolkit.t Z :=
  bugId <- gets (fun w => nextBugId (bugSimulator w)) ;;
  modify (set_bugSimulator (fun b => BugSimulator.mk (activeBugs b) (nextBugId b + 1))) ;;
  ret bugId.

(** [this.activeBugs.set (bugId, bugDetails)] *)
Definition store_bug (bugId : Z) (bugDetails : BugDetails) : M Toolkit.t unit :=
  modify (set_bugSimulator
    (fun b => BugSimulator.mk (<[bugId := bugDetails]> (activeBugs b)) (nextBugId b))).

(** Reading through a reference that may be [null]. *)
Definition deref_opt (r : option ref) : M HeapAnalyzer.t (option (ref * Allocation.t)) :=
  match r with
  | None => ret None
  | Some r => a <- HeapAnalyzer.deref r ;; ret (Some (r, a))
  end.

(** [x?.id] *)
Definition id_or_undefined (x : option (ref * Allocation.t)) : HeapAnalyzer.Value :=
  match x with
  | Some (_, a) => HeapAnalyzer.VNumber (Allocation.id a)
  | None => HeapAnalyzer.VUndefined
  end.

Definition no_corruption : Impact :=
  mkImpact low (Some "No active allocation would be directly corrupted")
           None None None None None.

(** The [if (adjacent.next && adjacent.next.status === 'allocated')]
    statement of [simulateOverflow]. *)
Definition overflow_impact (src : Allocation.t) (overflowSize : Z)
    (next : option (ref * Allocation.t)) : Impact :=
  match next with
  | Some (r, target) =>
      if bool_decide (Allocation.status target = Allocation.allocated)
      then mkImpact (assessOverflowSeverity src target overflowSize)
                    None (Some r) None None None None
      else no_corruption
  | None => no_corruption
  end.

(** [simulateOverflow (sourceId, overflowSize)]; [now] and [now_event] are
    the values of the two calls of [Date.now ()], in order.  [inl] is the
    [{ error }] object. *)
Definition simulateOverflow (now now_event : Z) (sourceId overflowSize : Z)
    : M Toolkit.t (string + BugDetails) :=
  allocs <- on_analyzer (gets HeapAnalyzer.allocations) ;;
  match JS.Map_get sourceId allocs with
  | None => ret (inl "Source allocation not found")
  | Some source =>
      src <- on_analyzer (HeapAnalyzer.deref source) ;;
      if negb (bool_decide (Allocation.status src = Allocation.allocated))
      then ret (inl "Source allocation is not active")
      else
        bugId <- fresh_bugId ;;
        adjacent <- on_analyzer (HeapAnalyzer.findAdjacentAllocations sourceId) ;;
        next <- on_analyzer (deref_opt (HeapAnalyzer.next adjacent)) ;;
        let bugDetails :=
          mkBug bugId (overflow overflowSize) sourceId source now
                (overflow_impact src overflowSize next) in
        on_analyzer (HeapAnalyzer.recordBug now_event sourceId
          (type_of (overflow overflowSize))
          [("overflowSize", HeapAnalyzer.VNumber overflowSize);
           ("impactedId", id_or_undefined next)]) ;;
        store_bug bugId bugDetails ;;
        ret (inr bugDetails)
  end.

(** The filter of [simulateUseAfterFree]. *)
Definition potentialReuser (freedAt : Z) (alloc : ref * Allocation.t) : bool :=
  bool_decide (Allocation.status (snd alloc) = Allocation.allocated)
  && (freedAt <? Allocation.timestamp (snd alloc)).

Definition by_timestamp (a b : ref * Allocation.t) : Z :=
  Allocation.timestamp (snd a) - Allocation.timestamp (snd b).

(** The [if (potentialReusers.length > 0)] statement of
    [simulateUseAfterFree], with the filter and the sort before it. *)
Definition uaf_impact (freedAlloc : Allocation.t)
    (allocationsInBucket : list (ref * Allocation.t)) : Impact :=
  let freedAt := default 0 (Allocation.freedAt freedAlloc) in
  let potentialReusers := List.filter (potentialReuser freedAt) allocationsInBucket in
  match JS.sort by_timestamp potentialReusers with
  | mostLikelyReuser :: _ =>
      mkImpact (assessUafSeverity freedAlloc (snd mostLikelyReuser))
               None None (Some (fst mostLikelyReuser)) None None None
  | [] =>
      mkImpact medium
        (Some "No reuse detected yet, but memory could be reused later")
        None None None None None
  end.

(** [simulateUseAfterFree (freedId)] *)
Definition simulateUseAfterFree (now now_event : Z) (freedId : Z)
    : M Toolkit.t (string + BugDetails) :=
  allocs <- on_analyzer (gets HeapAnalyzer.allocations) ;;
  match JS.Map_get freedId allocs with
  | None => ret (inl "Allocation not found")
  | Some source =>
      freedAlloc <- on_analyzer (HeapAnalyzer.deref source) ;;
      if negb (bool_decide (Allocation.status freedAlloc = Allocation.freed))
      then ret (inl "Allocation is not freed yet")
      else
        bugId <- fresh_bugId ;;
        let bucketSize := HeapAnalyzer.findBucketForSize (Allocation.size freedAlloc) in
        allocationsInBucket <- on_analyzer (HeapAnalyzer.getAllocationsInBucket bucketSize) ;;
        resolved <- on_analyzer (HeapAnalyzer.deref_all allocationsInBucket) ;;
        let impact := uaf_impact freedAlloc resolved in
        let bugDetails := mkBug bugId use_after_free freedId source now impact in
        reuser <- on_analyzer (deref_opt (reusingAllocation impact)) ;;
        on_analyzer (HeapAnalyzer.recordBug now_event freedId (type_of use_after_free)
          [("impactedId", id_or_undefined reuser)]) ;;
        store_bug bugId bugDetails ;;
        ret (inr bugDetails)
  end.

(** The [if (wrongTypeExamples.length > 0)] statement of
    [simulateTypeConfusion], with the filter before it; [values] are the
    records of the allocation table, in its order. *)
Definition confusion_impact (src : Allocation.t) (wrongType : string)
    (values : list (ref * Allocation.t)) : Impact :=
  let correctType := Allocation.type src in
  let wrongTypeExamples :=
    List.filter (fun alloc =>
      bool_decide (Allocation.type (snd alloc) = wrongType)
      && bool_decide (Allocation.status (snd alloc) = Allocation.allocated))
      values in
  match wrongTypeExamples with
  | wrongTypeExample :: _ =>
      let sizeDiff := Allocation.size src - Allocation.size (snd wrongTypeExample) in
      if 0 <? sizeDiff then
        mkImpact high
          (Some (correctType +:+ " is larger than " +:+ wrongType
                 +:+ ", potential out-of-bounds access"))
          None None (Some (fst wrongTypeExample))
          (Some correctType) (Some wrongType)
      else if sizeDiff <? 0 then
        mkImpact medium
          (Some (correctType +:+ " is smaller than " +:+ wrongType
                 +:+ ", potential metadata corruption"))
          None None (Some (fst wrongTypeExample))
          (Some correctType) (Some wrongType)
      else
        mkImpact medium
          (Some "Types have same size, but internal layout differences may cause issues")
          None None (Some (fst wrongTypeExample))
          (Some correctType) (Some wrongType)
  | [] =>
      mkImpact unknown
        (Some ("No examples of " +:+ wrongType +:+ " available for comparison"))
        None None None (Some correctType) (Some wrongType)
  end.

(** [simulateTypeConfusion (sourceId, wrongType)] *)
Definition simulateTypeConfusion (now now_event : Z) (sourceId : Z) (wrongType : string)
    : M Toolkit.t (string + BugDetails) :=
  allocs <- on_analyzer (gets HeapAnalyzer.allocations) ;;
  match JS.Map_get sourceId allocs with
  | None => ret (inl "Source allocation not found")
  | Some source =>
      src <- on_analyzer (HeapAnalyzer.deref source) ;;
      if negb (bool_decide (Allocation.status src = Allocation.allocated))
      then ret (inl "Source allocation is not active")
      else
        bugId <- fresh_bugId ;;
        values <- on_analyzer (HeapAnalyzer.deref_all (JS.Map_values allocs)) ;;
        let bugDetails :=
          mkBug bugId (type_confusion wrongType) sourceId source now
                (confusion_impact src wrongType values) in
        on_analyzer (HeapAnalyzer.recordBug now_event sourceId
          (type_of (type_confusion wrongType))
          [("wrongType", HeapAnalyzer.VString wrongType)]) ;;
        store_bug bugId bugDetails ;;
        ret (inr bugDetails)
  end.

Record Assessment := mkAssessment {
  overall : Severity;
  factors : list string;
  difficulties : list string;
  score : Z
}.

(** [assessment.factors.push (msg); exploitScore += points] *)
Definition factor (msg : string) (points : Z) (a : Assessment) : Assessment :=
  mkAssessment (overall a) (factors a ++ [msg]) (difficulties a) (score a + points).

(** [assessment.difficulties.push (msg); exploitScore -= points] *)
Definition difficulty (msg : string) (points : Z) (a : Assessment) : Assessment :=
  mkAssessment (overall a) (factors a) (difficulties a ++ [msg]) (score a - points).

(** [t.includes ('Function') || t.includes ('ArrayBuffer')] *)
Definition Function_or_ArrayBuffer (t : string) : bool :=
  JS.includes t "Function" || JS.includes t "ArrayBuffer".

Definition set_overall (a : Assessment) : Assessment :=
  mkAssessment
    (if 40 <=? score a then high else if 20 <=? score a then medium else low)
    (factors a) (difficulties a) (score a).

(** The [switch (bug.type)] of [assessExploitability]. *)
Definition assess_bug (bug : BugDetails) (a : Assessment) : M HeapAnalyzer.t Assessment :=
  match kind bug with
  | overflow overflowSize =>
      match corruptedAllocation (impact bug) with
      | Some r =>
          target <- HeapAnalyzer.deref r ;;
          let a :=
            if Function_or_ArrayBuffer (Allocation.type target)
            then factor "Overflow corrupts a critical object type" 30 a else a in
          ret (if overflowSize <=? 8
               then factor "Small, controlled overflow size" 20 a
               else if overflowSize <=? 64
               then factor "Moderate overflow size" 10 a
               else difficulty "Large overflow may cause instability" 10 a)
      | None =>
          ret (difficulty "No identified adjacent object to corrupt" 20 a)
      end
  | use_after_free =>
      match reusingAllocation (impact bug) with
      | Some r =>
          reuser <- HeapAnalyzer.deref r ;;
          bug_source <- HeapAnalyzer.deref (source bug) ;;
          let a :=
            if JS.includes (Allocation.type reuser) "ArrayBuffer"
               || JS.includes (Allocation.type reuser) "Function"
            then factor "UAF memory reused by a critical object type" 30 a else a in
          ret (if bool_decide (Allocation.type bug_source = Allocation.type reuser)
               then factor "Reusing allocation has same type, reducing chance of crashes" 15 a
               else difficulty
                 "Type mismatch between freed and reusing objects may cause instability" 10 a)
      | None =>
          ret (difficulty "No identified reusing allocation yet" 15 a)
      end
  | type_confusion wrongType =>
      let a :=
        if Function_or_ArrayBuffer wrongType
        then factor "Confusion with a critical object type" 25 a else a in
      match exampleAllocation (impact bug) with
      | Some r =>
          example <- HeapAnalyzer.deref r ;;
          bug_source <- HeapAnalyzer.deref (source bug) ;;
          let sizeDiff := Allocation.size bug_source - Allocation.size example in
          ret (if 0 <? sizeDiff
               then factor
                 "Target type is smaller than original, enabling out-of-bounds access" 20 a
               else a)
      | None =>
          ret (difficulty "No example of confused type available for comparison" 10 a)
      end
  end.

(** [assessExploitability (bugId)] *)
Definition assessExploitability (bugId : Z) : M Toolkit.t (string + Assessment) :=
  bugs <- gets (fun w => activeBugs (bugSimulator w)) ;;
  match bugs !! bugId with
  | None => ret (inl "Bug not found")
  | Some bug =>
      let assessment := mkAssessment low [] [] 0 in
      assessment <- on_analyzer (assess_bug bug assessment) ;;
      st <- on_analyzer (gets HeapAnalyzer.stats) ;;
      let assessment :=
        if 100 <? HeapAnalyzer.totalAllocations st
        then factor "Complex heap state provides opportunities for grooming" 10 assessment
        else assessment in
      ret (inr (set_overall assessment))
  end.

(** [removeBug (bugId)] *)
Definition removeBug (bugId : Z) : M Toolkit.t unit :=
  modify (set_bugSimulator
    (fun b => BugSimulator.mk (delete bugId (activeBugs b)) (nextBugId b))).

(** [reset ()] *)
Definition reset : M Toolkit.t unit :=
  modify (set_bugSimulator (fun _ => BugSimulator.new)).

End BugSimulatorMethods.

(** ** grooming-strategies.js *)

Module GroomingStrategyGenerator.
Import BugSimulator Toolkit.

Record Phase := mkPhase {
  phase_type : string;
  description : string;
  code : string
}.

Record Strategy := mkStrategy {
  name : string;
  targetBug : BugDetails;
  strategy_description : string;
  approach : string;
  phases : list Phase
}.

(** The methods that render the text of a phase.  They build JavaScript
    source from their arguments by string templates and take no part in any
    decision, so their text is left open. *)
Class CodeTemplates := {
  generateAllocationArrayCode : string -> Z -> Z -> string;
  generateTypeConfusionCode : string -> string -> string;
  generateSizeMismatchExploitCode : string -> string -> Z -> string;
  generateAllocationWithDataCode : string -> Z -> Z -> string;
  generateMetadataCorruptionCode : string -> string -> Z -> string;
  generateAllocationWithSpecificFieldsCode : string -> Z -> string;
  generateFieldMisinterpretationCode : string -> string -> string
}.

Section Generator.
Context `{CodeTemplates}.

(** The builders for the other two bug types are the other two branches of
    the dispatch. *)
Variable generateOverflowStrategy : BugDetails -> M Toolkit.t (string + Strategy).
Variable generateUafStrategy : BugDetails -> M Toolkit.t (string + Strategy).

(** [sizeDiff] as computed by [generateTypeConfusionStrategy]. *)
Definition sizeDiff_of (source : Allocation.t) (wrongType : string)
    (values : list (ref * Allocation.t)) : Z :=
  let wrongTypeExamples :=
    List.filter (fun alloc => bool_decide (Allocation.type (snd alloc) = wrongType))
      values in
  match wrongTypeExamples with
  | example :: _ => Allocation.size source - Allocation.size (snd example)
  | [] => 0
  end.

(** [generateTypeConfusionStrategy (bug)], for a bug that carries
    [wrongType]. *)
Definition generateTypeConfusionStrategy (bug : BugDetails) (wrongType : string)
    : M Toolkit.t (string + Strategy) :=
  allocs <- on_analyzer (gets HeapAnalyzer.allocations) ;;
  match JS.Map_get (sourceId bug) allocs with
  | None => ret (inl "Source allocation not found")
  | Some r =>
      source <- on_analyzer (HeapAnalyzer.deref r) ;;
      let source_type := Allocation.type source in
      let strategy := mkStrategy
        ("Type Confusion Strategy (" +:+ source_type +:+ " → " +:+ wrongType +:+ ")")
        bug
        ("Strategy to exploit type confusion between " +:+ source_type
         +:+ " and " +:+ wrongType) in
      values <- on_analyzer (HeapAnalyzer.deref_all (JS.Map_values allocs)) ;;
      let sizeDiff := sizeDiff_of source wrongType values in
      let confusion_setup := mkPhase "confusion_setup"
        ("Force type confusion between " +:+ source_type +:+ " and " +:+ wrongType)
        (generateTypeConfusionCode source_type wrongType) in
      if 0 <? sizeDiff then
        ret (inr (strategy "size_mismatch_larger"
          [ mkPhase "preparation"
              ("Create many " +:+ source_type +:+ " objects for later confusion")
              (generateAllocationArrayCode source_type (Allocation.size source) 10);
            confusion_setup;
            mkPhase "exploit"
              ("Access out-of-bounds memory through confused " +:+ wrongType +:+ " object")
              (generateSizeMismatchExploitCode source_type wrongType sizeDiff) ]))
      else if sizeDiff <? 0 then
        ret (inr (strategy "size_mismatch_smaller"
          [ mkPhase "preparation"
              ("Arrange " +:+ wrongType +:+ " objects in memory with controlled data")
              (generateAllocationWithDataCode wrongType (Z.abs sizeDiff) 10);
            confusion_setup;
            mkPhase "exploit"
              ("Corrupt metadata by writing beyond " +:+ source_type +:+ " boundaries")
              (generateMetadataCorruptionCode source_type wrongType (Z.abs sizeDiff)) ]))
      else
        ret (inr (strategy "field_misinterpretation"
          [ mkPhase "preparation"
              ("Create " +:+ source_type +:+ " objects with specific field values")
              (generateAllocationWithSpecificFieldsCode source_type 10);
            confusion_setup;
            mkPhase "exploit"
              "Exploit misinterpreted fields between types"
              (generateFieldMisinterpretationCode source_type wrongType) ]))
  end.

(** [generateStrategyForBug (bugId)] *)
Definition generateStrategyForBug (bugId : Z) : M Toolkit.t (string + Strategy) :=
  bugs <- gets (fun w => activeBugs (bugSimulator w)) ;;
  match bugs !! bugId with
  | None => ret (inl "Bug not found")
  | Some bug =>
      match kind bug with
      | overflow _ => generateOverflowStrategy bug
      | use_after_free => generateUafStrategy bug
      | type_confusion wrongType => generateTypeConfusionStrategy bug wrongType
      end
  end.
End Generator.

(** The filters of [findDesirableNeighbors]. *)
Definition desirable_of_type (source : Allocation.t) (type : string)
    (a : ref * Allocation.t) : bool :=
  JS.includes (Allocation.type (snd a)) type
  && negb (bool_decide (Allocation.id (snd a) = Allocation.id source))
  && bool_decide (Allocation.status (snd a) = Allocation.allocated).

Definition desirable_other (source : Allocation.t) (criticalTypes : list string)
    (a : ref * Allocation.t) : bool :=
  negb (JS.some_included criticalTypes (Allocation.type (snd a)))
  && negb (bool_decide (Allocation.id (snd a) = Allocation.id source))
  && bool_decide (Allocation.status (snd a) = Allocation.allocated).

(** [findDesirableNeighbors (source, overflowSize)]; the second argument is
    not used by the method. *)
Definition findDesirableNeighbors (source : Allocation.t) (overflowSize : Z)
    : M HeapAnalyzer.t (list (ref * Allocation.t)) :=
  let criticalTypes := ["ArrayBuffer"; "Function"; "WebAssembly"] in
  let bucketSize := HeapAnalyzer.findBucketForSize (Allocation.size source) in
  bucketed <- HeapAnalyzer.getAllocationsInBucket bucketSize ;;
  allocationsInBucket <- HeapAnalyzer.deref_all bucketed ;;
  let result :=
    flat_map (fun type =>
      match List.filter (desirable_of_type source type) allocationsInBucket with
      | first :: _ => [first]
      | [] => []
      end) criticalTypes in
  match result with
  | [] =>
      match List.filter (desirable_other source criticalTypes) allocationsInBucket with
      | first :: _ => ret [first]
      | [] => ret []
      end
  | _ => ret result
  end.

(** [findBestSprayCandidate (targetSize)]; the argument is not used by the
    method.  [usedTypes] is a [Set], asked with [has] only. *)
Definition findBestSprayCandidate (targetSize : Z) : M HeapAnalyzer.t string :=
  let preferredTypes := ["ArrayBuffer"; "Uint8Array"; "Object"; "Array"] in
  allocs <- gets HeapAnalyzer.allocations ;;
  values <- HeapAnalyzer.deref_all (JS.Map_values allocs) ;;
  let usedTypes := (fun allocation => Allocation.type (snd allocation)) <$> values in
  match List.find (fun type => bool_decide (type ∈ usedTypes)) preferredTypes with
  | Some type => ret type
  | None => ret "ArrayBuffer"
  end.

End GroomingStrategyGenerator.

(** ** memory-pattern-detector.js

    A buffer is given by the bytes of its [ArrayBuffer], which is what every
    method looks at ([buffer.buffer] for a typed array).  A JavaScript string
    is the sequence of its code units, all below 256 here. *)

Module PatternDetector.

(** What a method throws. *)
Inductive Thrown :=
| Error (message : string)
| TypeError.

Record Match := mkMatch { offset : Z; exactMatch : bool }.

(** The inner loop of [findPattern] at one offset: [window] is the buffer from
    that offset on, [mismatches] the count so far; the loop is left as soon
    as the count is above [tolerance].  A byte past the end of the buffer is
    [undefined] and differs from every pattern byte. *)
Fixpoint count_mismatches (window patternView : list Z) (tolerance mismatches : Z) : Z :=
  match patternView with
  | [] => mismatches
  | p :: patternView' =>
      if match window with
         | b :: _ => negb (b =? p)
         | [] => true
         end
      then
        let mismatches := mismatches + 1 in
        if tolerance <? mismatches then mismatches
        else count_mismatches (tail window) patternView' tolerance mismatches
      else count_mismatches (tail window) patternView' tolerance mismatches
  end.

(** [findPattern (buffer, pattern, tolerance)], on the byte views of buffer
    and pattern. *)
Definition findPattern (bufferView patternView : list Z) (tolerance : Z) : list Match :=
  let limit := Z.of_nat (length bufferView) - Z.of_nat (length patternView) + 1 in
  flat_map (fun i =>
    let mismatches := count_mismatches (drop i bufferView) patternView tolerance 0 in
    if mismatches <=? tolerance
    then [mkMatch (Z.of_nat i) (mismatches =? 0)]
    else [])
    (seq 0 (Z.to_nat limit)).

Record FoundString := mkFoundString {
  string_offset : Z;
  string_length : Z;
  string : list Z
}.

(** [byte >= 32 && byte <= 126] *)
Definition printable (byte : Z) : bool := (32 <=? byte) && (byte <=? 126).

(** The [if (currentString.length >= minLength)] statement of [findStrings],
    at the position [i] where the run ended. *)
Definition push_string (minLength : Z) (i : Z) (currentString : list Z)
    (strings : list FoundString) : list FoundString :=
  if minLength <=? Z.of_nat (length currentString)
  then strings ++ [mkFoundString (i - Z.of_nat (length currentString))
                     (Z.of_nat (length currentString)) currentString]
  else strings.

(** The loop of [findStrings] from index [i] on, and the check after it.
    [string] holds the character codes given to [String.fromCharCode]. *)
Fixpoint findStrings_loop (rest : list Z) (i : Z) (minLength : Z)
    (currentString : list Z) (strings : list FoundString) : list FoundString :=
  match rest with
  | [] => push_string minLength i currentString strings
  | byte :: rest' =>
      if printable byte
      then findStrings_loop rest' (i + 1) minLength (currentString ++ [byte]) strings
      else findStrings_loop rest' (i + 1) minLength []
             (push_string minLength i currentString strings)
  end.

(** [findStrings (buffer, minLength)] *)
Definition findStrings (bufferView : list Z) (minLength : Z) : list FoundString :=
  findStrings_loop bufferView 0 minLength [] [].

(** The default [checkFn] of [scanForCorruption]: the loop returns [true] at
    the fourth byte that is neither 0 nor 0x41. *)
Fixpoint unexpected_values (view : list Z) (unexpectedCount : Z) : bool :=
  match view with
  | [] => false
  | b :: view' =>
      if negb (b =? 0) && negb (b =? 65)
      then
        let unexpectedCount := unexpectedCount + 1 in
        if 3 <? unexpectedCount then true else unexpected_values view' unexpectedCount
      else unexpected_values view' unexpectedCount
  end.

Definition default_check (view : list Z) : bool := unexpected_values view 0.

(** The loop of [scanForCorruption (arrays)] when no [checkFn] is given and
    every entry is a typed array, given by the byte view of its buffer:
    [corrupted] holds the [index] of the entries pushed. *)
Fixpoint scanForCorruption_loop (arrays : list (list Z)) (i : Z) (corrupted : list Z)
    : list Z :=
  match arrays with
  | [] => corrupted
  | array :: arrays' =>
      scanForCorruption_loop arrays' (i + 1)
        (if default_check array then corrupted ++ [i] else corrupted)
  end.

Definition scanForCorruption (arrays : list (list Z)) : list Z :=
  scanForCorruption_loop arrays 0 [].

(** [/\s/] on code units below 256. *)
Definition is_whitespace (c : Ascii.ascii) : bool :=
  let n := Ascii.nat_of_ascii c in
  ((9 <=? n)%nat && (n <=? 13)%nat) || (n =? 32)%nat || (n =? 160)%nat.

(** The value of a digit in radix 16. *)
Definition hex_digit (c : Ascii.ascii) : option Z :=
  let n := Z.of_nat (Ascii.nat_of_ascii c) in
  if (48 <=? n) && (n <=? 57) then Some (n - 48)
  else if (97 <=? n) && (n <=? 102) then Some (n - 87)
  else if (65 <=? n) && (n <=? 70) then Some (n - 55)
  else None.

(** The digits at the start of [s], most significant first. *)
Fixpoint leading_digits (s : list Ascii.ascii) : list Z :=
  match s with
  | c :: s' =>
      match hex_digit c with
      | Some d => d :: leading_digits s'
      | None => []
      end
  | [] => []
  end.

(** Leaving out the white space at the start. *)
Fixpoint skip_whitespace (s : list Ascii.ascii) : list Ascii.ascii :=
  match s with
  | c :: s' => if is_whitespace c then skip_whitespace s' else s
  | [] => []
  end.

(** [parseInt (s, 16)], [None] for [NaN]: leading white space, a sign, a
    [0x] or [0X] prefix, then the longest run of digits. *)
Definition parseInt16 (s : list Ascii.ascii) : option Z :=
  let s := skip_whitespace s in
  let '(sign, s) :=
    match s with
    | "-"%char :: s' => (-1, s')
    | "+"%char :: s' => (1, s')
    | _ => (1, s)
    end in
  let s :=
    match s with
    | "0"%char :: "x"%char :: s' => s'
    | "0"%char :: "X"%char :: s' => s'
    | _ => s
    end in
  match leading_digits s with
  | [] => None
  | digits => Some (sign * foldl (fun n d => 16 * n + d) 0 digits)
  end.

(** Storing a number in a [Uint8Array]: [NaN] becomes 0, an integer is taken
    modulo 256. *)
Definition to_uint8 (n : option Z) : Z :=
  match n with
  | Some n => n mod 256
  | None => 0
  end.

(** The loop of [createHexPattern]: [buffer[i / 2] = parseInt (hexStr.substr
    (i, 2), 16)] for [i = 0, 2, ...]. *)
Fixpoint hex_pairs (hexStr : list Ascii.ascii) : list Z :=
  match hexStr with
  | a :: b :: rest => to_uint8 (parseInt16 [a; b]) :: hex_pairs rest
  | _ => []
  end.

(** [createHexPattern (hexStr)] *)
Definition createHexPattern (hexStr : String.string) : Thrown + list Z :=
  let hexStr :=
    List.filter (fun c => negb (is_whitespace c)) (String.list_ascii_of_string hexStr) in
  if negb (Z.of_nat (length hexStr) mod 2 =? 0)
  then inl (Error "Hex string must have an even length")
  else inr (hex_pairs hexStr).

(** An entry of [predefinedPatterns]: [pattern_length] is [pattern.length], the
    number of elements of the typed array, [pattern_bytes] its byte view. *)
Record Pattern := mkPattern {
  pattern_name : String.string;
  pattern_length : Z;
  pattern_bytes : list Z
}.

(** [this.patternTypes], in the order of [Object.values]. *)
Definition patternTypes : list String.string :=
  ["shellcode"; "vtable"; "heap_metadata"; "fake_object"; "string"; "custom"].

(** [new Uint8Array ([...])] *)
Definition Uint8 (name : String.string) (bytes : list Z) : Pattern :=
  mkPattern name (Z.of_nat (length bytes)) bytes.

(** [constructor ()]: [this.predefinedPatterns].  The four words 0x08080808
    have the same bytes in either byte order; the two text patterns are the
    UTF-8 encodings that [TextEncoder] gives. *)
Definition new : gmap String.string (list Pattern) :=
  {[ "shellcode" :=
       [ Uint8 "NOP sled" [144; 144; 144; 144; 144; 144; 144; 144];
         Uint8 "NOP alternative" [102; 144; 102; 144; 102; 144; 102; 144];
         Uint8 "INT3 breakpoint" [204; 204; 204; 204] ];
     "vtable" :=
       [ mkPattern "Function pointers" 4 [8; 8; 8; 8; 8; 8; 8; 8; 8; 8; 8; 8; 8; 8; 8; 8];
         Uint8 "Fake vtable header" [0; 0; 0; 0; 8; 0; 0; 0] ];
     "heap_metadata" :=
       [ Uint8 "FreeMagic" [239; 239; 239; 239];
         Uint8 "AllocMagic" [205; 205; 205; 205];
         Uint8 "PartitionAlloc Free" [253; 253; 253; 253] ];
     "fake_object" :=
       [ Uint8 "ArrayBuffer header" [0; 0; 0; 0; 255; 255; 255; 255];
         Uint8 "DOM Node signature" [1; 0; 0; 0; 1; 0; 0; 0] ];
     "string" :=
       [ Uint8 "ASCII pattern"
           [65; 65; 65; 65; 66; 66; 66; 66; 67; 67; 67; 67; 68; 68; 68; 68];
         Uint8 "Unicode pattern"
           [65; 195; 128; 65; 195; 128; 66; 195; 128; 66; 195; 128;
            67; 195; 128; 67; 195; 128] ] ]}.

(** The property names that every object inherits: [predefinedPatterns[name]]
    is then a function or an object, not [undefined] and not an array. *)
Definition inherited (name : String.string) : bool :=
  bool_decide (name ∈ ["constructor"; "__proto__"; "hasOwnProperty"; "isPrototypeOf";
                       "propertyIsEnumerable"; "toLocaleString"; "toString"; "valueOf";
                       "__defineGetter__"; "__defineSetter__";
                       "__lookupGetter__"; "__lookupSetter__"]).

(** [addCustomPattern (patternType, name, pattern)] on [predefinedPatterns]. *)
Definition addCustomPattern (patternType : String.string) (pattern : Pattern)
    : M (gmap String.string (list Pattern)) (Thrown + unit) :=
  patterns <- gets (fun d => d !! patternType) ;;
  match patterns with
  | Some entries =>
      modify (<[patternType := entries ++ [pattern]]>) ;; ret (inr tt)
  | None =>
      if inherited patternType then ret (inl TypeError)
      else modify (<[patternType := [pattern]]>) ;; ret (inr tt)
  end.

Record PatternHit := mkPatternHit {
  hit_name : String.string;
  patternSize : Z;
  matches : list Match
}.

Record TypeResults := mkTypeResults {
  patternType : String.string;
  bufferSize : Z;
  patterns : list PatternHit
}.

(** The loop of [scanForPatternType]: a pattern is listed when it has a match. *)
Definition pattern_hits (bufferView : list Z) (tolerance : Z) (entries : list Pattern)
    : list PatternHit :=
  flat_map (fun entry =>
    match findPattern bufferView (pattern_bytes entry) tolerance with
    | [] => []
    | found => [mkPatternHit (pattern_name entry) (pattern_length entry) found]
    end) entries.

(** [scanForPatternType (buffer, patternType, tolerance)] *)
Definition scanForPatternType (bufferView : list Z) (patternType : String.string)
    (tolerance : Z) : M (gmap String.string (list Pattern)) (Thrown + TypeResults) :=
  patterns <- gets (fun d => d !! patternType) ;;
  match patterns with
  | Some entries =>
      ret (inr (mkTypeResults patternType (Z.of_nat (length bufferView))
                  (pattern_hits bufferView tolerance entries)))
  | None =>
      if inherited patternType then ret (inl TypeError)
      else ret (inl (Error ("Unknown pattern type: " +:+ patternType)))
  end.

(** The loop of [scanBuffer] over the pattern types that are left; the first
    exception ends it. *)
Fixpoint scanBuffer_loop (bufferView : list Z) (tolerance : Z)
    (types : list String.string) (found : list (String.string * list PatternHit))
    : M (gmap String.string (list Pattern))
        (Thrown + list (String.string * list PatternHit)) :=
  match types with
  | [] => ret (inr found)
  | patternType :: types' =>
      typeResults <- scanForPatternType bufferView patternType tolerance ;;
      match typeResults with
      | inl thrown => ret (inl thrown)
      | inr typeResults =>
          scanBuffer_loop bufferView tolerance types'
            (match patterns typeResults with
             | [] => found
             | hits => found ++ [(patternType, hits)]
             end)
      end
  end.

(** [scanBuffer (buffer, tolerance)]: [results.patternTypes]. *)
Definition scanBuffer (bufferView : list Z) (tolerance : Z)
    : M (gmap String.string (list Pattern))
        (Thrown + list (String.string * list PatternHit)) :=
  scanBuffer_loop bufferView tolerance patternTypes [].

End PatternDetector.

(** ** The states the program can be in *)

Module API.
Import Toolkit.

(** The calls that change a [HeapAnalyzer]. *)
Inductive AnalyzerCall :=
| RecordAllocation (now size : Z) (type : string) (metadata : list (string * string))
| RecordDeallocation (now id : Z)
| RecordBug (now sourceId : Z) (bugType : string)
    (details : list (string * HeapAnalyzer.Value))
| Reset.

Definition run_analyzer (c : AnalyzerCall) : M HeapAnalyzer.t unit :=
  match c with
  | RecordAllocation now size type metadata =>
      HeapAnalyzer.recordAllocation now size type metadata ;; ret tt
  | RecordDeallocation now id => HeapAnalyzer.recordDeallocation now id ;; ret tt
  | RecordBug now sourceId bugType details =>
      HeapAnalyzer.recordBug now sourceId bugType details ;; ret tt
  | Reset => HeapAnalyzer.reset
  end.

(** The calls that change the analyzer or the simulator. *)
Inductive Call :=
| Analyzer (c : AnalyzerCall)
| SimulateOverflow (now now_event sourceId overflowSize : Z)
| SimulateUseAfterFree (now now_event freedId : Z)
| SimulateTypeConfusion (now now_event sourceId : Z) (wrongType : string)
| RemoveBug (bugId : Z)
| ResetBugs.

Definition run (c : Call) : M Toolkit.t unit :=
  match c with
  | Analyzer c => on_analyzer (run_analyzer c)
  | SimulateOverflow now now_event sourceId overflowSize =>
      BugSimulatorMethods.simulateOverflow now now_event sourceId overflowSize ;; ret tt
  | SimulateUseAfterFree now now_event freedId =>
      BugSimulatorMethods.simulateUseAfterFree now now_event freedId ;; ret tt
  | SimulateTypeConfusion now now_event sourceId wrongType =>
      BugSimulatorMethods.simulateTypeConfusion now now_event sourceId wrongType ;; ret tt
  | RemoveBug bugId => BugSimulatorMethods.removeBug bugId
  | ResetBugs => BugSimulatorMethods.reset
  end.

(** A tracker state: [new HeapAnalyzer ()] followed by calls. *)
Inductive analyzer_reachable : HeapAnalyzer.t -> Prop :=
| analyzer_new : analyzer_reachable HeapAnalyzer.new
| analyzer_call c h h' :
    analyzer_reachable h -> run_analyzer c h = Some (tt, h') -> analyzer_reachable h'.

(** A toolkit state: the constructor followed by calls. *)
Inductive reachable : Toolkit.t -> Prop :=
| toolkit_new : reachable Toolkit.new
| toolkit_call c w w' :
    reachable w -> run c w = Some (tt, w') -> reachable w'.

(** The state after a sequence of calls. *)
Definition step {S} (run : M S unit) (s : S) : S :=
  match run s with
  | Some (_, s') => s'
  | None => s
  end.

Definition analyzer_after (cs : list AnalyzerCall) : HeapAnalyzer.t :=
  foldl (fun h c => step (run_analyzer c) h) HeapAnalyzer.new cs.

Definition after (cs : list Call) : Toolkit.t :=
  foldl (fun w c => step (run c) w) Toolkit.new cs.
End API.

(** ** Invariants of the tracker *)

Module Invariant.
Import HeapAnalyzer.

(** Every table entry leads to a record with that id that sits in the bucket
    of its size; bucket arrays hold table members, each once; a freed
    record carries its free time. *)
Record wf (h : HeapAnalyzer.t) : Prop := mk_wf {
  wf_keys : NoDup (fst <$> allocations h);
  wf_alloc : forall id r, (id, r) ∈ allocations h ->
    exists a, objects h !! r = Some a /\ Allocation.id a = id /\ id < nextId h /\
      exists bucketed,
        buckets h !! findBucketForSize (Allocation.size a) = Some bucketed /\
        r ∈ bucketed;
  wf_bucket : forall b bucketed, buckets h !! b = Some bucketed ->
    NoDup bucketed /\
    forall r, r ∈ bucketed ->
      exists a, objects h !! r = Some a /\ (Allocation.id a, r) ∈ allocations h;
  wf_freed : forall r a, objects h !! r = Some a ->
    Allocation.status a = Allocation.freed -> is_Some (Allocation.freedAt a)
}.

(** The state that [recordAllocation] leaves behind. *)
Definition allocated_state (h : HeapAnalyzer.t) (now size : Z) (type : string)
    (metadata : list (string * string)) : HeapAnalyzer.t :=
  let r := length (objects h) in
  let b := findBucketForSize size in
  let st := add_allocation (stats h) in
  mk (objects h ++
        [Allocation.mk (nextId h) size type now metadata Allocation.allocated None])
     (JS.Map_set (nextId h) r (allocations h))
     (<[b := default [] (buckets h !! b) ++ [r]]> (buckets h))
     (timeline h ++ [allocation_event now r])
     (nextId h + 1)
     (detectedBucketSizes h)
     (if maxLiveAllocations st <? currentLiveAllocations st then raise_max st else st).

(** The state that [recordDeallocation] leaves behind for a known id whose
    record is [a], behind [r]. *)
Definition freed_state (h : HeapAnalyzer.t) (now : Z) (r : ref) (a : Allocation.t)
    : HeapAnalyzer.t :=
  mk (<[r := Allocation.set_freed now a]> (objects h)) (allocations h) (buckets h)
     (timeline h ++ [deallocation_event now r]) (nextId h) (detectedBucketSizes h)
     (mkStats (totalAllocations (stats h)) (totalDeallocations (stats h) + 1)
              (maxLiveAllocations (stats h)) (currentLiveAllocations (stats h) - 1)).

(** The references kept by a bug record point at records. *)
Definition bug_refs (b : BugSimulator.BugDetails) : list ref :=
  BugSimulator.source b ::
  option_list (BugSimulator.corruptedAllocation (BugSimulator.impact b)) ++
  option_list (BugSimulator.reusingAllocation (BugSimulator.impact b)) ++
  option_list (BugSimulator.exampleAllocation (BugSimulator.impact b)).

Record toolkit_wf (w : Toolkit.t) : Prop := mk_toolkit_wf {
  wf_analyzer : wf (Toolkit.analyzer w);
  wf_bugs : forall bugId b,
    BugSimulator.activeBugs (Toolkit.bugSimulator w) !! bugId = Some b ->
    forall r, r ∈ bug_refs b -> is_Some (objects (Toolkit.analyzer w) !! r)
}.
End Invariant.

(** ** The rules of the heuristics, as relations *)

Module Rules.
Import BugSimulator.

(** The neighbours of position [i] of an array: the entries just before
    and just after, [None] past either end. *)
Definition neighbours (bucketed : list ref) (i : nat) : HeapAnalyzer.Adjacent :=
  HeapAnalyzer.mkAdjacent (match i with O => None | S j => bucketed !! j end)
                          (bucketed !! S i).

(** [t] occurs in [s]. *)
Definition Substring (t s : string) : Prop :=
  exists pre post, s = pre +:+ t +:+ post.

(** [s] contains one of [types]. *)
Definition matches_any (types : list string) (s : string) : Prop :=
  exists t, t ∈ types /\ Substring t s.

(** The severity of an overflow into [target]. *)
Inductive overflow_severity (target : Allocation.t) (overflowSize : Z) : Severity -> Prop :=
| overflow_critical :
    matches_any ["Function"; "ArrayBuffer"; "WebAssembly"; "VTable"] (Allocation.type target) ->
    overflow_severity target overflowSize critical
| overflow_sensitive :
    ~ matches_any ["Function"; "ArrayBuffer"; "WebAssembly"; "VTable"] (Allocation.type target) ->
    matches_any ["Array"; "Object"; "Map"; "Set"] (Allocation.type target) ->
    overflow_severity target overflowSize high
| overflow_large :
    ~ matches_any ["Function"; "ArrayBuffer"; "WebAssembly"; "VTable"] (Allocation.type target) ->
    ~ matches_any ["Array"; "Object"; "Map"; "Set"] (Allocation.type target) ->
    100 < overflowSize ->
    overflow_severity target overflowSize high
| overflow_moderate :
    ~ matches_any ["Function"; "ArrayBuffer"; "WebAssembly"; "VTable"] (Allocation.type target) ->
    ~ matches_any ["Array"; "Object"; "Map"; "Set"] (Allocation.type target) ->
    16 < overflowSize <= 100 ->
    overflow_severity target overflowSize medium
| overflow_small :
    ~ matches_any ["Function"; "ArrayBuffer"; "WebAssembly"; "VTable"] (Allocation.type target) ->
    ~ matches_any ["Array"; "Object"; "Map"; "Set"] (Allocation.type target) ->
    overflowSize <= 16 ->
    overflow_severity target overflowSize low.

(** The severity of a use after free of [freed] whose slot [reuser] took. *)
Inductive uaf_severity (freed reuser : Allocation.t) : Severity -> Prop :=
| uaf_reuser_critical :
    matches_any ["Function"; "ArrayBuffer"; "WebAssembly"; "VTable"] (Allocation.type reuser) ->
    uaf_severity freed reuser critical
| uaf_reuser_sensitive :
    ~ matches_any ["Function"; "ArrayBuffer"; "WebAssembly"; "VTable"] (Allocation.type reuser) ->
    matches_any ["Array"; "Object"; "Map"; "Set"] (Allocation.type reuser) ->
    uaf_severity freed reuser high
| uaf_freed_critical :
    ~ matches_any ["Function"; "ArrayBuffer"; "WebAssembly"; "VTable"] (Allocation.type reuser) ->
    ~ matches_any ["Array"; "Object"; "Map"; "Set"] (Allocation.type reuser) ->
    matches_any ["Function"; "ArrayBuffer"; "WebAssembly"; "VTable"] (Allocation.type freed) ->
    uaf_severity freed reuser high
| uaf_otherwise :
    ~ matches_any ["Function"; "ArrayBuffer"; "WebAssembly"; "VTable"] (Allocation.type reuser) ->
    ~ matches_any ["Array"; "Object"; "Map"; "Set"] (Allocation.type reuser) ->
    ~ matches_any ["Function"; "ArrayBuffer"; "WebAssembly"; "VTable"] (Allocation.type freed) ->
    uaf_severity freed reuser medium.

(** A candidate for reusing the slot of a record of bucket [bucketSize]
    that was freed at [freedAt]. *)
Definition reuse_candidate (h : HeapAnalyzer.t) (bucketSize freedAt : Z)
    (r : ref) (a : Allocation.t) : Prop :=
  exists bucketed,
    HeapAnalyzer.buckets h !! bucketSize = Some bucketed /\ r ∈ bucketed /\
    HeapAnalyzer.objects h !! r = Some a /\
    Allocation.status a = Allocation.allocated /\
    freedAt < Allocation.timestamp a.

(** The points that [assessExploitability] gives for the bug itself, for a
    notion [is_critical] of critical type: the sum of the deltas that apply. *)
Inductive bug_points (is_critical : string -> Prop) (objects : list Allocation.t)
    (bug : BugDetails) : Z -> Prop :=
| points_overflow overflowSize r target c s :
    kind bug = overflow overflowSize ->
    corruptedAllocation (impact bug) = Some r -> objects !! r = Some target ->
    (is_critical (Allocation.type target) /\ c = 30 \/
     ~ is_critical (Allocation.type target) /\ c = 0) ->
    (overflowSize <= 8 /\ s = 20 \/
     8 < overflowSize <= 64 /\ s = 10 \/
     64 < overflowSize /\ s = -10) ->
    bug_points is_critical objects bug (c + s)
| points_overflow_no_target overflowSize :
    kind bug = overflow overflowSize ->
    corruptedAllocation (impact bug) = None ->
    bug_points is_critical objects bug (-20)
| points_uaf r reuser freed c s :
    kind bug = use_after_free ->
    reusingAllocation (impact bug) = Some r -> objects !! r = Some reuser ->
    objects !! source bug = Some freed ->
    (is_critical (Allocation.type reuser) /\ c = 30 \/
     ~ is_critical (Allocation.type reuser) /\ c = 0) ->
    (Allocation.type freed = Allocation.type reuser /\ s = 15 \/
     Allocation.type freed <> Allocation.type reuser /\ s = -10) ->
    bug_points is_critical objects bug (c + s)
| points_uaf_no_reuser :
    kind bug = use_after_free ->
    reusingAllocation (impact bug) = None ->
    bug_points is_critical objects bug (-15)
| points_confusion wrongType r example src c s :
    kind bug = type_confusion wrongType ->
    exampleAllocation (impact bug) = Some r -> objects !! r = Some example ->
    objects !! source bug = Some src ->
    (is_critical wrongType /\ c = 25 \/ ~ is_critical wrongType /\ c = 0) ->
    (Allocation.size example < Allocation.size src /\ s = 20 \/
     Allocation.size src <= Allocation.size example /\ s = 0) ->
    bug_points is_critical objects bug (c + s)
| points_confusion_no_example wrongType c :
    kind bug = type_confusion wrongType ->
    exampleAllocation (impact bug) = None ->
    (is_critical wrongType /\ c = 25 \/ ~ is_critical wrongType /\ c = 0) ->
    bug_points is_critical objects bug (c + -10).

(** The flat bonus and the tier. *)
Definition heap_bonus (st : HeapAnalyzer.Stats) : Z :=
  if 100 <? HeapAnalyzer.totalAllocations st then 10 else 0.

Definition tier (score : Z) (overall : Severity) : Prop :=
  (overall = high <-> 40 <= score) /\
  (overall = medium <-> 20 <= score < 40) /\
  (overall = low <-> score < 20).

(** The critical set of the severity heuristics, which the specification
    names for the score as well. *)
Definition critical_set (s : string) : Prop :=
  matches_any ["Function"; "ArrayBuffer"; "WebAssembly"; "VTable"] s.

(** The types that the score itself looks for. *)
Definition Function_or_ArrayBuffer (s : string) : Prop :=
  matches_any ["Function"; "ArrayBuffer"] s.

(** The specification's reading of the size difference of a type confusion:
    against the first example of [wrongType] that is still allocated. *)
Definition sizeDiff_allocated_example (source : Allocation.t) (wrongType : string)
    (values : list Allocation.t) : Z :=
  match List.filter (fun alloc =>
          bool_decide (Allocation.type alloc = wrongType)
          && bool_decide (Allocation.status alloc = Allocation.allocated)) values with
  | example :: _ => Allocation.size source - Allocation.size example
  | [] => 0
  end.
End Rules.

(** ** Notions used to state further properties *)

Module Facts.
Import HeapAnalyzer BugSimulator.

(** Whether the record behind a reference, or a table entry, is allocated. *)
Definition allocated_ref (objects : list Allocation.t) (r : ref) : bool :=
  match objects !! r with
  | Some a => bool_decide (Allocation.status a = Allocation.allocated)
  | None => false
  end.

Definition allocated_entry (objects : list Allocation.t) (entry : Z * ref) : bool :=
  allocated_ref objects (snd entry).

(** The number of table entries whose record is allocated. *)
Definition active_count (h : HeapAnalyzer.t) : Z :=
  Z.of_nat (length (List.filter (allocated_entry (objects h)) (allocations h))).


(** The order of the severities; [unknown] is below all. *)
Definition rank (s : Severity) : Z :=
  match s with
  | unknown => 0
  | low => 1
  | medium => 2
  | high => 3
  | critical => 4
  end.

(** The references a bug of each type carries. *)
Definition impact_shape (bug : BugDetails) : Prop :=
  match kind bug with
  | overflow _ =>
      reusingAllocation (impact bug) = None /\ exampleAllocation (impact bug) = None
  | use_after_free =>
      corruptedAllocation (impact bug) = None /\ exampleAllocation (impact bug) = None
  | type_confusion wrongType =>
      corruptedAllocation (impact bug) = None /\ reusingAllocation (impact bug) = None /\
      confusedType (impact bug) = Some wrongType
  end.

(** What holds of the bugs a simulator has stored. *)
Definition bugs_wf (w : Toolkit.t) : Prop :=
  1 <= nextBugId (Toolkit.bugSimulator w) /\
  forall bugId bug, activeBugs (Toolkit.bugSimulator w) !! bugId = Some bug ->
    id bug = bugId /\
    1 <= bugId < nextBugId (Toolkit.bugSimulator w) /\
    (exists a, objects (Toolkit.analyzer w) !! source bug = Some a /\
               Allocation.id a = sourceId bug) /\
    impact_shape bug.

(** The number of positions at which [pattern] differs from the start of
    [window]; a position past the end of [window] differs. *)
Fixpoint hamming (window pattern : list Z) : Z :=
  match pattern with
  | [] => 0
  | p :: pattern' =>
      (match window with
       | b :: _ => if b =? p then 0 else 1
       | [] => 1
       end) + hamming (tail window) pattern'
  end.

(** Two hexadecimal digits for a byte, in lower or in upper case. *)
Definition hex_char (upper : bool) (d : Z) : Ascii.ascii :=
  Ascii.ascii_of_nat
    (Z.to_nat (if d <? 10 then 48 + d else if upper then 55 + d else 87 + d)).

Fixpoint to_hex (upper : bool) (bytes : list Z) : list Ascii.ascii :=
  match bytes with
  | [] => []
  | b :: bytes' => hex_char upper (b / 16) :: hex_char upper (b mod 16) :: to_hex upper bytes'
  end.

(** A run of printable bytes of the buffer that cannot be made longer at
    either end, with its offset and length. *)
Definition printable_run (bufferView : list Z) (s : PatternDetector.FoundString) : Prop :=
  exists before after,
    bufferView = before ++ PatternDetector.string s ++ after /\
    PatternDetector.string_offset s = Z.of_nat (length before) /\
    PatternDetector.string_length s = Z.of_nat (length (PatternDetector.string s)) /\
    Forall (fun b => PatternDetector.printable b = true) (PatternDetector.string s) /\
    match last before with
    | Some b => PatternDetector.printable b = false
    | None => True
    end /\
    match head after with
    | Some b => PatternDetector.printable b = false
    | None => True
    end.

(** The states of [predefinedPatterns]: the constructor, then
    [addCustomPattern]. *)
Inductive detector_reachable : gmap string (list PatternDetector.Pattern) -> Prop :=
| detector_new : detector_reachable PatternDetector.new
| detector_add patternType pattern d res d' :
    detector_reachable d ->
    PatternDetector.addCustomPattern patternType pattern d = Some (res, d') ->
    detector_reachable d'.
End Facts.

(** ** Properties *)

Section BucketClassifier.
Import HeapAnalyzer.

Lemma find_bucket_table (size : Z) :
  0 < size <= 1024 ->
  exists b, List.find (fun bucketSize => size <=? bucketSize) bucketSizes = Some b
            /\ In b bucketSizes /\ size <= b
            /\ forall b', In b' bucketSizes -> size <= b' -> b <= b'.
Proof.
  intros Hs. unfold bucketSizes. cbn [List.find].
  repeat match goal with
  | |- context [if size <=? ?x then _ else _] =>
      destruct (Z.leb_spec size x);
      [ eexists; split; [reflexivity|]; split; [cbn; tauto|]; split; [lia|];
        cbn; intros b' Hb' ?; intuition lia | ]
  end.
  lia.
Qed.

Lemma ceil_div_round_up (n d : Z) :
  0 < d ->
  (d | JS.Math_ceil_div n d * d) /\ n <= JS.Math_ceil_div n d * d < n + d.
Proof.
  intros Hd. unfold JS.Math_ceil_div. split.
  - apply Z.divide_factor_r.
  - pose proof (Z.div_mod (- n) d ltac:(lia)).
    pose proof (Z.mod_pos_bound (- n) d Hd).
    rewrite Z.mul_opp_l, (Z.mul_comm (- n / d) d). lia.
Qed.

(** C1: [findBucketForSize] is a total function on the integers with the
    four ranges of the classifier: [0] for [size <= 0]; the least table
    entry that is [>= size] for [0 < size <= 1024]; the next multiple of
    128 for [1024 < size <= 4096]; the next multiple of 4096 above that;
    and the listed sample values. *)
Theorem findBucketForSize_spec :
  (forall size, size <= 0 -> findBucketForSize size = 0) /\
  (forall size, 0 < size <= 1024 ->
     In (findBucketForSize size) bucketSizes /\
     size <= findBucketForSize size /\
     forall b, In b bucketSizes -> size <= b -> findBucketForSize size <= b) /\
  (forall size, 1024 < size <= 4096 ->
     (128 | findBucketForSize size) /\
     size <= findBucketForSize size < size + 128) /\
  (forall size, 4096 < size ->
     (4096 | findBucketForSize size) /\
     size <= findBucketForSize size < size + 4096) /\
  bucketSizes = [8; 16; 32; 48; 64; 80; 96; 112; 128; 144; 160; 192; 224;
                 256; 320; 384; 448; 512; 576; 640; 704; 768; 832; 896;
                 960; 1024] /\
  findBucketForSize 1 = 8 /\ findBucketForSize 8 = 8 /\
  findBucketForSize 9 = 16 /\ findBucketForSize 1024 = 1024 /\
  findBucketForSize 1025 = 1152 /\ findBucketForSize 4096 = 4096 /\
  findBucketForSize 4097 = 8192 /\ findBucketForSize 0 = 0 /\
  findBucketForSize (-5) = 0.
Proof.
  split; [|split; [|split; [|split]]].
  - intros size Hs. unfold findBucketForSize.
    destruct (Z.leb_spec size 0); [reflexivity | lia].
  - intros size Hs. unfold findBucketForSize.
    destruct (Z.leb_spec size 0); [lia|].
    destruct (Z.leb_spec size 1024); [|lia].
    destruct (find_bucket_table size Hs) as (b & -> & Hin & Hle & Hmin).
    auto.
  - intros size Hs. unfold findBucketForSize.
    destruct (Z.leb_spec size 0); [lia|].
    destruct (Z.leb_spec size 1024); [lia|].
    destruct (Z.leb_spec size 4096); [|lia].
    apply ceil_div_round_up; lia.
  - intros size Hs. unfold findBucketForSize.
    destruct (Z.leb_spec size 0); [lia|].
    destruct (Z.leb_spec size 1024); [lia|].
    destruct (Z.leb_spec size 4096); [lia|].
    apply ceil_div_round_up; lia.
  - repeat split; reflexivity.
Qed.

Lemma findBucketForSize_spec_witness :
  (4096 | findBucketForSize 5000) /\ 5000 <= findBucketForSize 5000 < 5000 + 4096.
Proof.
  apply (proj1 (proj2 (proj2 (proj2 findBucketForSize_spec))) 5000). lia.
Defined.

End BucketClassifier.

(** *** The monad *)

Section Monad.
Context {S : Type}.

Lemma bind_Some {A B} (m : M S A) (k : A -> M S B) s b s'' :
  bind m k s = Some (b, s'') <->
  exists a s', m s = Some (a, s') /\ k a s' = Some (b, s'').
Proof.
  unfold bind. destruct (m s) as [[a s']|]; split.
  - eauto.
  - intros (a' & s0 & Heq & Hk). congruence.
  - discriminate.
  - intros (a' & s0 & Heq & _). discriminate.
Qed.

Lemma bind_run {A B} (m : M S A) (k : A -> M S B) s a s' :
  m s = Some (a, s') -> bind m k s = k a s'.
Proof. unfold bind. intros ->. reflexivity. Qed.

Lemma bind_gets {A B} (f : S -> A) (k : A -> M S B) s :
  bind (gets f) k s = k (f s) s.
Proof. reflexivity. Qed.

Lemma bind_modify {B} (f : S -> S) (k : unit -> M S B) s :
  bind (modify f) k s = k tt (f s).
Proof. reflexivity. Qed.

Lemma bind_ret {A B} (a : A) (k : A -> M S B) s :
  bind (ret a) k s = k a s.
Proof. reflexivity. Qed.
End Monad.

(** One step at a time, keeping the calls that need an argument. *)
Ltac mstep :=
  repeat (progress (rewrite ?bind_gets, ?bind_modify, ?bind_ret; cbv zeta)).

(** Running the straight-line part of a method. *)
Ltac mrun :=
  cbv beta delta [bind ret gets modify when negb] iota;
  cbn [fst snd].

(** *** Strings *)

Section Strings.
Import JS Rules.

Lemma startsWith_spec s t :
  startsWith s t = true <-> exists post, s = t +:+ post.
Proof.
  revert s. induction t as [|c t IH]; intros s.
  - destruct s; cbn; split; eauto.
  - destruct s as [|d s]; cbn.
    + split; [discriminate | intros (post & Heq); discriminate].
    + destruct (decide (c = d)) as [->|Hne].
      * rewrite IH. split; intros (post & Heq); exists post.
        -- change (String d s = String d (t +:+ post)). by rewrite Heq.
        -- change (String d s = String d (t +:+ post)) in Heq. congruence.
      * split; [discriminate|]. intros (post & Heq).
        change (String d s = String c (t +:+ post)) in Heq. congruence.
Qed.

Lemma includes_spec s t : includes s t = true <-> Substring t s.
Proof.
  unfold Substring. induction s as [|d s IH].
  - cbn [includes]. rewrite orb_false_r, startsWith_spec. split.
    + intros (post & Heq). exists "", post. exact Heq.
    + intros (pre & post & Heq). destruct pre; [eauto | discriminate].
  - cbn [includes]. rewrite orb_true_iff, startsWith_spec, IH. split.
    + intros [(post & Heq) | (pre & post & Heq)].
      * exists "", post. exact Heq.
      * exists (String d pre), post.
        change (String d s = String d (pre +:+ t +:+ post)). by rewrite Heq.
    + intros (pre & post & Heq). destruct pre as [|d' pre].
      * left. eauto.
      * right. exists pre, post.
        change (String d s = String d' (pre +:+ t +:+ post)) in Heq. congruence.
Qed.

Lemma some_included_spec types s :
  some_included types s = true <-> matches_any types s.
Proof.
  unfold some_included, matches_any. rewrite existsb_exists.
  split; intros (t & Hin & Hsub); exists t.
  - rewrite <- includes_spec. split; [by apply list_elem_of_In | done].
  - rewrite includes_spec. split; [by apply list_elem_of_In | done].
Qed.

Lemma some_included_false types s :
  some_included types s = false <-> ~ matches_any types s.
Proof. rewrite <- some_included_spec. destruct (some_included types s); naive_solver. Qed.

Lemma Function_or_ArrayBuffer_spec s :
  BugSimulatorMethods.Function_or_ArrayBuffer s = true <-> Function_or_ArrayBuffer s.
Proof.
  unfold BugSimulatorMethods.Function_or_ArrayBuffer, Function_or_ArrayBuffer.
  rewrite <- some_included_spec. cbn. by rewrite orb_false_r.
Qed.
End Strings.

(** *** Insertion-ordered maps *)

Section MapLemmas.
Context {K V : Type} `{EqDecision K}.
Implicit Types (m : list (K * V)).

Lemma Map_get_elem_of k v m : JS.Map_get k m = Some v -> (k, v) ∈ m.
Proof.
  unfold JS.Map_get. induction m as [|[k' v'] m IH]; cbn; [discriminate|].
  case_bool_decide; cbn in *.
  - intros [= <-]. subst. left.
  - intros Hm. right. auto.
Qed.

Lemma elem_of_Map_get k v m :
  NoDup (fst <$> m) -> (k, v) ∈ m -> JS.Map_get k m = Some v.
Proof.
  unfold JS.Map_get. induction m as [|[k' v'] m IH]; cbn.
  - intros _ Hin. by apply elem_of_nil in Hin.
  - intros Hnd Hin. apply NoDup_cons in Hnd as [Hk' Hnd].
    apply elem_of_cons in Hin as [[= -> ->]|Hin].
    + by rewrite bool_decide_eq_true_2.
    + rewrite bool_decide_eq_false_2; [by apply IH|].
      intros ->. apply Hk'. apply list_elem_of_fmap. by exists (k, v).
Qed.

Lemma Map_set_fresh k v m : k ∉ (fst <$> m) -> JS.Map_set k v m = m ++ [(k, v)].
Proof.
  induction m as [|[k' v'] m IH]; cbn; [done|].
  rewrite not_elem_of_cons. intros [Hne Hk].
  destruct (decide (k' = k)); [congruence|]. by rewrite IH.
Qed.

End MapLemmas.

(** *** The tracker *)

Section Tracker.
Import HeapAnalyzer Invariant.

Lemma deref_Some r h a h' :
  deref r h = Some (a, h') <-> objects h !! r = Some a /\ h' = h.
Proof.
  unfold deref. destruct (objects h !! r); split.
  - intros [= <- <-]. auto.
  - intros [[= <-] ->]. reflexivity.
  - discriminate.
  - intros [[=] _].
Qed.

Lemma deref_all_Some rs h es h' :
  deref_all rs h = Some (es, h') ->
  h' = h /\ fst <$> es = rs /\
  Forall (fun e => objects h !! fst e = Some (snd e)) es.
Proof.
  revert es h'. induction rs as [|r rs IH]; intros es h'; cbn [deref_all].
  - intros [= <- <-]. auto.
  - intros Hrun. apply bind_Some in Hrun as (a & h1 & Hd & Hrun).
    apply deref_Some in Hd as [Ha ->].
    apply bind_Some in Hrun as (rest & h2 & Hrest & Hret).
    apply IH in Hrest as (-> & Hfst & Hall).
    injection Hret as <- <-. cbn. rewrite Hfst. auto.
Qed.

Lemma deref_all_valid rs h :
  (forall r, r ∈ rs -> is_Some (objects h !! r)) ->
  exists es, deref_all rs h = Some (es, h).
Proof.
  induction rs as [|r rs IH]; intros Hvalid; cbn [deref_all].
  - eexists. reflexivity.
  - destruct (Hvalid r) as [a Ha]; [left|].
    destruct IH as [es Hes]; [intros r' Hr'; apply Hvalid; by right|].
    exists ((r, a) :: es).
    erewrite bind_run by (apply deref_Some; eauto).
    erewrite bind_run by eassumption. reflexivity.
Qed.

Lemma deref_all_elem_of rs h es r a :
  deref_all rs h = Some (es, h) ->
  (r, a) ∈ es <-> r ∈ rs /\ objects h !! r = Some a.
Proof.
  intros Hrun. apply deref_all_Some in Hrun as (_ & <- & Hall).
  rewrite Forall_forall in Hall. split.
  - intros Hin. split; [apply list_elem_of_fmap; by exists (r, a)|].
    by apply (Hall (r, a)).
  - intros [Hin Ha]. apply list_elem_of_fmap in Hin as ([r' a'] & -> & Hin).
    assert (objects h !! r' = Some a') as Ha' by (by apply (Hall (r', a'))).
    cbn in Ha. by simplify_eq.
Qed.

Lemma recordDeallocation_unknown h now id :
  JS.Map_get id (allocations h) = None ->
  recordDeallocation now id h = Some (Some (deallocate_unknown_ID id), h).
Proof. intros Hget. unfold recordDeallocation. mrun. by rewrite Hget. Qed.

Lemma recordDeallocation_known h now id r a :
  JS.Map_get id (allocations h) = Some r -> objects h !! r = Some a ->
  recordDeallocation now id h = Some (None, freed_state h now r a).
Proof.
  intros Hget Ha. unfold recordDeallocation. mrun. rewrite Hget.
  unfold update, deref. mrun. rewrite Ha. cbn.
  unfold freed_state, set_stats, set_timeline, set_objects, add_deallocation. cbn.
  do 3 f_equal. rewrite list_insert_alter.
  apply list_alter_ext; [|done]. intros x Hx. by simplify_eq.
Qed.

Lemma recordAllocation_run h now size type metadata :
  recordAllocation now size type metadata h
  = Some (nextId h, allocated_state h now size type metadata).
Proof.
  unfold recordAllocation, new_object, allocated_state. mrun.
  set (b := findBucketForSize size). set (r := length (objects h)).
  assert (alter (fun arr => arr ++ [r]) b
            (if bool_decide (is_Some (buckets h !! b))
             then buckets h else <[b := []]> (buckets h))
          = <[b := default [] (buckets h !! b) ++ [r]]> (buckets h)) as Hbuckets.
  { apply map_eq; intros b'. rewrite lookup_alter, lookup_insert.
    destruct (buckets h !! b) as [bucketed|] eqn:Hb.
    - rewrite bool_decide_eq_true_2 by eauto.
      case_decide; subst; by rewrite ?Hb.
    - rewrite bool_decide_eq_false_2 by (by intros [? ?]).
      case_decide; subst.
      * by rewrite lookup_insert_eq.
      * by rewrite lookup_insert_ne. }
  unfold set_stats, set_timeline, set_buckets, set_allocations, set_objects, set_nextId.
  cbn [objects allocations buckets timeline nextId detectedBucketSizes stats].
  destruct (bool_decide (is_Some (buckets h !! b)));
    cbn [objects allocations buckets timeline nextId detectedBucketSizes stats];
    (destruct (_ <? _);
     cbn [objects allocations buckets timeline nextId detectedBucketSizes stats];
     rewrite <- Hbuckets; reflexivity).
Qed.

Lemma recordBug_run h now sourceId bugType details :
  recordBug now sourceId bugType details h
  = if JS.Map_has sourceId (allocations h)
    then Some (None, set_timeline
                 (fun tl => tl ++ [bug_event now sourceId bugType details]) h)
    else Some (Some (record_bug_for_unknown_ID sourceId), h).
Proof. unfold recordBug. mrun. by destruct (JS.Map_has _ _). Qed.

Lemma reset_run h :
  reset h = Some (tt, mk (objects h) [] ∅ [] 1 (detectedBucketSizes h) zero_stats).
Proof. reflexivity. Qed.
End Tracker.

(** *** The invariant holds in every state the tracker reaches *)

Section Preservation.
Import HeapAnalyzer Invariant API.

Lemma wf_new : wf HeapAnalyzer.new.
Proof.
  split; cbn.
  - constructor.
  - intros id r Hin. by apply elem_of_nil in Hin.
  - intros b bucketed Hb. by rewrite lookup_empty in Hb.
  - intros r a Ha. by rewrite lookup_nil in Ha.
Qed.

Lemma wf_bucket_ref h b bucketed r :
  wf h -> buckets h !! b = Some bucketed -> r ∈ bucketed ->
  (r < length (objects h))%nat.
Proof.
  intros Hwf Hb Hin. destruct (wf_bucket h Hwf b bucketed Hb) as [_ Hmem].
  destruct (Hmem r Hin) as (a & Ha & _). by apply lookup_lt_Some in Ha.
Qed.

Lemma wf_nextId_fresh h : wf h -> nextId h ∉ (fst <$> allocations h).
Proof.
  intros Hwf Hin. apply list_elem_of_fmap in Hin as ([id r] & Heq & Hin).
  cbn in Heq. subst id.
  destruct (wf_alloc h Hwf _ r Hin) as (a & _ & _ & Hlt & _). lia.
Qed.

Lemma wf_allocated_state h now size type metadata :
  wf h -> wf (allocated_state h now size type metadata).
Proof.
  intros Hwf. pose proof (wf_nextId_fresh h Hwf) as Hfresh.
  unfold allocated_state.
  set (r := length (objects h)). set (b := findBucketForSize size).
  set (new_alloc := Allocation.mk _ _ _ _ _ _ _).
  assert (forall bucketed, buckets h !! b = Some bucketed -> r ∉ bucketed) as Hr.
  { intros bucketed Hb Hin.
    pose proof (wf_bucket_ref h b bucketed r Hwf Hb Hin). unfold r in *. lia. }
  assert (NoDup (default [] (buckets h !! b) ++ [r])) as Hnodup.
  { destruct (buckets h !! b) as [bucketed|] eqn:Hb; cbn.
    - apply NoDup_app. split; [by apply (wf_bucket h Hwf b)|].
      split; [|apply NoDup_singleton].
      intros x Hx ->%list_elem_of_singleton. by apply (Hr bucketed).
    - apply NoDup_singleton. }
  split; cbn [objects allocations buckets nextId];
    rewrite ?(Map_set_fresh _ _ _ Hfresh).
  - rewrite fmap_app. cbn. apply NoDup_app. split; [apply (wf_keys h Hwf)|].
    split; [|apply NoDup_singleton].
    intros x Hx ->%list_elem_of_singleton. by apply Hfresh.
  - intros id r' Hin. apply elem_of_app in Hin as [Hin|Hin].
    + destruct (wf_alloc h Hwf id r' Hin) as (a & Ha & Hid & Hlt & bucketed & Hb & Hmem).
      exists a. split; [by apply lookup_app_l_Some|].
      split; [done|]. split; [lia|].
      destruct (decide (findBucketForSize (Allocation.size a) = b)) as [Heq|Hne].
      * exists (bucketed ++ [r]). rewrite Heq in *. rewrite lookup_insert_eq, Hb. cbn.
        split; [done|]. apply elem_of_app. by left.
      * exists bucketed. by rewrite lookup_insert_ne.
    + apply list_elem_of_singleton in Hin as [= -> ->].
      exists new_alloc. split; [apply list_lookup_middle; done|].
      split; [done|]. split; [lia|].
      eexists. cbn. rewrite lookup_insert_eq. split; [done|].
      apply elem_of_app. right. by left.
  - intros b' bucketed' Hb'.
    assert (forall r', r' ∈ default [] (buckets h !! b) ->
              exists a, objects h !! r' = Some a /\ (Allocation.id a, r') ∈ allocations h)
      as Hold.
    { destruct (buckets h !! b) as [bucketed|] eqn:Hb; cbn.
      - by apply (wf_bucket h Hwf b).
      - intros r' Hin. by apply elem_of_nil in Hin. }
    destruct (decide (b = b')) as [<-|Hne].
    + rewrite lookup_insert_eq in Hb'. injection Hb' as <-. split; [done|].
      intros r' Hin. apply elem_of_app in Hin as [Hin|Hin].
      * destruct (Hold r' Hin) as (a & Ha & Hmem).
        exists a. split; [by apply lookup_app_l_Some|]. apply elem_of_app. by left.
      * apply list_elem_of_singleton in Hin as ->.
        exists new_alloc. split; [apply list_lookup_middle; done|].
        apply elem_of_app. right. by left.
    + rewrite lookup_insert_ne in Hb' by done.
      destruct (wf_bucket h Hwf b' bucketed' Hb') as [Hnd Hmem]. split; [done|].
      intros r' Hin. destruct (Hmem r' Hin) as (a & Ha & Htable).
      exists a. split; [by apply lookup_app_l_Some|]. apply elem_of_app. by left.
  - intros r' a Ha Hfreed. apply lookup_app_Some in Ha as [Ha|[_ Ha]].
    + by apply (wf_freed h Hwf r' a).
    + apply list_lookup_singleton_Some in Ha as [_ <-]. discriminate.
Qed.

Lemma wf_freed_state h now r a :
  wf h -> objects h !! r = Some a -> wf (freed_state h now r a).
Proof.
  intros Hwf Hobj. pose proof (lookup_lt_Some _ _ _ Hobj) as Hlen.
  assert (forall r' a', objects h !! r' = Some a' ->
            exists a'', <[r := Allocation.set_freed now a]> (objects h) !! r' = Some a'' /\
              Allocation.id a'' = Allocation.id a' /\
              Allocation.size a'' = Allocation.size a') as Hkeep.
  { intros r' a' Ha'. destruct (decide (r = r')) as [<-|Hne].
    - rewrite list_lookup_insert_eq by done. simplify_eq. eauto.
    - rewrite list_lookup_insert_ne by done. eauto. }
  split; cbn [freed_state objects allocations buckets nextId].
  - apply (wf_keys h Hwf).
  - intros id r' Hin.
    destruct (wf_alloc h Hwf id r' Hin) as (a' & Ha' & Hid & Hlt & bucketed & Hb & Hmem).
    destruct (Hkeep r' a' Ha') as (a'' & Ha'' & Hid'' & Hsize'').
    exists a''. rewrite Hid'', Hsize''. eauto 10.
  - intros b bucketed Hb. destruct (wf_bucket h Hwf b bucketed Hb) as [Hnd Hmem].
    split; [done|]. intros r' Hin. destruct (Hmem r' Hin) as (a' & Ha' & Htable).
    destruct (Hkeep r' a' Ha') as (a'' & Ha'' & Hid'' & _).
    exists a''. by rewrite Hid''.
  - intros r' a' Ha' Hfreed. destruct (decide (r = r')) as [<-|Hne].
    + rewrite list_lookup_insert_eq in Ha' by done. injection Ha' as <-. cbn. eauto.
    + rewrite list_lookup_insert_ne in Ha' by done. by apply (wf_freed h Hwf r' a').
Qed.

(** The invariant does not look at the timeline or the counters. *)
Lemma wf_same_tables h h' :
  objects h' = objects h -> allocations h' = allocations h ->
  buckets h' = buckets h -> nextId h' = nextId h -> wf h -> wf h'.
Proof.
  intros Ho Ha Hb Hn [Hkeys Halloc Hbucket Hfreed].
  split; rewrite ?Ho, ?Ha, ?Hb, ?Hn; assumption.
Qed.

Lemma wf_recordDeallocation h now id w h' :
  wf h -> recordDeallocation now id h = Some (w, h') -> wf h'.
Proof.
  intros Hwf Hrun. destruct (JS.Map_get id (allocations h)) as [r|] eqn:Hget.
  - destruct (wf_alloc h Hwf id r (Map_get_elem_of _ _ _ Hget)) as (a & Ha & _).
    rewrite (recordDeallocation_known h now id r a Hget Ha) in Hrun.
    injection Hrun as _ <-. by apply wf_freed_state.
  - rewrite (recordDeallocation_unknown h now id Hget) in Hrun. by injection Hrun as _ <-.
Qed.

Lemma wf_recordBug h now sourceId bugType details w h' :
  wf h -> recordBug now sourceId bugType details h = Some (w, h') -> wf h'.
Proof.
  intros Hwf Hrun. rewrite recordBug_run in Hrun.
  destruct (JS.Map_has _ _); injection Hrun as _ <-; [|done].
  by apply (wf_same_tables h).
Qed.

Lemma wf_reset h u h' : wf h -> reset h = Some (u, h') -> wf h'.
Proof.
  intros Hwf Hrun. rewrite reset_run in Hrun. injection Hrun as _ <-.
  split; cbn.
  - constructor.
  - intros id r Hin. by apply elem_of_nil in Hin.
  - intros b bucketed Hb. by rewrite lookup_empty in Hb.
  - apply (wf_freed h Hwf).
Qed.

Lemma wf_run_analyzer c h h' : wf h -> run_analyzer c h = Some (tt, h') -> wf h'.
Proof.
  intros Hwf Hrun. destruct c; cbn [run_analyzer] in Hrun.
  - apply bind_Some in Hrun as (id & h1 & Hrun & Hret). injection Hret as <-.
    rewrite recordAllocation_run in Hrun. injection Hrun as _ <-.
    by apply wf_allocated_state.
  - apply bind_Some in Hrun as (w & h1 & Hrun & Hret). injection Hret as <-.
    by eapply wf_recordDeallocation.
  - apply bind_Some in Hrun as (w & h1 & Hrun & Hret). injection Hret as <-.
    by eapply wf_recordBug.
  - by eapply wf_reset.
Qed.

Lemma analyzer_reachable_wf h : analyzer_reachable h -> wf h.
Proof.
  induction 1 as [|c h h' _ IH Hrun]; [apply wf_new | by eapply wf_run_analyzer].
Qed.

Lemma analyzer_step_reachable c h :
  analyzer_reachable h -> analyzer_reachable (step (run_analyzer c) h).
Proof.
  intros Hh. unfold step. destruct (run_analyzer c h) as [[[] h']|] eqn:Hrun; [|done].
  by eapply analyzer_call.
Qed.

Lemma analyzer_after_reachable cs : analyzer_reachable (analyzer_after cs).
Proof.
  unfold analyzer_after. generalize analyzer_new. generalize HeapAnalyzer.new.
  induction cs as [|c cs IH]; intros h Hh; cbn; [done|].
  apply IH. by apply analyzer_step_reachable.
Qed.
End Preservation.

(** *** Adjacency *)

Section Adjacency.
Import HeapAnalyzer Invariant API Rules.

Lemma findIndex_unique {A} (p : A -> bool) (l : list A) i x :
  l !! i = Some x -> p x = true ->
  (forall j y, l !! j = Some y -> p y = true -> j = i) ->
  JS.findIndex p l = Some i.
Proof.
  revert i. induction l as [|y l IH]; intros i Hi Hp Huniq; [done|].
  cbn [JS.findIndex]. destruct (p y) eqn:Hy.
  - f_equal. by apply (Huniq 0%nat y).
  - destruct i as [|i]; cbn in Hi; [congruence|].
    rewrite (IH i Hi Hp); [done|].
    intros j z Hj Hz. by pose proof (Huniq (S j) z Hj Hz) as [= ->].
Qed.

Lemma findAdjacentAllocations_unknown h id :
  JS.Map_get id (allocations h) = None ->
  findAdjacentAllocations id h = Some (mkAdjacent None None, h).
Proof. intros Hget. unfold findAdjacentAllocations. mrun. by rewrite Hget. Qed.

Lemma findAdjacentAllocations_wf h id r :
  wf h -> JS.Map_get id (allocations h) = Some r ->
  exists a bucketed i,
    objects h !! r = Some a /\ Allocation.id a = id /\
    buckets h !! findBucketForSize (Allocation.size a) = Some bucketed /\
    bucketed !! i = Some r /\
    (forall j, bucketed !! j = Some r -> j = i) /\
    findAdjacentAllocations id h = Some (neighbours bucketed i, h).
Proof.
  intros Hwf Hget.
  destruct (wf_alloc h Hwf id r (Map_get_elem_of _ _ _ Hget))
    as (a & Ha & Hid & _ & bucketed & Hb & Hmem).
  destruct (wf_bucket h Hwf _ bucketed Hb) as [Hnd Hmembers].
  apply list_elem_of_lookup in Hmem as [i Hi].
  exists a, bucketed, i. do 4 (split; [done|]).
  split; [intros j Hj; by apply (NoDup_lookup bucketed j i r)|].
  destruct (deref_all_valid bucketed h) as [entries Hentries].
  { intros r' Hr'. destruct (Hmembers r' Hr') as (a' & -> & _). eauto. }
  pose proof (deref_all_Some _ _ _ _ Hentries) as (_ & Hfst & Hall).
  rewrite Forall_lookup in Hall.
  assert (entries !! i = Some (r, a)) as Hei.
  { rewrite <- Hfst, list_lookup_fmap in Hi.
    destruct (entries !! i) as [[r' a']|] eqn:He; [|done].
    cbn in Hi. injection Hi as ->. specialize (Hall i _ He). cbn in Hall.
    by simplify_eq. }
  unfold findAdjacentAllocations. mstep. rewrite Hget.
  erewrite bind_run by (apply deref_Some; eauto). mstep. rewrite Hb. cbn [default].
  erewrite bind_run by eassumption.
  erewrite findIndex_unique; [|exact Hei|cbn; by apply bool_decide_eq_true_2|].
  - change (Datatypes.id bucketed) with bucketed. unfold neighbours, ret.
    do 3 f_equal.
    + destruct i as [|i]; [done|]. rewrite decide_True by lia.
      f_equal. lia.
    + case_decide as Hlt; [f_equal; lia|].
      symmetry. apply lookup_ge_None. lia.
  - intros j [r' a'] Hj Hp. cbn in Hp. apply bool_decide_eq_true_1 in Hp.
    assert (bucketed !! j = Some r') as Hbj
      by (by rewrite <- Hfst, list_lookup_fmap, Hj).
    specialize (Hall j _ Hj). cbn in Hall.
    destruct (Hmembers r') as (a'' & Ha'' & Htable);
      [by eapply list_elem_of_lookup_2|].
    rewrite Hall in Ha''. injection Ha'' as <-. rewrite Hp in Htable.
    pose proof (elem_of_Map_get _ _ _ (wf_keys h Hwf) Htable) as Hget'.
    rewrite Hget in Hget'. injection Hget' as <-.
    by apply (NoDup_lookup bucketed j i r).
Qed.

Lemma findAdjacentAllocations_after_free h id r now id' w h' :
  wf h -> JS.Map_get id (allocations h) = Some r ->
  recordDeallocation now id' h = Some (w, h') ->
  fst <$> findAdjacentAllocations id h' = fst <$> findAdjacentAllocations id h.
Proof.
  intros Hwf Hget Hrun.
  destruct (JS.Map_get id' (allocations h)) as [r'|] eqn:Hget'.
  - destruct (wf_alloc h Hwf id' r' (Map_get_elem_of _ _ _ Hget')) as (a' & Ha' & _).
    rewrite (recordDeallocation_known h now id' r' a' Hget' Ha') in Hrun.
    injection Hrun as _ <-.
    pose proof (wf_freed_state h now r' a' Hwf Ha') as Hwf'.
    destruct (findAdjacentAllocations_wf h id r Hwf Hget)
      as (a & bucketed & i & Ha & _ & Hb & Hi & _ & ->).
    destruct (findAdjacentAllocations_wf (freed_state h now r' a') id r Hwf' Hget)
      as (a2 & bucketed2 & i2 & Ha2 & _ & Hb2 & Hi2 & Huniq2 & ->).
    cbn [freed_state objects buckets] in Ha2, Hb2.
    assert (Allocation.size a2 = Allocation.size a) as Hsize.
    { destruct (decide (r' = r)) as [->|Hne].
      - rewrite list_lookup_insert_eq in Ha2 by (by eapply lookup_lt_Some).
        by simplify_eq.
      - rewrite list_lookup_insert_ne in Ha2 by done. by simplify_eq. }
    rewrite Hsize, Hb in Hb2. injection Hb2 as <-.
    by rewrite (Huniq2 i Hi).
  - rewrite (recordDeallocation_unknown h now id' Hget') in Hrun.
    by injection Hrun as _ <-.
Qed.
End Adjacency.

(** *** The tracker: claims *)

Section TrackerClaims.
Import HeapAnalyzer Invariant API Rules.

(** C5: [recordDeallocation] on an id that is not in the allocation table
    reports it and changes nothing; on a known id it marks the record freed,
    sets [freedAt], appends a deallocation event, counts one more
    deallocation and one live allocation less, whatever the status of the
    record was, so that a second call sets [freedAt] again and counts
    twice. *)
Theorem recordDeallocation_spec (h : HeapAnalyzer.t) (now id : Z) :
  (JS.Map_get id (allocations h) = None ->
   recordDeallocation now id h = Some (Some (deallocate_unknown_ID id), h)) /\
  (forall r a,
     JS.Map_get id (allocations h) = Some r -> objects h !! r = Some a ->
     exists h',
       recordDeallocation now id h = Some (None, h') /\
       objects h' !! r =
         Some (Allocation.mk (Allocation.id a) (Allocation.size a) (Allocation.type a)
                 (Allocation.timestamp a) (Allocation.metadata a)
                 Allocation.freed (Some now)) /\
       (forall r', r' <> r -> objects h' !! r' = objects h !! r') /\
       allocations h' = allocations h /\ buckets h' = buckets h /\
       nextId h' = nextId h /\
       timeline h' = timeline h ++ [deallocation_event now r] /\
       totalAllocations (stats h') = totalAllocations (stats h) /\
       maxLiveAllocations (stats h') = maxLiveAllocations (stats h) /\
       totalDeallocations (stats h') = totalDeallocations (stats h) + 1 /\
       currentLiveAllocations (stats h') = currentLiveAllocations (stats h) - 1 /\
       forall now2, exists h'',
         recordDeallocation now2 id h' = Some (None, h'') /\
         Allocation.status <$> objects h'' !! r = Some Allocation.freed /\
         Allocation.freedAt <$> objects h'' !! r = Some (Some now2) /\
         timeline h'' =
           timeline h ++ [deallocation_event now r; deallocation_event now2 r] /\
         totalDeallocations (stats h'') = totalDeallocations (stats h) + 2 /\
         currentLiveAllocations (stats h'') = currentLiveAllocations (stats h) - 2).
Proof.
  split; [apply recordDeallocation_unknown|].
  intros r a Hget Ha. pose proof (lookup_lt_Some _ _ _ Ha) as Hlen.
  exists (freed_state h now r a).
  split; [by apply recordDeallocation_known|].
  cbn [freed_state objects allocations buckets nextId timeline stats
       totalAllocations maxLiveAllocations totalDeallocations currentLiveAllocations].
  split; [by apply list_lookup_insert_eq|].
  split; [intros r' Hne; by apply list_lookup_insert_ne|].
  do 8 (split; [reflexivity|]).
  intros now2.
  exists (freed_state (freed_state h now r a) now2 r (Allocation.set_freed now a)).
  split.
  { apply recordDeallocation_known; [exact Hget|]. by apply list_lookup_insert_eq. }
  cbn [freed_state objects allocations buckets nextId timeline stats
       totalAllocations maxLiveAllocations totalDeallocations currentLiveAllocations].
  rewrite list_lookup_insert_eq by (by rewrite length_insert).
  rewrite <- app_assoc. cbn. repeat split; lia.
Qed.

Lemma recordDeallocation_spec_witness :
  let h := analyzer_after [RecordAllocation 10 64 "Foo" []] in
  exists h',
    recordDeallocation 11 1 h = Some (None, h') /\
    Allocation.status <$> objects h' !! 0%nat = Some Allocation.freed /\
    currentLiveAllocations (stats h') = 0.
Proof.
  intros h.
  destruct (proj2 (recordDeallocation_spec h 11 1) 0%nat
              (Allocation.mk 1 64 "Foo" 10 [] Allocation.allocated None)
              eq_refl eq_refl)
    as (h' & Hrun & Hobj & _ & _ & _ & _ & _ & _ & _ & _ & Hlive & _).
  exists h'. split; [exact Hrun|]. split; [by rewrite Hobj|]. exact Hlive.
Defined.

(** C6: for an id of the allocation table, [findAdjacentAllocations] returns
    the entries just before and just after the position of its record in
    the array of its bucket, [null] at either end, whatever the status of
    any record; and after [recordAllocation (64, "Foo")] and
    [recordAllocation (64, "Bar")] on a new tracker the first record has the
    second as [next] and the second has the first as [prev]. *)
Theorem findAdjacentAllocations_structural :
  (forall h id r,
     analyzer_reachable h -> JS.Map_get id (allocations h) = Some r ->
     exists a bucketed i,
       objects h !! r = Some a /\ Allocation.id a = id /\
       buckets h !! findBucketForSize (Allocation.size a) = Some bucketed /\
       bucketed !! i = Some r /\
       (forall j, bucketed !! j = Some r -> j = i) /\
       findAdjacentAllocations id h = Some (neighbours bucketed i, h) /\
       forall now id' w h',
         recordDeallocation now id' h = Some (w, h') ->
         fst <$> findAdjacentAllocations id h' = Some (neighbours bucketed i)) /\
  (forall now1 now2 metadata1 metadata2,
     exists h r1 r2,
       (first <- recordAllocation now1 64 "Foo" metadata1 ;;
        second <- recordAllocation now2 64 "Bar" metadata2 ;;
        ret (first, second)) HeapAnalyzer.new = Some ((1, 2), h) /\
       JS.Map_get 1 (allocations h) = Some r1 /\
       JS.Map_get 2 (allocations h) = Some r2 /\
       next <$> (fst <$> findAdjacentAllocations 1 h) = Some (Some r2) /\
       prev <$> (fst <$> findAdjacentAllocations 2 h) = Some (Some r1)).
Proof.
  split.
  - intros h id r Hreach Hget. apply analyzer_reachable_wf in Hreach as Hwf.
    destruct (findAdjacentAllocations_wf h id r Hwf Hget)
      as (a & bucketed & i & Ha & Hid & Hb & Hi & Huniq & Hrun).
    exists a, bucketed, i. do 5 (split; [done|]). split; [done|].
    intros now id' w h' Hfree.
    rewrite (findAdjacentAllocations_after_free h id r now id' w h' Hwf Hget Hfree).
    by rewrite Hrun.
  - intros now1 now2 metadata1 metadata2.
    exists (allocated_state (allocated_state HeapAnalyzer.new now1 64 "Foo" metadata1)
              now2 64 "Bar" metadata2), 0%nat, 1%nat.
    repeat split; vm_compute; reflexivity.
Qed.

Lemma findAdjacentAllocations_structural_witness :
  let h := analyzer_after
    [RecordAllocation 10 64 "Foo" []; RecordAllocation 11 64 "Bar" [];
     RecordAllocation 12 60 "Baz" []; RecordDeallocation 13 2] in
  exists a bucketed i,
    objects h !! 1%nat = Some a /\ Allocation.id a = 2 /\
    buckets h !! findBucketForSize (Allocation.size a) = Some bucketed /\
    bucketed !! i = Some 1%nat /\
    (forall j, bucketed !! j = Some 1%nat -> j = i) /\
    findAdjacentAllocations 2 h = Some (neighbours bucketed i, h) /\
    forall now id' w h',
      recordDeallocation now id' h = Some (w, h') ->
      fst <$> findAdjacentAllocations 2 h' = Some (neighbours bucketed i).
Proof.
  intros h.
  apply (proj1 findAdjacentAllocations_structural h 2 1%nat).
  - apply analyzer_after_reachable.
  - reflexivity.
Defined.

(** C8: [reset] empties the allocation table, the buckets and the timeline,
    zeroes the counters and puts the id counter back to 1, so the next
    [recordAllocation] returns 1, and [generateBucketStats] and
    [generateTypeStats] are empty. *)
Theorem reset_spec (h : HeapAnalyzer.t) :
  exists h0,
    reset h = Some (tt, h0) /\
    allocations h0 = [] /\ buckets h0 = ∅ /\ timeline h0 = [] /\
    stats h0 = mkStats 0 0 0 0 /\
    nextId h0 = nextId HeapAnalyzer.new /\
    (forall now size type metadata,
       fst <$> recordAllocation now size type metadata h0 = Some 1) /\
    generateBucketStats h0 = Some (∅, h0) /\
    generateTypeStats h0 = Some (∅, h0).
Proof.
  eexists. split; [apply reset_run|].
  do 5 (split; [reflexivity|]).
  split; [intros; by rewrite recordAllocation_run|].
  split; [|reflexivity].
  unfold generateBucketStats. mstep. cbn [buckets]. by rewrite map_to_list_empty.
Qed.

(** C9: for an id that is not in the allocation table,
    [findAdjacentAllocations] returns [{ prev: null, next: null }] and
    leaves the tracker as it is. *)
Theorem findAdjacentAllocations_unknown_id (h : HeapAnalyzer.t) (id : Z) :
  JS.Map_get id (allocations h) = None ->
  findAdjacentAllocations id h = Some (mkAdjacent None None, h).
Proof. apply findAdjacentAllocations_unknown. Qed.

Lemma findAdjacentAllocations_unknown_id_witness :
  let h := analyzer_after [RecordAllocation 10 64 "Foo" []] in
  findAdjacentAllocations 7 h = Some (mkAdjacent None None, h).
Proof.
  intros h. apply (findAdjacentAllocations_unknown_id h 7). reflexivity.
Defined.

(** C10: [recordDeallocation] on a record that is already freed takes one
    more off the live counter, sets [freedAt] again and counts the
    deallocation again; after one allocation and two deallocations of its id
    the live counter is -1, below the number of live records. *)
Theorem recordDeallocation_twice_negative :
  (forall h now id r a,
     JS.Map_get id (allocations h) = Some r -> objects h !! r = Some a ->
     Allocation.status a = Allocation.freed ->
     exists h',
       recordDeallocation now id h = Some (None, h') /\
       currentLiveAllocations (stats h') = currentLiveAllocations (stats h) - 1 /\
       totalDeallocations (stats h') = totalDeallocations (stats h) + 1 /\
       Allocation.freedAt <$> objects h' !! r = Some (Some now)) /\
  (forall now now1 now2 metadata,
     exists h live,
       (id <- recordAllocation now 64 "Foo" metadata ;;
        recordDeallocation now1 id ;;
        recordDeallocation now2 id ;;
        getActiveAllocations) HeapAnalyzer.new = Some (live, h) /\
       currentLiveAllocations (stats h) = -1 /\
       currentLiveAllocations (stats h) < 0 <= Z.of_nat (length live)).
Proof.
  split.
  - intros h now id r a Hget Ha _.
    exists (freed_state h now r a).
    split; [by apply recordDeallocation_known|].
    cbn [freed_state objects stats currentLiveAllocations totalDeallocations].
    do 2 (split; [reflexivity|]).
    rewrite list_lookup_insert_eq by (by eapply lookup_lt_Some). reflexivity.
  - intros now now1 now2 metadata.
    set (h1 := allocated_state HeapAnalyzer.new now 64 "Foo" metadata).
    set (a1 := Allocation.mk 1 64 "Foo" now metadata Allocation.allocated None).
    set (h2 := freed_state h1 now1 0%nat a1).
    exists (freed_state h2 now2 0%nat (Allocation.set_freed now1 a1)), [].
    split; [vm_compute; reflexivity|].
    split; [vm_compute; reflexivity|]. vm_compute. split; [reflexivity | discriminate].
Qed.

Lemma recordDeallocation_twice_negative_witness :
  let h := analyzer_after [RecordAllocation 10 64 "Foo" []; RecordDeallocation 11 1] in
  exists h',
    recordDeallocation 12 1 h = Some (None, h') /\
    currentLiveAllocations (stats h') = currentLiveAllocations (stats h) - 1 /\
    totalDeallocations (stats h') = totalDeallocations (stats h) + 1 /\
    Allocation.freedAt <$> objects h' !! 0%nat = Some (Some 12).
Proof.
  intros h.
  apply (proj1 recordDeallocation_twice_negative h 12 1 0%nat
           (Allocation.mk 1 64 "Foo" 10 [] Allocation.freed (Some 11)));
    reflexivity.
Defined.
End TrackerClaims.

(** *** The simulator *)

Section Simulator.
Import HeapAnalyzer BugSimulator Toolkit BugSimulatorMethods Invariant API Rules.

Lemma on_analyzer_run {A B} (m : M HeapAnalyzer.t A) (k : A -> M Toolkit.t B) h b a h' :
  m h = Some (a, h') ->
  bind (on_analyzer m) k (Toolkit.mk h b) = k a (Toolkit.mk h' b).
Proof. intros Hm. unfold bind, on_analyzer. cbn. by rewrite Hm. Qed.

Lemma elem_of_List_filter {A} (f : A -> bool) (l : list A) x :
  x ∈ List.filter f l <-> x ∈ l /\ f x = true.
Proof. by rewrite !list_elem_of_In, filter_In. Qed.

Lemma fresh_bugId_run {B} (k : Z -> M Toolkit.t B) h b :
  bind fresh_bugId k (Toolkit.mk h b)
  = k (nextBugId b) (Toolkit.mk h (BugSimulator.mk (activeBugs b) (nextBugId b + 1))).
Proof. reflexivity. Qed.

Lemma wf_deref_table h aid r :
  wf h -> JS.Map_get aid (allocations h) = Some r ->
  exists a, objects h !! r = Some a /\ Allocation.id a = aid.
Proof.
  intros Hwf Hget.
  destruct (wf_alloc h Hwf aid r (Map_get_elem_of _ _ _ Hget)) as (a & Ha & Hid & _).
  eauto.
Qed.

Lemma Map_has_true {V} k (m : list (Z * V)) v :
  JS.Map_get k m = Some v -> JS.Map_has k m = true.
Proof. intros Hget. unfold JS.Map_has. rewrite Hget. by apply bool_decide_eq_true_2. Qed.

Lemma deref_opt_valid h (o : option nat) :
  (forall r, o = Some r -> is_Some (objects h !! r)) ->
  exists e, deref_opt o h = Some (e, h) /\ fst <$> e = o /\
    forall r a, e = Some (r, a) -> objects h !! r = Some a.
Proof.
  intros Hvalid. destruct o as [r|]; cbn [deref_opt].
  - destruct (Hvalid r eq_refl) as [a Ha]. exists (Some (r, a)).
    erewrite bind_run by (apply deref_Some; eauto).
    split; [done|]. split; [done|]. by intros ? ? [= <- <-].
  - exists None. split; [done|]. split; [done|]. by intros.
Qed.

(** The bug that [simulateOverflow] records, and the state it leaves. *)
Lemma simulateOverflow_run h b now now_event sourceId overflowSize r src :
  wf h ->
  JS.Map_get sourceId (allocations h) = Some r -> objects h !! r = Some src ->
  Allocation.status src = Allocation.allocated ->
  exists adjacent next,
    findAdjacentAllocations sourceId h = Some (adjacent, h) /\
    fst <$> next = HeapAnalyzer.next adjacent /\
    (forall n a, next = Some (n, a) -> objects h !! n = Some a) /\
    let bug := mkBug (nextBugId b) (overflow overflowSize) sourceId r now
                 (overflow_impact src overflowSize next) in
    simulateOverflow now now_event sourceId overflowSize (Toolkit.mk h b)
    = Some (inr bug,
            Toolkit.mk
              (set_timeline (fun tl => tl ++
                 [bug_event now_event sourceId "overflow"
                    [("overflowSize", VNumber overflowSize);
                     ("impactedId", id_or_undefined next)]]) h)
              (BugSimulator.mk (<[nextBugId b := bug]> (activeBugs b))
                               (nextBugId b + 1))).
Proof.
  intros Hwf Hget Hsrc Hstatus.
  destruct (findAdjacentAllocations_wf h sourceId r Hwf Hget)
    as (a & bucketed & i & Ha & _ & Hb & _ & _ & Hadj).
  rewrite Hsrc in Ha. injection Ha as <-.
  destruct (wf_bucket h Hwf _ bucketed Hb) as [_ Hmembers].
  destruct (deref_opt_valid h (bucketed !! S i)) as (next & Hnext & Hfst & Hobj).
  { intros n Hn. destruct (Hmembers n) as (a' & -> & _); [|eauto].
    by eapply list_elem_of_lookup_2. }
  exists (neighbours bucketed i), next. do 3 (split; [done|]).
  intros bug. unfold simulateOverflow.
  erewrite on_analyzer_run by reflexivity. rewrite Hget.
  erewrite on_analyzer_run by (apply deref_Some; eauto).
  rewrite Hstatus, bool_decide_eq_true_2 by done. cbn [negb].
  rewrite fresh_bugId_run. unfold store_bug.
  erewrite on_analyzer_run by exact Hadj.
  erewrite on_analyzer_run by exact Hnext.
  erewrite on_analyzer_run
    by (rewrite recordBug_run, (Map_has_true _ _ _ Hget); reflexivity).
  reflexivity.
Qed.

(** Sorting by timestamp puts a record of least timestamp first. *)
Lemma sort_insert_elem_of {A} (cmp : A -> A -> Z) x y l :
  y ∈ JS.sort_insert cmp x l <-> y = x \/ y ∈ l.
Proof.
  induction l as [|z l IH]; cbn [JS.sort_insert].
  - rewrite list_elem_of_singleton. rewrite elem_of_nil. tauto.
  - destruct (cmp x z <=? 0).
    + by rewrite elem_of_cons.
    + rewrite !elem_of_cons, IH. tauto.
Qed.

Lemma sort_elem_of {A} (cmp : A -> A -> Z) y l : y ∈ JS.sort cmp l <-> y ∈ l.
Proof.
  induction l as [|z l IH]; cbn; [done|].
  by rewrite sort_insert_elem_of, elem_of_cons, IH.
Qed.

Lemma sort_by_timestamp_head l x rest :
  JS.sort by_timestamp l = x :: rest ->
  x ∈ l /\ forall y, y ∈ l -> Allocation.timestamp (snd x) <= Allocation.timestamp (snd y).
Proof.
  intros Hsort. split.
  { apply (sort_elem_of by_timestamp). rewrite Hsort. left. }
  revert x rest Hsort. induction l as [|z l IH]; intros x rest Hsort y Hy.
  { by apply elem_of_nil in Hy. }
  change (JS.sort by_timestamp (z :: l))
    with (JS.sort_insert by_timestamp z (JS.sort by_timestamp l)) in Hsort.
  destruct (JS.sort by_timestamp l) as [|x' rest'] eqn:Hl.
  - cbn in Hsort. injection Hsort as <- <-.
    apply elem_of_cons in Hy as [->|Hy]; [lia|].
    apply (sort_elem_of by_timestamp) in Hy. rewrite Hl in Hy.
    by apply elem_of_nil in Hy.
  - specialize (IH x' rest' eq_refl). cbn [JS.sort_insert] in Hsort.
    unfold by_timestamp in Hsort at 1.
    destruct (Z.leb_spec (Allocation.timestamp z.2 - Allocation.timestamp x'.2) 0).
    + injection Hsort as <- <-.
      apply elem_of_cons in Hy as [->|Hy]; [lia|]. specialize (IH y Hy). lia.
    + injection Hsort as <- <-.
      apply elem_of_cons in Hy as [->|Hy]; [lia|]. by apply IH.
Qed.

Lemma sort_nil {A} (cmp : A -> A -> Z) l : JS.sort cmp l = [] -> l = [].
Proof.
  intros Hsort. destruct l as [|x l]; [done|].
  assert (x ∈ JS.sort cmp (x :: l)) as Hin by (apply sort_elem_of; left).
  rewrite Hsort in Hin. by apply elem_of_nil in Hin.
Qed.

Lemma uaf_impact_reuser fa entries r :
  reusingAllocation (uaf_impact fa entries) = Some r -> r ∈ entries.*1.
Proof.
  unfold uaf_impact.
  destruct (JS.sort _ _) as [|[r' a'] rest] eqn:Hsort; cbn; [done|].
  intros [= <-]. apply sort_by_timestamp_head in Hsort as [Hin _].
  apply elem_of_List_filter in Hin as [Hin _].
  apply list_elem_of_fmap. by exists (r', a').
Qed.

(** The bug that [simulateUseAfterFree] records, and the state it leaves. *)
Lemma simulateUseAfterFree_run h b now now_event freedId r fa :
  wf h ->
  JS.Map_get freedId (allocations h) = Some r -> objects h !! r = Some fa ->
  Allocation.status fa = Allocation.freed ->
  exists bucketed entries reuser,
    buckets h !! findBucketForSize (Allocation.size fa) = Some bucketed /\
    deref_all bucketed h = Some (entries, h) /\
    fst <$> reuser = reusingAllocation (uaf_impact fa entries) /\
    let bug := mkBug (nextBugId b) use_after_free freedId r now
                 (uaf_impact fa entries) in
    simulateUseAfterFree now now_event freedId (Toolkit.mk h b)
    = Some (inr bug,
            Toolkit.mk
              (set_timeline (fun tl => tl ++
                 [bug_event now_event freedId "use-after-free"
                    [("impactedId", id_or_undefined reuser)]]) h)
              (BugSimulator.mk (<[nextBugId b := bug]> (activeBugs b))
                               (nextBugId b + 1))).
Proof.
  intros Hwf Hget Hfa Hstatus.
  destruct (wf_alloc h Hwf freedId r (Map_get_elem_of _ _ _ Hget))
    as (a & Ha & _ & _ & bucketed & Hb & _).
  rewrite Hfa in Ha. injection Ha as <-.
  destruct (wf_bucket h Hwf _ bucketed Hb) as [_ Hmembers].
  destruct (deref_all_valid bucketed h) as [entries Hentries].
  { intros r' Hr'. destruct (Hmembers r' Hr') as (a' & -> & _). eauto. }
  pose proof (deref_all_Some _ _ _ _ Hentries) as (_ & Hfst & _).
  destruct (deref_opt_valid h (reusingAllocation (uaf_impact fa entries)))
    as (reuser & Hreuser & Hrfst & _).
  { intros n Hn. apply uaf_impact_reuser in Hn. rewrite Hfst in Hn.
    destruct (Hmembers n Hn) as (a' & -> & _). eauto. }
  exists bucketed, entries, reuser. do 3 (split; [done|]).
  intros bug. unfold simulateUseAfterFree.
  erewrite on_analyzer_run by reflexivity. rewrite Hget.
  erewrite on_analyzer_run by (apply deref_Some; eauto).
  rewrite Hstatus, bool_decide_eq_true_2 by done. cbn [negb].
  rewrite fresh_bugId_run. unfold store_bug.
  erewrite on_analyzer_run
    by (unfold getAllocationsInBucket; mstep; rewrite Hb; reflexivity).
  erewrite on_analyzer_run by exact Hentries.
  erewrite on_analyzer_run by exact Hreuser.
  erewrite on_analyzer_run
    by (rewrite recordBug_run, (Map_has_true _ _ _ Hget); reflexivity).
  reflexivity.
Qed.

Lemma wf_values_valid h r :
  wf h -> r ∈ JS.Map_values (allocations h) -> is_Some (objects h !! r).
Proof.
  intros Hwf Hin. apply list_elem_of_fmap in Hin as ([id r'] & -> & Hin).
  destruct (wf_alloc h Hwf id r' Hin) as (a & Ha & _). cbn. rewrite Ha. eauto.
Qed.

Lemma confusion_impact_example src wrongType values r :
  exampleAllocation (confusion_impact src wrongType values) = Some r -> r ∈ values.*1.
Proof.
  unfold confusion_impact.
  destruct (List.filter _ values) as [|[r' a'] rest] eqn:Hfilter; cbn; [done|].
  assert ((r', a') ∈ values) as Hin.
  { eapply elem_of_List_filter. rewrite Hfilter. left. }
  intros Hr. assert (r = r') as ->
    by (repeat case_match; cbn in Hr; congruence).
  apply list_elem_of_fmap. by exists (r', a').
Qed.

(** The bug that [simulateTypeConfusion] records, and the state it leaves. *)
Lemma simulateTypeConfusion_run h b now now_event sourceId wrongType r src :
  wf h ->
  JS.Map_get sourceId (allocations h) = Some r -> objects h !! r = Some src ->
  Allocation.status src = Allocation.allocated ->
  exists values,
    deref_all (JS.Map_values (allocations h)) h = Some (values, h) /\
    let bug := mkBug (nextBugId b) (type_confusion wrongType) sourceId r now
                 (confusion_impact src wrongType values) in
    simulateTypeConfusion now now_event sourceId wrongType (Toolkit.mk h b)
    = Some (inr bug,
            Toolkit.mk
              (set_timeline (fun tl => tl ++
                 [bug_event now_event sourceId "type-confusion"
                    [("wrongType", VString wrongType)]]) h)
              (BugSimulator.mk (<[nextBugId b := bug]> (activeBugs b))
                               (nextBugId b + 1))).
Proof.
  intros Hwf Hget Hsrc Hstatus.
  destruct (deref_all_valid (JS.Map_values (allocations h)) h) as [values Hvalues].
  { intros r' Hr'. by apply wf_values_valid. }
  exists values. split; [done|].
  intros bug. unfold simulateTypeConfusion.
  erewrite on_analyzer_run by reflexivity. rewrite Hget.
  erewrite on_analyzer_run by (apply deref_Some; eauto).
  rewrite Hstatus, bool_decide_eq_true_2 by done. cbn [negb].
  rewrite fresh_bugId_run. unfold store_bug.
  erewrite on_analyzer_run by exact Hvalues.
  erewrite on_analyzer_run
    by (rewrite recordBug_run, (Map_has_true _ _ _ Hget); reflexivity).
  reflexivity.
Qed.
End Simulator.

(** *** The invariant holds in every state the toolkit reaches *)

Section ToolkitPreservation.
Import HeapAnalyzer BugSimulator Toolkit BugSimulatorMethods Invariant API Rules.

Lemma run_analyzer_objects c h h' r :
  wf h -> run_analyzer c h = Some (tt, h') ->
  is_Some (objects h !! r) -> is_Some (objects h' !! r).
Proof.
  intros Hwf Hrun. rewrite !lookup_lt_is_Some. intros Hr.
  enough (length (objects h) <= length (objects h'))%nat by lia.
  destruct c as [now size type metadata|now aid|now aid bugType details|];
    cbn [run_analyzer] in Hrun.
  - apply bind_Some in Hrun as (newId & h1 & Hrun & Hret). injection Hret as <-.
    rewrite recordAllocation_run in Hrun. injection Hrun as _ <-.
    cbn. rewrite length_app. lia.
  - apply bind_Some in Hrun as (w & h1 & Hrun & Hret). injection Hret as <-.
    destruct (JS.Map_get aid (allocations h)) as [r'|] eqn:Hget.
    + destruct (wf_deref_table h aid r' Hwf Hget) as (a & Ha & _).
      rewrite (recordDeallocation_known h now aid r' a Hget Ha) in Hrun.
      injection Hrun as _ <-. cbn. by rewrite length_insert.
    + rewrite (recordDeallocation_unknown h now aid Hget) in Hrun.
      by injection Hrun as _ <-.
  - apply bind_Some in Hrun as (w & h1 & Hrun & Hret). injection Hret as <-.
    rewrite recordBug_run in Hrun.
    destruct (JS.Map_has _ _); by injection Hrun as _ <-.
  - rewrite reset_run in Hrun. by injection Hrun as <-.
Qed.

Lemma on_analyzer_Some {A} (m : M HeapAnalyzer.t A) w a w' :
  on_analyzer m w = Some (a, w') <->
  exists h', m (analyzer w) = Some (a, h') /\ w' = Toolkit.mk h' (bugSimulator w).
Proof.
  unfold on_analyzer. destruct (m (analyzer w)) as [[a' h']|]; split.
  - intros [= <- <-]. eauto.
  - intros (h'' & [= <- <-] & ->). reflexivity.
  - discriminate.
  - intros (h'' & [=] & _).
Qed.

(** A bug added to a state whose tables stay as they are. *)
Lemma toolkit_wf_store_bug h b bug f :
  toolkit_wf (Toolkit.mk h b) ->
  (forall r, r ∈ bug_refs bug -> is_Some (objects h !! r)) ->
  toolkit_wf (Toolkit.mk (set_timeline f h)
                (BugSimulator.mk (<[nextBugId b := bug]> (activeBugs b))
                                 (nextBugId b + 1))).
Proof.
  intros [Hwf Hbugs] Hrefs. split; cbn [analyzer bugSimulator activeBugs] in *.
  - by apply (wf_same_tables h).
  - intros bugId bug' Hlookup r Hr. cbn [set_timeline objects].
    destruct (decide (nextBugId b = bugId)) as [<-|Hne].
    + rewrite lookup_insert_eq in Hlookup. injection Hlookup as <-. by apply Hrefs.
    + rewrite lookup_insert_ne in Hlookup by done. by eapply Hbugs.
Qed.

Lemma overflow_impact_refs src overflowSize next r :
  r ∈ option_list (corruptedAllocation (overflow_impact src overflowSize next)) ++
      option_list (reusingAllocation (overflow_impact src overflowSize next)) ++
      option_list (exampleAllocation (overflow_impact src overflowSize next)) ->
  exists a, next = Some (r, a).
Proof.
  unfold overflow_impact. destruct next as [[n a]|]; [destruct (bool_decide _)|]; cbn.
  - intros ->%list_elem_of_singleton. eauto.
  - intros Hin. by apply elem_of_nil in Hin.
  - intros Hin. by apply elem_of_nil in Hin.
Qed.

Lemma uaf_impact_refs fa entries r :
  r ∈ option_list (corruptedAllocation (uaf_impact fa entries)) ++
      option_list (reusingAllocation (uaf_impact fa entries)) ++
      option_list (exampleAllocation (uaf_impact fa entries)) ->
  reusingAllocation (uaf_impact fa entries) = Some r.
Proof.
  unfold uaf_impact. destruct (JS.sort _ _) as [|[r' a'] rest]; cbn.
  - intros Hin. by apply elem_of_nil in Hin.
  - by intros ->%list_elem_of_singleton.
Qed.

Lemma confusion_impact_refs src wrongType values r :
  r ∈ option_list (corruptedAllocation (confusion_impact src wrongType values)) ++
      option_list (reusingAllocation (confusion_impact src wrongType values)) ++
      option_list (exampleAllocation (confusion_impact src wrongType values)) ->
  exampleAllocation (confusion_impact src wrongType values) = Some r.
Proof.
  unfold confusion_impact.
  destruct (List.filter _ values) as [|[r' a'] rest]; cbn.
  - intros Hin. by apply elem_of_nil in Hin.
  - repeat case_match; cbn; by intros ->%list_elem_of_singleton.
Qed.

Lemma simulateOverflow_error h b now now_event sourceId overflowSize :
  wf h ->
  (forall r src, JS.Map_get sourceId (allocations h) = Some r ->
     objects h !! r = Some src -> Allocation.status src <> Allocation.allocated) ->
  exists msg,
    simulateOverflow now now_event sourceId overflowSize (Toolkit.mk h b)
    = Some (inl msg, Toolkit.mk h b).
Proof.
  intros Hwf Hno. unfold simulateOverflow. erewrite on_analyzer_run by reflexivity.
  destruct (JS.Map_get sourceId (allocations h)) as [r|] eqn:Hget; [|by eexists].
  destruct (wf_deref_table h sourceId r Hwf Hget) as (src & Hsrc & _).
  erewrite on_analyzer_run by (apply deref_Some; eauto).
  rewrite bool_decide_eq_false_2 by (by eapply Hno). by eexists.
Qed.

Lemma simulateUseAfterFree_error h b now now_event freedId :
  wf h ->
  (forall r fa, JS.Map_get freedId (allocations h) = Some r ->
     objects h !! r = Some fa -> Allocation.status fa <> Allocation.freed) ->
  exists msg,
    simulateUseAfterFree now now_event freedId (Toolkit.mk h b)
    = Some (inl msg, Toolkit.mk h b).
Proof.
  intros Hwf Hno. unfold simulateUseAfterFree. erewrite on_analyzer_run by reflexivity.
  destruct (JS.Map_get freedId (allocations h)) as [r|] eqn:Hget; [|by eexists].
  destruct (wf_deref_table h freedId r Hwf Hget) as (fa & Hfa & _).
  erewrite on_analyzer_run by (apply deref_Some; eauto).
  rewrite bool_decide_eq_false_2 by (by eapply Hno). by eexists.
Qed.

Lemma simulateTypeConfusion_error h b now now_event sourceId wrongType :
  wf h ->
  (forall r src, JS.Map_get sourceId (allocations h) = Some r ->
     objects h !! r = Some src -> Allocation.status src <> Allocation.allocated) ->
  exists msg,
    simulateTypeConfusion now now_event sourceId wrongType (Toolkit.mk h b)
    = Some (inl msg, Toolkit.mk h b).
Proof.
  intros Hwf Hno. unfold simulateTypeConfusion. erewrite on_analyzer_run by reflexivity.
  destruct (JS.Map_get sourceId (allocations h)) as [r|] eqn:Hget; [|by eexists].
  destruct (wf_deref_table h sourceId r Hwf Hget) as (src & Hsrc & _).
  erewrite on_analyzer_run by (apply deref_Some; eauto).
  rewrite bool_decide_eq_false_2 by (by eapply Hno). by eexists.
Qed.

(** Whether the record of an id is there with a given status. *)
Lemma status_cases h aid (st : Allocation.Status) :
  (exists r a, JS.Map_get aid (allocations h) = Some r /\ objects h !! r = Some a /\
               Allocation.status a = st) \/
  (forall r a, JS.Map_get aid (allocations h) = Some r ->
     objects h !! r = Some a -> Allocation.status a <> st).
Proof.
  destruct (JS.Map_get aid (allocations h)) as [r|]; [|right; intros ? ? [=]].
  destruct (objects h !! r) as [a|] eqn:Ha.
  - destruct (decide (Allocation.status a = st)); [left; eauto|].
    right. intros ? ? [= <-] Hobj. rewrite Ha in Hobj. by injection Hobj as <-.
  - right. intros ? ? [= <-] Hobj. rewrite Ha in Hobj. discriminate.
Qed.

Lemma toolkit_wf_run c w w' : toolkit_wf w -> run c w = Some (tt, w') -> toolkit_wf w'.
Proof.
  intros Hwf Hrun. destruct w as [h b]. pose proof Hwf as [Hh Hbugs].
  cbn [analyzer bugSimulator] in Hh, Hbugs.
  destruct c as [c|now now_event sourceId overflowSize|now now_event freedId
                 |now now_event sourceId wrongType|bugId|]; cbn [run] in Hrun.
  - apply on_analyzer_Some in Hrun as (h' & Hrun & ->). cbn [analyzer] in Hrun.
    split; cbn [analyzer bugSimulator]; [by eapply wf_run_analyzer|].
    intros bugId bug Hlookup r Hr. eapply run_analyzer_objects; [done..|].
    by eapply Hbugs.
  - apply bind_Some in Hrun as (res & w1 & Hrun & Hret). injection Hret as <-.
    destruct (status_cases h sourceId Allocation.allocated)
      as [(r & src & Hget & Hsrc & Hstatus)|Hno].
    + destruct (simulateOverflow_run h b now now_event sourceId overflowSize r src
                  Hh Hget Hsrc Hstatus) as (adjacent & next & _ & _ & Hnext & Hsim).
      cbv zeta in Hsim. rewrite Hsim in Hrun. injection Hrun as _ <-.
      apply toolkit_wf_store_bug; [done|]. intros x Hx.
      apply elem_of_cons in Hx as [->|Hx]; cbn [source impact] in *; [by eauto|].
      apply overflow_impact_refs in Hx as [a ->]. rewrite (Hnext x a eq_refl). eauto.
    + destruct (simulateOverflow_error h b now now_event sourceId overflowSize Hh Hno)
        as [msg Hsim].
      rewrite Hsim in Hrun. by injection Hrun as _ <-.
  - apply bind_Some in Hrun as (res & w1 & Hrun & Hret). injection Hret as <-.
    destruct (status_cases h freedId Allocation.freed)
      as [(r & fa & Hget & Hfa & Hstatus)|Hno].
    + destruct (simulateUseAfterFree_run h b now now_event freedId r fa
                  Hh Hget Hfa Hstatus)
        as (bucketed & entries & reuser & Hb & Hentries & _ & Hsim).
      cbv zeta in Hsim. rewrite Hsim in Hrun. injection Hrun as _ <-.
      apply toolkit_wf_store_bug; [done|]. intros x Hx.
      apply elem_of_cons in Hx as [->|Hx]; cbn [source impact] in *; [by eauto|].
      apply uaf_impact_refs, uaf_impact_reuser in Hx.
      apply list_elem_of_fmap in Hx as ([x' a] & -> & Hx).
      apply (deref_all_elem_of _ _ _ _ _ Hentries) in Hx as [_ Hobj].
      cbn. rewrite Hobj. eauto.
    + destruct (simulateUseAfterFree_error h b now now_event freedId Hh Hno)
        as [msg Hsim].
      rewrite Hsim in Hrun. by injection Hrun as _ <-.
  - apply bind_Some in Hrun as (res & w1 & Hrun & Hret). injection Hret as <-.
    destruct (status_cases h sourceId Allocation.allocated)
      as [(r & src & Hget & Hsrc & Hstatus)|Hno].
    + destruct (simulateTypeConfusion_run h b now now_event sourceId wrongType r src
                  Hh Hget Hsrc Hstatus) as (values & Hvalues & Hsim).
      cbv zeta in Hsim. rewrite Hsim in Hrun. injection Hrun as _ <-.
      apply toolkit_wf_store_bug; [done|]. intros x Hx.
      apply elem_of_cons in Hx as [->|Hx]; cbn [source impact] in *; [by eauto|].
      apply confusion_impact_refs, confusion_impact_example in Hx.
      apply list_elem_of_fmap in Hx as ([x' a] & -> & Hx).
      apply (deref_all_elem_of _ _ _ _ _ Hvalues) in Hx as [_ Hobj].
      cbn. rewrite Hobj. eauto.
    + destruct (simulateTypeConfusion_error h b now now_event sourceId wrongType Hh Hno)
        as [msg Hsim].
      rewrite Hsim in Hrun. by injection Hrun as _ <-.
  - injection Hrun as <-. split; cbn; [done|].
    intros bugId' bug Hlookup. apply lookup_delete_Some in Hlookup as [_ Hlookup].
    by eapply Hbugs.
  - injection Hrun as <-. split; [done|].
    intros bugId' bug Hlookup.
    change ((∅ : gmap Z BugDetails) !! bugId' = Some bug) in Hlookup. by rewrite lookup_empty in Hlookup.
Qed.

Lemma toolkit_wf_new : toolkit_wf Toolkit.new.
Proof.
  split; [apply wf_new|]. intros bugId bug Hlookup.
  change ((∅ : gmap Z BugDetails) !! bugId = Some bug) in Hlookup. by rewrite lookup_empty in Hlookup.
Qed.

Lemma reachable_wf w : reachable w -> toolkit_wf w.
Proof.
  induction 1 as [|c w w' _ IH Hrun]; [apply toolkit_wf_new | by eapply toolkit_wf_run].
Qed.

Lemma step_reachable c w : reachable w -> reachable (step (run c) w).
Proof.
  intros Hw. unfold step. destruct (run c w) as [[[] w']|] eqn:Hrun; [|done].
  by eapply toolkit_call.
Qed.

Lemma after_reachable cs : reachable (after cs).
Proof.
  unfold after. generalize toolkit_new. generalize Toolkit.new.
  induction cs as [|c cs IH]; intros w Hw; cbn; [done|].
  apply IH. by apply step_reachable.
Qed.

(** The analyzer of a toolkit state is a tracker state: the simulator
    changes it through [recordBug] only. *)
Lemma reachable_analyzer w : API.reachable w -> API.analyzer_reachable (Toolkit.analyzer w).
Proof.
  induction 1 as [|c w w' Hreach IH Hrun]; [apply API.analyzer_new|].
  pose proof (reachable_wf w Hreach) as [Hwf _].
  destruct w as [h b]. cbn [Toolkit.analyzer] in *.
  assert (forall now sourceId bugType details r,
            JS.Map_get sourceId (HeapAnalyzer.allocations h) = Some r ->
            API.analyzer_reachable
              (HeapAnalyzer.set_timeline
                 (fun tl => tl ++ [HeapAnalyzer.bug_event now sourceId bugType details]) h))
    as Hbug.
  { intros now sourceId bugType details r Hget.
    apply (API.analyzer_call (API.RecordBug now sourceId bugType details) h); [done|].
    cbn [API.run_analyzer]. erewrite bind_run; [reflexivity|].
    by rewrite recordBug_run, (Map_has_true _ _ _ Hget). }
  destruct c as [c|now now_event sourceId overflowSize|now now_event freedId
                 |now now_event sourceId wrongType|bugId|]; cbn [API.run] in Hrun.
  - apply on_analyzer_Some in Hrun as (h' & Hrun & ->). by eapply API.analyzer_call.
  - apply bind_Some in Hrun as (res & w1 & Hrun & Hret). injection Hret as <-.
    destruct (status_cases h sourceId Allocation.allocated)
      as [(r & src & Hget & Hsrc & Hstatus)|Hno].
    + destruct (simulateOverflow_run h b now now_event sourceId overflowSize r src
                  Hwf Hget Hsrc Hstatus) as (adjacent & next & _ & _ & _ & Hsim).
      cbv zeta in Hsim. rewrite Hsim in Hrun. injection Hrun as _ <-. by eapply Hbug.
    + destruct (simulateOverflow_error h b now now_event sourceId overflowSize Hwf Hno)
        as [msg Hsim].
      rewrite Hsim in Hrun. by injection Hrun as _ <-.
  - apply bind_Some in Hrun as (res & w1 & Hrun & Hret). injection Hret as <-.
    destruct (status_cases h freedId Allocation.freed)
      as [(r & fa & Hget & Hfa & Hstatus)|Hno].
    + destruct (simulateUseAfterFree_run h b now now_event freedId r fa
                  Hwf Hget Hfa Hstatus) as (bucketed & entries & reuser & _ & _ & _ & Hsim).
      cbv zeta in Hsim. rewrite Hsim in Hrun. injection Hrun as _ <-. by eapply Hbug.
    + destruct (simulateUseAfterFree_error h b now now_event freedId Hwf Hno)
        as [msg Hsim].
      rewrite Hsim in Hrun. by injection Hrun as _ <-.
  - apply bind_Some in Hrun as (res & w1 & Hrun & Hret). injection Hret as <-.
    destruct (status_cases h sourceId Allocation.allocated)
      as [(r & src & Hget & Hsrc & Hstatus)|Hno].
    + destruct (simulateTypeConfusion_run h b now now_event sourceId wrongType r src
                  Hwf Hget Hsrc Hstatus) as (values & _ & Hsim).
      cbv zeta in Hsim. rewrite Hsim in Hrun. injection Hrun as _ <-. by eapply Hbug.
    + destruct (simulateTypeConfusion_error h b now now_event sourceId wrongType Hwf Hno)
        as [msg Hsim].
      rewrite Hsim in Hrun. by injection Hrun as _ <-.
  - by injection Hrun as <-.
  - by injection Hrun as <-.
Qed.
End ToolkitPreservation.

(** *** The severity heuristics *)

Section Severity.
Import HeapAnalyzer BugSimulator Toolkit BugSimulatorMethods Invariant API Rules.

Lemma assessOverflowSeverity_rules source target overflowSize :
  overflow_severity target overflowSize
    (assessOverflowSeverity source target overflowSize).
Proof.
  unfold assessOverflowSeverity.
  destruct (JS.some_included criticalTypes _) eqn:Hc.
  { apply overflow_critical. by apply some_included_spec. }
  apply some_included_false in Hc.
  destruct (JS.some_included sensitiveTypes _) eqn:Hs.
  { apply overflow_sensitive; [done|]. by apply some_included_spec. }
  apply some_included_false in Hs.
  destruct (Z.ltb_spec 100 overflowSize); [by apply overflow_large|].
  destruct (Z.ltb_spec 16 overflowSize).
  - apply overflow_moderate; [done..|lia].
  - by apply overflow_small.
Qed.

Lemma assessUafSeverity_rules freed reuser :
  uaf_severity freed reuser (assessUafSeverity freed reuser).
Proof.
  unfold assessUafSeverity.
  destruct (JS.some_included criticalTypes (Allocation.type reuser)) eqn:Hc.
  { apply uaf_reuser_critical. by apply some_included_spec. }
  apply some_included_false in Hc.
  destruct (JS.some_included sensitiveTypes _) eqn:Hs.
  { apply uaf_reuser_sensitive; [done|]. by apply some_included_spec. }
  apply some_included_false in Hs.
  destruct (JS.some_included criticalTypes (Allocation.type freed)) eqn:Hf.
  - apply uaf_freed_critical; [done..|]. by apply some_included_spec.
  - apply some_included_false in Hf. by apply uaf_otherwise.
Qed.

(** C2: for a source that is in the table and allocated, [simulateOverflow]
    records an overflow bug whose impact is decided by
    [findAdjacentAllocations (sourceId).next]: an allocated neighbour is the
    corrupted allocation and the severity is that of
    [assessOverflowSeverity] (critical for a critical type, high for a
    sensitive type, else high above 100, medium above 16, low); no
    neighbour or a freed one gives low, with the note. *)
Theorem simulateOverflow_spec (w : Toolkit.t) (now now_event sourceId overflowSize : Z)
    (r : nat) (src : Allocation.t) :
  reachable w ->
  JS.Map_get sourceId (allocations (analyzer w)) = Some r ->
  objects (analyzer w) !! r = Some src ->
  Allocation.status src = Allocation.allocated ->
  exists adjacent bug w',
    findAdjacentAllocations sourceId (analyzer w) = Some (adjacent, analyzer w) /\
    simulateOverflow now now_event sourceId overflowSize w = Some (inr bug, w') /\
    activeBugs (bugSimulator w') !! BugSimulator.id bug = Some bug /\
    kind bug = overflow overflowSize /\
    BugSimulator.sourceId bug = sourceId /\ source bug = r /\
    match next adjacent with
    | Some n =>
        exists target,
          objects (analyzer w) !! n = Some target /\
          match Allocation.status target with
          | Allocation.allocated =>
              corruptedAllocation (impact bug) = Some n /\
              severity (impact bug) = assessOverflowSeverity src target overflowSize /\
              overflow_severity target overflowSize (severity (impact bug))
          | Allocation.freed =>
              corruptedAllocation (impact bug) = None /\
              severity (impact bug) = low /\
              notes (impact bug) =
                Some "No active allocation would be directly corrupted"
          end
    | None =>
        corruptedAllocation (impact bug) = None /\
        severity (impact bug) = low /\
        notes (impact bug) = Some "No active allocation would be directly corrupted"
    end.
Proof.
  intros Hreach Hget Hsrc Hstatus. apply reachable_wf in Hreach as [Hwf _].
  destruct w as [h b]. cbn [analyzer bugSimulator] in *.
  destruct (simulateOverflow_run h b now now_event sourceId overflowSize r src
              Hwf Hget Hsrc Hstatus) as (adjacent & next & Hadj & Hfst & Hobj & Hsim).
  cbv zeta in Hsim. eexists adjacent, _, _. split; [exact Hadj|].
  split; [exact Hsim|]. cbn [bugSimulator activeBugs BugSimulator.id kind
    BugSimulator.sourceId source impact].
  split; [by rewrite lookup_insert_eq|]. do 3 (split; [reflexivity|]).
  rewrite <- Hfst. destruct next as [[n target]|]; cbn; [|done].
  exists target. split; [by apply Hobj|].
  destruct (Allocation.status target) eqn:Htarget; cbn; [|done].
  do 2 (split; [reflexivity|]). apply assessOverflowSeverity_rules.
Qed.

Lemma simulateOverflow_spec_witness :
  let w := after
    [Analyzer (RecordAllocation 1 64 "ArrayBuffer" []);
     Analyzer (RecordAllocation 2 64 "ArrayBuffer" []);
     Analyzer (RecordAllocation 3 64 "ArrayBuffer" []);
     Analyzer (RecordDeallocation 4 3)] in
  exists adjacent bug w',
    findAdjacentAllocations 2 (analyzer w) = Some (adjacent, analyzer w) /\
    simulateOverflow 5 6 2 8 w = Some (inr bug, w') /\
    activeBugs (bugSimulator w') !! BugSimulator.id bug = Some bug /\
    kind bug = overflow 8 /\
    BugSimulator.sourceId bug = 2 /\ source bug = 1%nat /\
    match next adjacent with
    | Some n =>
        exists target,
          objects (analyzer w) !! n = Some target /\
          match Allocation.status target with
          | Allocation.allocated =>
              corruptedAllocation (impact bug) = Some n /\
              severity (impact bug) =
                assessOverflowSeverity
                  (Allocation.mk 2 64 "ArrayBuffer" 2 [] Allocation.allocated None)
                  target 8 /\
              overflow_severity target 8 (severity (impact bug))
          | Allocation.freed =>
              corruptedAllocation (impact bug) = None /\
              severity (impact bug) = low /\
              notes (impact bug) =
                Some "No active allocation would be directly corrupted"
          end
    | None =>
        corruptedAllocation (impact bug) = None /\
        severity (impact bug) = low /\
        notes (impact bug) = Some "No active allocation would be directly corrupted"
    end.
Proof.
  intros w. apply (simulateOverflow_spec w 5 6 2 8 1%nat).
  - apply after_reachable.
  - reflexivity.
  - reflexivity.
  - reflexivity.
Defined.

Lemma reuse_candidate_filter h bucketSize bucketed entries freedAt r a :
  buckets h !! bucketSize = Some bucketed ->
  deref_all bucketed h = Some (entries, h) ->
  reuse_candidate h bucketSize freedAt r a <->
  (r, a) ∈ List.filter (potentialReuser freedAt) entries.
Proof.
  intros Hb Hentries. rewrite elem_of_List_filter.
  rewrite (deref_all_elem_of _ _ _ _ _ Hentries).
  unfold reuse_candidate, potentialReuser. cbn [snd].
  rewrite andb_true_iff, bool_decide_eq_true, Z.ltb_lt. split.
  - intros (bucketed' & Hb' & Hin & Ha & Hst & Hts).
    rewrite Hb in Hb'. injection Hb' as <-. done.
  - intros [[Hin Ha] [Hst Hts]]. by exists bucketed.
Qed.

(** C3: for an id whose record is in the table and freed,
    [simulateUseAfterFree] records a use-after-free bug; its reuser is a
    record of the same bucket that is allocated and was created after the
    free, of least creation time among these, and then the severity is that
    of [assessUafSeverity]; when there is no such record the severity is
    medium, with the note. *)
Theorem simulateUseAfterFree_spec (w : Toolkit.t) (now now_event freedId : Z)
    (r : nat) (fa : Allocation.t) :
  reachable w ->
  JS.Map_get freedId (allocations (analyzer w)) = Some r ->
  objects (analyzer w) !! r = Some fa ->
  Allocation.status fa = Allocation.freed ->
  exists freedAt bug w',
    Allocation.freedAt fa = Some freedAt /\
    simulateUseAfterFree now now_event freedId w = Some (inr bug, w') /\
    activeBugs (bugSimulator w') !! BugSimulator.id bug = Some bug /\
    kind bug = use_after_free /\ source bug = r /\
    let candidate :=
      reuse_candidate (analyzer w) (findBucketForSize (Allocation.size fa)) freedAt in
    match reusingAllocation (impact bug) with
    | Some reuser =>
        exists ra,
          candidate reuser ra /\
          (forall r' a', candidate r' a' ->
             Allocation.timestamp ra <= Allocation.timestamp a') /\
          severity (impact bug) = assessUafSeverity fa ra /\
          uaf_severity fa ra (severity (impact bug))
    | None =>
        (forall r' a', ~ candidate r' a') /\
        severity (impact bug) = medium /\
        notes (impact bug) =
          Some "No reuse detected yet, but memory could be reused later"
    end.
Proof.
  intros Hreach Hget Hfa Hstatus. apply reachable_wf in Hreach as [Hwf _].
  destruct w as [h b]. cbn [analyzer bugSimulator] in *.
  destruct (wf_freed h Hwf r fa Hfa Hstatus) as [freedAt HfreedAt].
  destruct (simulateUseAfterFree_run h b now now_event freedId r fa
              Hwf Hget Hfa Hstatus)
    as (bucketed & entries & reuser & Hb & Hentries & _ & Hsim).
  cbv zeta in Hsim. eexists freedAt, _, _. split; [exact HfreedAt|].
  split; [exact Hsim|]. cbn [bugSimulator activeBugs BugSimulator.id kind source impact].
  split; [by rewrite lookup_insert_eq|]. do 2 (split; [reflexivity|]).
  set (candidate := reuse_candidate _ _ _).
  assert (forall r' a', candidate r' a' <->
            (r', a') ∈ List.filter (potentialReuser freedAt) entries) as Hcand
    by (intros; by apply reuse_candidate_filter with bucketed).
  unfold uaf_impact. rewrite HfreedAt. cbn [default from_option Datatypes.id].
  destruct (JS.sort by_timestamp _) as [|[reuser' ra] rest] eqn:Hsort; cbn.
  - apply sort_nil in Hsort. split; [|done].
    intros r' a' Hc. apply Hcand in Hc. rewrite Hsort in Hc.
    by apply elem_of_nil in Hc.
  - apply sort_by_timestamp_head in Hsort as [Hin Hmin].
    exists ra. split; [by apply Hcand|].
    split; [|split; [reflexivity | apply assessUafSeverity_rules]].
    intros r' a' Hc. apply Hcand in Hc. apply (Hmin (r', a') Hc).
Qed.

Lemma simulateUseAfterFree_spec_witness :
  let w := after
    [Analyzer (RecordAllocation 1 64 "Victim" []);
     Analyzer (RecordDeallocation 2 1);
     Analyzer (RecordAllocation 5 60 "Late" []);
     Analyzer (RecordAllocation 3 64 "Map" [])] in
  let fa := Allocation.mk 1 64 "Victim" 1 [] Allocation.freed (Some 2) in
  exists freedAt bug w',
    Allocation.freedAt fa = Some freedAt /\
    simulateUseAfterFree 6 7 1 w = Some (inr bug, w') /\
    activeBugs (bugSimulator w') !! BugSimulator.id bug = Some bug /\
    kind bug = use_after_free /\ source bug = 0%nat /\
    let candidate :=
      reuse_candidate (analyzer w) (findBucketForSize (Allocation.size fa)) freedAt in
    match reusingAllocation (impact bug) with
    | Some reuser =>
        exists ra,
          candidate reuser ra /\
          (forall r' a', candidate r' a' ->
             Allocation.timestamp ra <= Allocation.timestamp a') /\
          severity (impact bug) = assessUafSeverity fa ra /\
          uaf_severity fa ra (severity (impact bug))
    | None =>
        (forall r' a', ~ candidate r' a') /\
        severity (impact bug) = medium /\
        notes (impact bug) =
          Some "No reuse detected yet, but memory could be reused later"
    end.
Proof.
  intros w fa. apply (simulateUseAfterFree_spec w 6 7 1 0%nat fa).
  - apply after_reachable.
  - reflexivity.
  - reflexivity.
  - reflexivity.
Defined.
End Severity.

(** *** The exploitability score *)

Section Exploitability.
Import HeapAnalyzer BugSimulator Toolkit BugSimulatorMethods Invariant API Rules.

Lemma set_overall_tier a : tier (score (set_overall a)) (overall (set_overall a)).
Proof.
  unfold tier, set_overall. cbn.
  destruct (Z.leb_spec 40 (score a)); [|destruct (Z.leb_spec 20 (score a))];
    repeat split; intros; try discriminate; lia.
Qed.

Lemma bug_points_cast P os bug p q :
  p = q -> bug_points P os bug p -> bug_points P os bug q.
Proof. by intros ->. Qed.

(** Choosing the delta that applies. *)
Ltac pick_delta Hspec :=
  first [ left; split; [by apply Hspec | reflexivity]
        | right; split; [rewrite <- Hspec; discriminate | reflexivity]
        | left; split; [(done || lia) | reflexivity]
        | right; left; split; [lia | reflexivity]
        | right; right; split; [lia | reflexivity]
        | right; split; [(done || lia) | reflexivity] ].

(** The switch adds to the score the points of the bug. *)
Lemma assess_bug_points h bug :
  (forall r, r ∈ bug_refs bug -> is_Some (objects h !! r)) ->
  exists a points,
    assess_bug bug (mkAssessment low [] [] 0) h = Some (a, h) /\
    score a = points /\
    bug_points Function_or_ArrayBuffer (objects h) bug points.
Proof.
  intros Hrefs. unfold bug_refs in Hrefs.
  destruct (Hrefs (source bug)) as [src Hsrc]; [left|].
  unfold assess_bug. destruct (kind bug) as [overflowSize| |wrongType] eqn:Hkind.
  - destruct (corruptedAllocation (impact bug)) as [r|] eqn:Hr.
    + destruct (Hrefs r) as [target Htarget].
      { right. apply elem_of_app. left. left. }
      erewrite bind_run by (apply deref_Some; eauto).
      eexists _, _. split; [reflexivity|]. split; [reflexivity|].
      pose proof (Function_or_ArrayBuffer_spec (Allocation.type target)) as Hspec.
      destruct (BugSimulatorMethods.Function_or_ArrayBuffer (Allocation.type target));
        (destruct (Z.leb_spec overflowSize 8);
         [|destruct (Z.leb_spec overflowSize 64)]);
        (eapply bug_points_cast;
         [|eapply (points_overflow _ _ _ overflowSize r target);
           [done..|pick_delta Hspec|pick_delta Hspec]]);
        reflexivity.
    + eexists _, _. split; [reflexivity|]. split; [reflexivity|].
      by eapply points_overflow_no_target.
  - destruct (reusingAllocation (impact bug)) as [r|] eqn:Hr.
    + destruct (Hrefs r) as [reuser Hreuser].
      { right. apply elem_of_app. right. apply elem_of_app. left. left. }
      erewrite bind_run by (apply deref_Some; eauto).
      erewrite bind_run by (apply deref_Some; eauto).
      eexists _, _. split; [reflexivity|]. split; [reflexivity|].
      rewrite (orb_comm (JS.includes _ "ArrayBuffer")).
      change (JS.includes ?t "Function" || JS.includes ?t "ArrayBuffer")
        with (BugSimulatorMethods.Function_or_ArrayBuffer t).
      pose proof (Function_or_ArrayBuffer_spec (Allocation.type reuser)) as Hspec.
      destruct (BugSimulatorMethods.Function_or_ArrayBuffer (Allocation.type reuser));
        case_bool_decide;
        (eapply bug_points_cast;
         [|eapply (points_uaf _ _ _ r reuser src);
           [done..|pick_delta Hspec|pick_delta Hspec]]);
        reflexivity.
    + eexists _, _. split; [reflexivity|]. split; [reflexivity|].
      by eapply points_uaf_no_reuser.
  - pose proof (Function_or_ArrayBuffer_spec wrongType) as Hspec.
    destruct (exampleAllocation (impact bug)) as [r|] eqn:Hr.
    + destruct (Hrefs r) as [example Hexample].
      { right. apply elem_of_app. right. apply elem_of_app. right. left. }
      erewrite bind_run by (apply deref_Some; eauto).
      erewrite bind_run by (apply deref_Some; eauto).
      eexists _, _. split; [reflexivity|]. split; [reflexivity|].
      destruct (BugSimulatorMethods.Function_or_ArrayBuffer wrongType);
        destruct (Z.ltb_spec 0 (Allocation.size src - Allocation.size example));
        (eapply bug_points_cast;
         [|eapply (points_confusion _ _ _ wrongType r example src);
           [done..|pick_delta Hspec|pick_delta Hspec]]);
        reflexivity.
    + eexists _, _. split; [reflexivity|]. split; [reflexivity|].
      destruct (BugSimulatorMethods.Function_or_ArrayBuffer wrongType);
        (eapply bug_points_cast;
         [|eapply (points_confusion_no_example _ _ _ wrongType);
           [done..|pick_delta Hspec]]);
        reflexivity.
Qed.
End Exploitability.

Section ExploitabilityClaims.
Import HeapAnalyzer BugSimulator Toolkit BugSimulatorMethods Invariant API Rules.

(** The points of a bug are determined by the bug and the records. *)
Lemma bug_points_functional P os bug p q :
  bug_points P os bug p -> bug_points P os bug q -> p = q.
Proof.
  intros Hp Hq.
  destruct Hp; destruct Hq;
    repeat match goal with
    | H1 : ?t = _, H2 : ?t = _ |- _ => rewrite H1 in H2
    end; simplify_eq; try reflexivity;
    repeat match goal with
    | H : _ \/ _ |- _ => destruct H
    | H : _ /\ _ |- _ => destruct H
    end; subst; first [reflexivity | lia | contradiction | congruence].
Qed.

(** C4, as the code has it: for a recorded bug, [assessExploitability] starts
    from 0 and adds the points of the bug, where a type counts as critical
    when it contains "Function" or "ArrayBuffer" (and not for "WebAssembly"
    or "VTable"): for an overflow with a corrupted target +30 for a critical
    target and +20 for [overflowSize <= 8], +10 for [overflowSize <= 64],
    -10 above, and -20 without a target; for a use after free with a reuser
    +30 for a critical reuser and +15 for the type of the freed record, -10
    for another type, and -15 without a reuser; for a type confusion +25 for
    a critical [wrongType] and, with an example, +20 when the source is
    larger, or -10 without an example; then +10 when more than 100
    allocations were recorded; the tier is high from 40, medium from 20, low
    below. *)
Theorem assessExploitability_spec (w : Toolkit.t) (bugId : Z) (bug : BugDetails) :
  reachable w ->
  activeBugs (bugSimulator w) !! bugId = Some bug ->
  exists a points,
    assessExploitability bugId w = Some (inr a, w) /\
    bug_points Function_or_ArrayBuffer (objects (analyzer w)) bug points /\
    score a = points + heap_bonus (stats (analyzer w)) /\
    tier (score a) (overall a).
Proof.
  intros Hreach Hlookup. apply reachable_wf in Hreach as [_ Hbugs].
  destruct w as [h b]. cbn [analyzer bugSimulator] in *.
  destruct (assess_bug_points h bug (Hbugs bugId bug Hlookup))
    as (a & points & Hrun & Hscore & Hpoints).
  unfold assessExploitability. mstep. cbn [bugSimulator]. rewrite Hlookup.
  erewrite on_analyzer_run by exact Hrun.
  erewrite on_analyzer_run by reflexivity.
  eexists _, points. split; [reflexivity|]. split; [exact Hpoints|].
  split; [|apply set_overall_tier].
  unfold heap_bonus. destruct (100 <? totalAllocations (stats h)); cbn; lia.
Qed.

Lemma assessExploitability_spec_witness :
  let w := after
    [Analyzer (RecordAllocation 1 64 "Src" []);
     Analyzer (RecordAllocation 2 64 "ArrayBufferView" []);
     SimulateOverflow 3 4 1 8] in
  let bug := mkBug 1 (overflow 8) 1 0%nat 3
               (mkImpact critical None (Some 1%nat) None None None None) in
  exists a points,
    assessExploitability 1 w = Some (inr a, w) /\
    bug_points Function_or_ArrayBuffer (objects (analyzer w)) bug points /\
    score a = points + heap_bonus (stats (analyzer w)) /\
    tier (score a) (overall a).
Proof.
  intros w bug. apply (assessExploitability_spec w 1 bug).
  - apply after_reachable.
  - reflexivity.
Defined.

(** C4 as stated fails: an overflow of 100 bytes into a record of type
    "VTable", which is in the critical set, scores -10 (tier low), not the
    +30 - 10 = 20 (tier medium) of the stated deltas. *)
Lemma assessExploitability_critical_set_counterexample :
  let w := after
    [Analyzer (RecordAllocation 1 64 "Src" []);
     Analyzer (RecordAllocation 2 64 "VTable" []);
     SimulateOverflow 3 4 1 100] in
  exists bug a,
    activeBugs (bugSimulator w) !! 1 = Some bug /\
    assessExploitability 1 w = Some (inr a, w) /\
    score a = -10 /\ overall a = low /\
    bug_points critical_set (objects (analyzer w)) bug 20 /\
    heap_bonus (stats (analyzer w)) = 0 /\
    ~ (exists points,
         bug_points critical_set (objects (analyzer w)) bug points /\
         score a = points + heap_bonus (stats (analyzer w))).
Proof.
  intros w.
  set (target := Allocation.mk 2 64 "VTable" 2 [] Allocation.allocated None).
  set (bug := mkBug 1 (overflow 100) 1 0%nat 3
                (mkImpact critical None (Some 1%nat) None None None None)).
  assert (bug_points critical_set (objects (analyzer w)) bug 20) as Hclaimed.
  { apply (bug_points_cast _ _ _ (30 + -10)); [reflexivity|].
    apply (points_overflow _ _ _ 100 1%nat target); [reflexivity..| |].
    - left. split; [|reflexivity]. apply some_included_spec. reflexivity.
    - right. right. split; [lia | reflexivity]. }
  exists bug, (mkAssessment low [] ["Large overflow may cause instability"] (-10)).
  split; [reflexivity|]. split; [vm_compute; reflexivity|].
  do 2 (split; [reflexivity|]). split; [exact Hclaimed|]. split; [reflexivity|].
  intros (points & Hpoints & Hscore).
  rewrite (bug_points_functional _ _ _ _ _ Hpoints Hclaimed) in Hscore.
  vm_compute in Hscore. discriminate.
Qed.
End ExploitabilityClaims.

(** *** The strategy for a type confusion *)

Section Strategy.
Import HeapAnalyzer BugSimulator Toolkit BugSimulatorMethods Invariant API Rules.
Import GroomingStrategyGenerator.
Context `{CodeTemplates}.
Variable generateOverflowStrategy : BugDetails -> M Toolkit.t (string + Strategy).
Variable generateUafStrategy : BugDetails -> M Toolkit.t (string + Strategy).

(** What [generateStrategyForBug] does for a type confusion whose source id
    is in the table: three phases in the order preparation, confusion
    setup, exploit, and the approach by the sign of the size difference
    against the first record of [wrongType] in the table, freed or not. *)
Lemma generateStrategyForBug_type_confusion w bugId bug wrongType r src :
  reachable w ->
  activeBugs (bugSimulator w) !! bugId = Some bug ->
  kind bug = type_confusion wrongType ->
  JS.Map_get (BugSimulator.sourceId bug) (allocations (analyzer w)) = Some r ->
  objects (analyzer w) !! r = Some src ->
  exists values s,
    deref_all (JS.Map_values (allocations (analyzer w))) (analyzer w)
      = Some (values, analyzer w) /\
    generateStrategyForBug generateOverflowStrategy generateUafStrategy bugId w
      = Some (inr s, w) /\
    phase_type <$> phases s = ["preparation"; "confusion_setup"; "exploit"] /\
    targetBug s = bug /\
    (0 < sizeDiff_of src wrongType values -> approach s = "size_mismatch_larger") /\
    (sizeDiff_of src wrongType values < 0 -> approach s = "size_mismatch_smaller") /\
    (sizeDiff_of src wrongType values = 0 -> approach s = "field_misinterpretation").
Proof.
  intros Hreach Hlookup Hkind Hget Hsrc. apply reachable_wf in Hreach as [Hwf _].
  destruct w as [h b]. cbn [analyzer bugSimulator] in *.
  destruct (deref_all_valid (JS.Map_values (allocations h)) h) as [values Hvalues].
  { intros r' Hr'. by apply wf_values_valid. }
  exists values. unfold generateStrategyForBug. mstep. cbn [bugSimulator].
  rewrite Hlookup, Hkind. unfold generateTypeConfusionStrategy.
  erewrite on_analyzer_run by reflexivity. rewrite Hget.
  erewrite on_analyzer_run by (apply deref_Some; eauto).
  erewrite on_analyzer_run by exact Hvalues.
  destruct (Z.ltb_spec 0 (sizeDiff_of src wrongType values));
    [|destruct (Z.ltb_spec (sizeDiff_of src wrongType values) 0)];
    (eexists; split; [exact Hvalues|]; split; [reflexivity|];
     split; [reflexivity|]; split; [reflexivity|];
     repeat split; intros; first [reflexivity | lia]).
Qed.

(** C7 fails on a freed example: after allocating an "A" of 32 bytes and a
    "B" of 16 bytes, freeing the "B" and simulating a confusion of the "A"
    with "B", no record of type "B" is allocated, so the size difference is
    0 and the approach field_misinterpretation by the specification; the generator
    compares with the freed "B" and answers size_mismatch_larger. *)
Theorem generateStrategyForBug_freed_example :
  let w := after
    [Analyzer (RecordAllocation 10 32 "A" []);
     Analyzer (RecordAllocation 11 16 "B" []);
     Analyzer (RecordDeallocation 12 2);
     SimulateTypeConfusion 13 14 1 "B"] in
  exists bug src values active s,
    activeBugs (bugSimulator w) !! 1 = Some bug /\
    kind bug = type_confusion "B" /\
    exampleAllocation (impact bug) = None /\
    JS.Map_get (BugSimulator.sourceId bug) (allocations (analyzer w))
      = Some (source bug) /\
    objects (analyzer w) !! source bug = Some src /\
    deref_all (JS.Map_values (allocations (analyzer w))) (analyzer w)
      = Some (values, analyzer w) /\
    getActiveAllocations (analyzer w) = Some (active, analyzer w) /\
    (forall r a, r ∈ active -> objects (analyzer w) !! r = Some a ->
       Allocation.type a <> "B") /\
    sizeDiff_allocated_example src "B" (snd <$> values) = 0 /\
    sizeDiff_of src "B" values = 16 /\
    generateStrategyForBug generateOverflowStrategy generateUafStrategy 1 w
      = Some (inr s, w) /\
    approach s = "size_mismatch_larger" /\
    approach s <> "field_misinterpretation".
Proof.
  intros w.
  set (a1 := Allocation.mk 1 32 "A" 10 [] Allocation.allocated None).
  set (a2 := Allocation.mk 2 16 "B" 11 [] Allocation.freed (Some 12)).
  set (bug := mkBug 1 (type_confusion "B") 1 0%nat 13
                (mkImpact unknown (Some "No examples of B available for comparison")
                   None None None (Some "A") (Some "B"))).
  assert (reachable w) as Hreach by apply after_reachable.
  destruct (generateStrategyForBug_type_confusion w 1 bug "B" 0%nat a1 Hreach)
    as (values & s & Hvalues & Hrun & _ & _ & Hlarger & _); [reflexivity..|].
  assert (values = [(0%nat, a1); (1%nat, a2)]) as ->.
  { vm_compute in Hvalues. by injection Hvalues as <-. }
  exists bug, a1, [(0%nat, a1); (1%nat, a2)], [0%nat], s.
  do 5 (split; [reflexivity|]). split; [exact Hvalues|].
  split; [vm_compute; reflexivity|].
  split.
  { intros r a ->%list_elem_of_singleton Ha. vm_compute in Ha.
    injection Ha as <-. discriminate. }
  do 2 (split; [reflexivity|]). split; [exact Hrun|].
  assert (approach s = "size_mismatch_larger") as Happroach
    by (apply Hlarger; reflexivity).
  split; [exact Happroach|]. rewrite Happroach. discriminate.
Qed.
End Strategy.

(** *** Scenarios *)

Section Scenarios.
Import HeapAnalyzer BugSimulator Toolkit BugSimulatorMethods API Rules.

(** Five "ArrayBuffer" allocations of 64 bytes, the third freed: the
    neighbours of the second are the first and the third, and an overflow
    of the second corrupts nothing, because the third is freed. *)
Example overflow_next_to_freed :
  let w := after
    [Analyzer (RecordAllocation 1 64 "ArrayBuffer" []);
     Analyzer (RecordAllocation 2 64 "ArrayBuffer" []);
     Analyzer (RecordAllocation 3 64 "ArrayBuffer" []);
     Analyzer (RecordAllocation 4 64 "ArrayBuffer" []);
     Analyzer (RecordAllocation 5 64 "ArrayBuffer" []);
     Analyzer (RecordDeallocation 6 3)] in
  fst <$> findAdjacentAllocations 2 (analyzer w)
    = Some (mkAdjacent (Some 0%nat) (Some 2%nat)) /\
  Allocation.id <$> (objects (analyzer w) !! 2%nat) = Some 3 /\
  exists bug w',
    simulateOverflow 7 8 2 8 w = Some (inr bug, w') /\
    impact bug = mkImpact low
                   (Some "No active allocation would be directly corrupted")
                   None None None None None.
Proof.
  do 2 (split; [vm_compute; reflexivity|]).
  eexists _, _. split; [vm_compute; reflexivity | reflexivity].
Qed.

(** A bucket with three records of which two are allocated is used to 2/3. *)
Example bucket_stats_two_of_three :
  let h := analyzer_after
    [RecordAllocation 1 64 "Foo" []; RecordAllocation 2 60 "Bar" [];
     RecordAllocation 3 64 "Foo" []; RecordDeallocation 4 2] in
  fst <$> generateBucketStats h
    = Some {[ 64 := mkBucketStat 3 2 1 (2 # 3) ]}.
Proof. vm_compute. reflexivity. Qed.

(** A type whose name only contains "ArrayBuffer" matches it. *)
Example includes_wrapper :
  JS.includes "CustomArrayBufferWrapper" "ArrayBuffer" = true /\
  JS.includes "Arr" "Array" = false.
Proof. split; reflexivity. Qed.
End Scenarios.

(** *** Further properties of the tracker *)

Section TrackerFacts.
Import HeapAnalyzer Invariant API Facts.

Lemma Map_get_app {V} (k : Z) (m1 m2 : list (Z * V)) :
  JS.Map_get k (m1 ++ m2)
  = match JS.Map_get k m1 with
    | Some v => Some v
    | None => JS.Map_get k m2
    end.
Proof.
  unfold JS.Map_get. induction m1 as [|[k' v'] m1 IH]; cbn; [done|].
  case_bool_decide; cbn; [done | exact IH].
Qed.

Lemma Map_get_fresh {V} (k : Z) (m : list (Z * V)) :
  k ∉ (fst <$> m) -> JS.Map_get k m = None.
Proof.
  unfold JS.Map_get. induction m as [|[k' v'] m IH]; cbn; [done|].
  rewrite not_elem_of_cons. intros [Hne Hk].
  rewrite bool_decide_eq_false_2 by congruence. by apply IH.
Qed.

(** X1: in a state the tracker can reach, [recordAllocation] returns an id
    that was not in the table, and afterwards the table maps this id to a new
    allocated record with the given size, type and time, which is the last
    entry of the bucket of its size; every other id, record and bucket is as
    before. *)
Theorem recordAllocation_lookup (h : HeapAnalyzer.t) (now size : Z) (type : string)
    (metadata : list (string * string)) :
  analyzer_reachable h ->
  exists r h',
    recordAllocation now size type metadata h = Some (nextId h, h') /\
    JS.Map_get (nextId h) (allocations h) = None /\
    JS.Map_get (nextId h) (allocations h') = Some r /\
    objects h' !! r =
      Some (Allocation.mk (nextId h) size type now metadata Allocation.allocated None) /\
    (forall id, id <> nextId h ->
       JS.Map_get id (allocations h') = JS.Map_get id (allocations h)) /\
    (forall r', r' <> r -> objects h' !! r' = objects h !! r') /\
    getAllocationsInBucket (findBucketForSize size) h'
      = Some (default [] (buckets h !! findBucketForSize size) ++ [r], h') /\
    (forall b, b <> findBucketForSize size -> buckets h' !! b = buckets h !! b).
Proof.
  intros Hreach. apply analyzer_reachable_wf in Hreach as Hwf.
  pose proof (wf_nextId_fresh h Hwf) as Hfresh.
  exists (length (objects h)), (allocated_state h now size type metadata).
  split; [apply recordAllocation_run|].
  split; [by apply Map_get_fresh|].
  unfold allocated_state, getAllocationsInBucket. mstep.
  cbn [objects allocations buckets].
  rewrite (Map_set_fresh _ _ _ Hfresh).
  split.
  { rewrite Map_get_app, (Map_get_fresh _ _ Hfresh). unfold JS.Map_get. cbn.
    by rewrite bool_decide_eq_true_2. }
  split; [by apply list_lookup_middle|].
  split.
  { intros id Hne. rewrite Map_get_app. destruct (JS.Map_get id (allocations h)); [done|].
    unfold JS.Map_get. cbn. by rewrite bool_decide_eq_false_2. }
  split.
  { intros r' Hne. destruct (decide (r' < length (objects h))%nat).
    - by rewrite lookup_app_l.
    - rewrite !lookup_ge_None_2; [done| lia |]. rewrite length_app. cbn. lia. }
  split; [by rewrite lookup_insert_eq|].
  intros b Hne. by rewrite lookup_insert_ne.
Qed.

Lemma recordAllocation_lookup_witness :
  let h := analyzer_after [RecordAllocation 1 64 "Foo" []; RecordDeallocation 2 1] in
  exists r h',
    recordAllocation 3 60 "Bar" [] h = Some (nextId h, h') /\
    JS.Map_get (nextId h) (allocations h) = None /\
    JS.Map_get (nextId h) (allocations h') = Some r /\
    objects h' !! r = Some (Allocation.mk (nextId h) 60 "Bar" 3 [] Allocation.allocated None) /\
    (forall id, id <> nextId h ->
       JS.Map_get id (allocations h') = JS.Map_get id (allocations h)) /\
    (forall r', r' <> r -> objects h' !! r' = objects h !! r') /\
    getAllocationsInBucket (findBucketForSize 60) h'
      = Some (default [] (buckets h !! findBucketForSize 60) ++ [r], h') /\
    (forall b, b <> findBucketForSize 60 -> buckets h' !! b = buckets h !! b).
Proof.
  intros h. apply (recordAllocation_lookup h 3 60 "Bar" []).
  apply analyzer_after_reachable.
Defined.

(** The counters against the table. *)
Lemma counters_run c h h' :
  wf h -> run_analyzer c h = Some (tt, h') ->
  nextId h = totalAllocations (stats h) + 1 /\
  Z.of_nat (length (allocations h)) = totalAllocations (stats h) /\
  currentLiveAllocations (stats h)
    = totalAllocations (stats h) - totalDeallocations (stats h) /\
  0 <= totalDeallocations (stats h) /\
  0 <= maxLiveAllocations (stats h) /\
  currentLiveAllocations (stats h) <= maxLiveAllocations (stats h)
    <= totalAllocations (stats h) ->
  nextId h' = totalAllocations (stats h') + 1 /\
  Z.of_nat (length (allocations h')) = totalAllocations (stats h') /\
  currentLiveAllocations (stats h')
    = totalAllocations (stats h') - totalDeallocations (stats h') /\
  0 <= totalDeallocations (stats h') /\
  0 <= maxLiveAllocations (stats h') /\
  currentLiveAllocations (stats h') <= maxLiveAllocations (stats h')
    <= totalAllocations (stats h').
Proof.
  intros Hwf Hrun (Hnext & Hlen & Hlive & Hdealloc & Hmax0 & Hmax).
  destruct c as [now size type metadata|now aid|now aid bugType details|];
    cbn [run_analyzer] in Hrun.
  - apply bind_Some in Hrun as (newId & h1 & Hrun & Hret). injection Hret as <-.
    rewrite recordAllocation_run in Hrun. injection Hrun as _ <-.
    unfold allocated_state. cbn [nextId allocations stats].
    rewrite (Map_set_fresh _ _ _ (wf_nextId_fresh h Hwf)), length_app.
    unfold add_allocation, raise_max. cbn.
    destruct (Z.ltb_spec (maxLiveAllocations (stats h))
                (currentLiveAllocations (stats h) + 1)); cbn; lia.
  - apply bind_Some in Hrun as (w & h1 & Hrun & Hret). injection Hret as <-.
    destruct (JS.Map_get aid (allocations h)) as [r|] eqn:Hget.
    + destruct (wf_alloc h Hwf aid r (Map_get_elem_of _ _ _ Hget)) as (a & Ha & _).
      rewrite (recordDeallocation_known h now aid r a Hget Ha) in Hrun.
      injection Hrun as _ <-. cbn. lia.
    + rewrite (recordDeallocation_unknown h now aid Hget) in Hrun.
      injection Hrun as _ <-. lia.
  - apply bind_Some in Hrun as (w & h1 & Hrun & Hret). injection Hret as <-.
    rewrite recordBug_run in Hrun.
    destruct (JS.Map_has _ _); injection Hrun as _ <-; cbn; lia.
  - rewrite reset_run in Hrun. injection Hrun as <-. cbn. lia.
Qed.

(** X2: in every state the tracker can reach the counters agree with the
    table: the next id is one more than the number of allocations recorded
    since the last reset, which is the size of the table; the live counter is
    allocations minus deallocations; the peak is between the live counter
    and the number of allocations. *)
Theorem counters_invariant (h : HeapAnalyzer.t) :
  analyzer_reachable h ->
  nextId h = totalAllocations (stats h) + 1 /\
  Z.of_nat (length (allocations h)) = totalAllocations (stats h) /\
  currentLiveAllocations (stats h)
    = totalAllocations (stats h) - totalDeallocations (stats h) /\
  0 <= totalDeallocations (stats h) /\
  0 <= maxLiveAllocations (stats h) /\
  currentLiveAllocations (stats h) <= maxLiveAllocations (stats h)
    <= totalAllocations (stats h).
Proof.
  induction 1 as [|c h h' Hreach IH Hrun]; [cbn; lia|].
  eapply counters_run; [by apply analyzer_reachable_wf | exact Hrun | exact IH].
Qed.

Lemma counters_invariant_witness :
  let h := analyzer_after
    [RecordAllocation 1 64 "Foo" []; RecordAllocation 2 64 "Bar" [];
     RecordDeallocation 3 1; RecordDeallocation 4 1; RecordAllocation 5 8 "Baz" []] in
  nextId h = totalAllocations (stats h) + 1 /\
  Z.of_nat (length (allocations h)) = totalAllocations (stats h) /\
  currentLiveAllocations (stats h)
    = totalAllocations (stats h) - totalDeallocations (stats h) /\
  0 <= totalDeallocations (stats h) /\
  0 <= maxLiveAllocations (stats h) /\
  currentLiveAllocations (stats h) <= maxLiveAllocations (stats h)
    <= totalAllocations (stats h).
Proof. intros h. apply (counters_invariant h). apply analyzer_after_reachable. Defined.

(** X3: a call other than [reset] only adds: the timeline and the table grow
    at the end, no id changes its record, and the id counter, the two totals
    and the peak do not go down. *)
Theorem tracker_only_grows (c : AnalyzerCall) (h h' : HeapAnalyzer.t) :
  analyzer_reachable h -> c <> Reset -> run_analyzer c h = Some (tt, h') ->
  timeline h `prefix_of` timeline h' /\
  allocations h `prefix_of` allocations h' /\
  (forall id r, JS.Map_get id (allocations h) = Some r ->
     JS.Map_get id (allocations h') = Some r) /\
  (length (objects h) <= length (objects h'))%nat /\
  nextId h <= nextId h' /\
  totalAllocations (stats h) <= totalAllocations (stats h') /\
  totalDeallocations (stats h) <= totalDeallocations (stats h') /\
  maxLiveAllocations (stats h) <= maxLiveAllocations (stats h').
Proof.
  intros Hreach Hc Hrun. apply analyzer_reachable_wf in Hreach as Hwf.
  destruct c as [now size type metadata|now aid|now aid bugType details|];
    cbn [run_analyzer] in Hrun; [| | |done].
  - apply bind_Some in Hrun as (newId & h1 & Hrun & Hret). injection Hret as <-.
    rewrite recordAllocation_run in Hrun. injection Hrun as _ <-.
    unfold allocated_state. cbn [timeline allocations objects nextId stats].
    rewrite (Map_set_fresh _ _ _ (wf_nextId_fresh h Hwf)), length_app.
    split; [by apply prefix_app_r|]. split; [by apply prefix_app_r|].
    split; [intros id r Hget; by rewrite Map_get_app, Hget|].
    split; [cbn [length]; lia|]. split; [lia|].
    unfold add_allocation, raise_max.
    destruct (_ <? _) eqn:Hmax; [apply Z.ltb_lt in Hmax; cbn in Hmax|]; cbn; lia.
  - apply bind_Some in Hrun as (w & h1 & Hrun & Hret). injection Hret as <-.
    destruct (JS.Map_get aid (allocations h)) as [r|] eqn:Hget.
    + destruct (wf_alloc h Hwf aid r (Map_get_elem_of _ _ _ Hget)) as (a & Ha & _).
      rewrite (recordDeallocation_known h now aid r a Hget Ha) in Hrun.
      injection Hrun as _ <-. cbn. rewrite length_insert.
      split; [by apply prefix_app_r|]. repeat split; (done || lia).
    + rewrite (recordDeallocation_unknown h now aid Hget) in Hrun.
      injection Hrun as _ <-. repeat split; (done || lia).
  - apply bind_Some in Hrun as (w & h1 & Hrun & Hret). injection Hret as <-.
    rewrite recordBug_run in Hrun.
    destruct (JS.Map_has _ _); injection Hrun as _ <-; cbn;
      (split; [first [by apply prefix_app_r | done]|]); repeat split; (done || lia).
Qed.

Lemma tracker_only_grows_witness :
  let h := analyzer_after [RecordAllocation 1 64 "Foo" []] in
  let h' := analyzer_after [RecordAllocation 1 64 "Foo" []; RecordDeallocation 2 1] in
  timeline h `prefix_of` timeline h' /\
  allocations h `prefix_of` allocations h' /\
  (forall id r, JS.Map_get id (allocations h) = Some r ->
     JS.Map_get id (allocations h') = Some r) /\
  (length (objects h) <= length (objects h'))%nat /\
  nextId h <= nextId h' /\
  totalAllocations (stats h) <= totalAllocations (stats h') /\
  totalDeallocations (stats h) <= totalDeallocations (stats h') /\
  maxLiveAllocations (stats h) <= maxLiveAllocations (stats h').
Proof.
  intros h h'. apply (tracker_only_grows (RecordDeallocation 2 1) h h').
  - apply analyzer_after_reachable.
  - discriminate.
  - reflexivity.
Defined.
End TrackerFacts.

Section BucketFacts.
Import HeapAnalyzer Invariant API Facts.

(** The four ways in which one call changes the state. *)
Lemma run_analyzer_cases c h h' :
  wf h -> run_analyzer c h = Some (tt, h') ->
  (exists now size type metadata, h' = allocated_state h now size type metadata) \/
  (exists now aid r a, JS.Map_get aid (allocations h) = Some r /\
     objects h !! r = Some a /\ h' = freed_state h now r a) \/
  (objects h' = objects h /\ allocations h' = allocations h /\
   buckets h' = buckets h /\ stats h' = stats h) \/
  h' = mk (objects h) [] ∅ [] 1 (detectedBucketSizes h) zero_stats.
Proof.
  intros Hwf Hrun.
  destruct c as [now size type metadata|now aid|now aid bugType details|];
    cbn [run_analyzer] in Hrun.
  - apply bind_Some in Hrun as (newId & h1 & Hrun & Hret). injection Hret as <-.
    rewrite recordAllocation_run in Hrun. injection Hrun as _ <-. left. eauto.
  - apply bind_Some in Hrun as (w & h1 & Hrun & Hret). injection Hret as <-.
    destruct (JS.Map_get aid (allocations h)) as [r|] eqn:Hget.
    + destruct (wf_alloc h Hwf aid r (Map_get_elem_of _ _ _ Hget)) as (a & Ha & _).
      rewrite (recordDeallocation_known h now aid r a Hget Ha) in Hrun.
      injection Hrun as _ <-. right; left. eauto 8.
    + rewrite (recordDeallocation_unknown h now aid Hget) in Hrun.
      injection Hrun as _ <-. right; right; left. done.
  - apply bind_Some in Hrun as (w & h1 & Hrun & Hret). injection Hret as <-.
    rewrite recordBug_run in Hrun.
    destruct (JS.Map_has _ _); injection Hrun as _ <-; right; right; left; done.
  - rewrite reset_run in Hrun. injection Hrun as <-. by right; right; right.
Qed.

Lemma bucket_members_run c h h' :
  wf h -> run_analyzer c h = Some (tt, h') ->
  (forall b bucketed, buckets h !! b = Some bucketed ->
     bucketed <> [] /\
     forall r, r ∈ bucketed ->
       exists a, objects h !! r = Some a /\ findBucketForSize (Allocation.size a) = b) ->
  forall b bucketed, buckets h' !! b = Some bucketed ->
    bucketed <> [] /\
    forall r, r ∈ bucketed ->
      exists a, objects h' !! r = Some a /\ findBucketForSize (Allocation.size a) = b.
Proof.
  intros Hwf Hrun IH b bucketed Hb.
  destruct (run_analyzer_cases c h h' Hwf Hrun)
    as [(now & size & type & metadata & ->)
       |[(now & aid & r0 & a0 & Hget & Ha0 & ->)
        |[(Hobj & _ & Hbuckets & _) | ->]]].
  - unfold allocated_state in *. cbn [buckets objects] in *.
    destruct (decide (b = findBucketForSize size)) as [->|Hne].
    + rewrite lookup_insert_eq in Hb. injection Hb as <-.
      split; [by destruct (default _ _)|].
      intros r [Hr| ->%list_elem_of_singleton]%elem_of_app.
      * destruct (buckets h !! findBucketForSize size) as [old|] eqn:Hold;
          [|by apply elem_of_nil in Hr].
        destruct (IH _ _ Hold) as [_ Hmem]. destruct (Hmem r Hr) as (a & Ha & Hsize).
        exists a. split; [|done]. rewrite lookup_app_l; [done|by eapply lookup_lt_Some].
      * eexists. split; [apply list_lookup_middle; reflexivity|done].
    + rewrite lookup_insert_ne in Hb by done.
      destruct (IH _ _ Hb) as [Hnil Hmem]. split; [done|].
      intros r Hr. destruct (Hmem r Hr) as (a & Ha & Hsize).
      exists a. split; [|done]. rewrite lookup_app_l; [done|by eapply lookup_lt_Some].
  - unfold freed_state in *. cbn [buckets objects] in *.
    destruct (IH _ _ Hb) as [Hnil Hmem]. split; [done|].
    intros r Hr. destruct (Hmem r Hr) as (a & Ha & Hsize).
    destruct (decide (r = r0)) as [->|Hne].
    + exists (Allocation.set_freed now a0). rewrite Ha0 in Ha. injection Ha as <-.
      split; [|done]. apply list_lookup_insert_eq. by eapply lookup_lt_Some.
    + exists a. by rewrite list_lookup_insert_ne.
  - rewrite Hbuckets in Hb. rewrite Hobj. by apply IH.
  - cbn [buckets] in Hb. by rewrite lookup_empty in Hb.
Qed.

Lemma bucket_members h :
  analyzer_reachable h ->
  forall b bucketed, buckets h !! b = Some bucketed ->
    bucketed <> [] /\
    forall r, r ∈ bucketed ->
      exists a, objects h !! r = Some a /\ findBucketForSize (Allocation.size a) = b.
Proof.
  induction 1 as [|c h h' Hreach IH Hrun].
  - intros b bucketed Hb. cbn in Hb. by rewrite lookup_empty in Hb.
  - eapply bucket_members_run; [by apply analyzer_reachable_wf|done..].
Qed.

(** X4: in a state the tracker can reach the buckets partition the table by
    [findBucketForSize]: no bucket is empty or holds a record twice, a bucket
    holds only records of the table whose size maps to its key, and a record
    of the table is in the bucket of its size and in no other. *)
Theorem buckets_partition (h : HeapAnalyzer.t) :
  analyzer_reachable h ->
  (forall b bucketed, buckets h !! b = Some bucketed ->
     bucketed <> [] /\ NoDup bucketed /\
     forall r, r ∈ bucketed ->
       exists a, objects h !! r = Some a /\
         JS.Map_get (Allocation.id a) (allocations h) = Some r /\
         findBucketForSize (Allocation.size a) = b) /\
  (forall id r, JS.Map_get id (allocations h) = Some r ->
     exists a, objects h !! r = Some a /\
       forall b, r ∈ default [] (buckets h !! b) <->
                 b = findBucketForSize (Allocation.size a)).
Proof.
  intros Hreach. apply analyzer_reachable_wf in Hreach as Hwf.
  pose proof (bucket_members h Hreach) as Hmembers.
  split.
  - intros b bucketed Hb. destruct (Hmembers _ _ Hb) as [Hnil Hmem].
    destruct (wf_bucket h Hwf _ _ Hb) as [Hnodup Htable].
    split; [done|]. split; [done|].
    intros r Hr. destruct (Hmem r Hr) as (a & Ha & Hsize).
    destruct (Htable r Hr) as (a' & Ha' & Hin).
    rewrite Ha in Ha'. injection Ha' as <-.
    exists a. split; [done|]. split; [|done].
    apply elem_of_Map_get; [apply Hwf|done].
  - intros aid r Hget.
    destruct (wf_alloc h Hwf aid r (Map_get_elem_of _ _ _ Hget))
      as (a & Ha & _ & _ & bucketed & Hb & Hr).
    exists a. split; [done|]. intros b. split.
    + destruct (buckets h !! b) as [other|] eqn:Hother; cbn; [|by intros ?%elem_of_nil].
      intros Hin. destruct (Hmembers _ _ Hother) as [_ Hmem].
      destruct (Hmem r Hin) as (a' & Ha' & Hsize). by simplify_eq.
    + intros ->. by rewrite Hb.
Qed.

Lemma buckets_partition_witness :
  let h := analyzer_after
    [RecordAllocation 1 64 "Foo" []; RecordAllocation 2 60 "Bar" [];
     RecordAllocation 3 8 "Baz" []; RecordDeallocation 4 2] in
  (forall b bucketed, buckets h !! b = Some bucketed ->
     bucketed <> [] /\ NoDup bucketed /\
     forall r, r ∈ bucketed ->
       exists a, objects h !! r = Some a /\
         JS.Map_get (Allocation.id a) (allocations h) = Some r /\
         findBucketForSize (Allocation.size a) = b) /\
  (forall id r, JS.Map_get id (allocations h) = Some r ->
     exists a, objects h !! r = Some a /\
       forall b, r ∈ default [] (buckets h !! b) <->
                 b = findBucketForSize (Allocation.size a)).
Proof. intros h. apply (buckets_partition h). apply analyzer_after_reachable. Defined.

(** Insertion keeps a list sorted by [(a, b) => a - b]. *)
Lemma sort_insert_sorted (x : Z) (l : list Z) :
  StronglySorted Z.le l -> StronglySorted Z.le (JS.sort_insert (fun a b => a - b) x l).
Proof.
  induction 1 as [|y l Hsorted IH Hall]; cbn; [by repeat constructor|].
  destruct (Z.leb_spec (x - y) 0).
  - constructor; [by constructor|]. constructor; [lia|].
    eapply Forall_impl; [exact Hall|]. cbn. lia.
  - constructor; [done|]. apply Forall_forall. intros z Hz.
    apply sort_insert_elem_of in Hz as [->|Hz]; [lia|].
    by eapply Forall_forall in Hall.
Qed.

Lemma sort_sorted (l : list Z) : StronglySorted Z.le (JS.sort (fun a b => a - b) l).
Proof. induction l; cbn; [constructor | by apply sort_insert_sorted]. Qed.

Lemma sort_insert_Permutation {A} (cmp : A -> A -> Z) x l :
  JS.sort_insert cmp x l ≡ₚ x :: l.
Proof.
  induction l as [|y l IH]; cbn; [done|].
  destruct (_ <=? _); [done|]. by rewrite IH, Permutation_swap.
Qed.

Lemma sort_Permutation {A} (cmp : A -> A -> Z) l : JS.sort cmp l ≡ₚ l.
Proof.
  induction l as [|x l IH]; cbn; [done|]. by rewrite sort_insert_Permutation, IH.
Qed.

Lemma sorted_NoDup_strict (l : list Z) :
  StronglySorted Z.le l -> NoDup l -> StronglySorted Z.lt l.
Proof.
  induction 1 as [|x l Hsorted IH Hall]; [constructor|].
  intros [Hx Hnodup]%NoDup_cons. constructor; [by apply IH|].
  apply Forall_forall. intros y Hy.
  assert (x <= y) by by eapply Forall_forall in Hall.
  assert (x <> y) by (by intros ->). lia.
Qed.

(** X5: in a state the tracker can reach, [getActiveBuckets] lists in
    strictly ascending order, each once, exactly the bucket sizes that
    [findBucketForSize] gives for the sizes of the records in the table. *)
Theorem getActiveBuckets_spec (h : HeapAnalyzer.t) :
  analyzer_reachable h ->
  exists keys,
    getActiveBuckets h = Some (keys, h) /\
    StronglySorted Z.lt keys /\
    forall b, b ∈ keys <->
      exists id r a, JS.Map_get id (allocations h) = Some r /\
        objects h !! r = Some a /\ findBucketForSize (Allocation.size a) = b.
Proof.
  intros Hreach. apply analyzer_reachable_wf in Hreach as Hwf.
  eexists. split; [reflexivity|]. split.
  - apply sorted_NoDup_strict; [apply sort_sorted|].
    rewrite sort_Permutation. apply NoDup_fst_map_to_list.
  - intros b. rewrite sort_elem_of, list_elem_of_fmap. split.
    + intros ([b' bucketed] & -> & Hb%elem_of_map_to_list). cbn.
      destruct (bucket_members h Hreach _ _ Hb) as [Hnil Hmem].
      destruct bucketed as [|r bucketed]; [done|].
      destruct (Hmem r) as (a & Ha & Hsize); [left|].
      destruct (wf_bucket h Hwf _ _ Hb) as [_ Htable].
      destruct (Htable r) as (a' & Ha' & Hin); [left|].
      rewrite Ha in Ha'. injection Ha' as <-.
      exists (Allocation.id a), r, a. split; [|done].
      apply elem_of_Map_get; [apply Hwf|done].
    + intros (aid & r & a & Hget & Ha & <-).
      destruct (wf_alloc h Hwf aid r (Map_get_elem_of _ _ _ Hget))
        as (a' & Ha' & _ & _ & bucketed & Hb & Hr).
      rewrite Ha in Ha'. injection Ha' as <-.
      exists (findBucketForSize (Allocation.size a), bucketed).
      split; [done|]. by apply elem_of_map_to_list.
Qed.

Lemma getActiveBuckets_spec_witness :
  let h := analyzer_after
    [RecordAllocation 1 5000 "Foo" []; RecordAllocation 2 60 "Bar" [];
     RecordAllocation 3 0 "Baz" []; RecordAllocation 4 64 "Foo" []] in
  exists keys,
    getActiveBuckets h = Some (keys, h) /\
    StronglySorted Z.lt keys /\
    forall b, b ∈ keys <->
      exists id r a, JS.Map_get id (allocations h) = Some r /\
        objects h !! r = Some a /\ findBucketForSize (Allocation.size a) = b.
Proof. intros h. apply (getActiveBuckets_spec h). apply analyzer_after_reachable. Defined.
End BucketFacts.

Section LiveFacts.
Import HeapAnalyzer Invariant API Facts.

Lemma wf_refs_NoDup h : wf h -> NoDup (snd <$> allocations h).
Proof.
  intros Hwf. pose proof (wf_keys h Hwf) as Hkeys.
  assert (forall k1 k2 r, (k1, r) ∈ allocations h -> (k2, r) ∈ allocations h -> k1 = k2)
    as Hinj.
  { intros k1 k2 r H1 H2.
    destruct (wf_alloc h Hwf _ _ H1) as (a1 & Ha1 & Hid1 & _).
    destruct (wf_alloc h Hwf _ _ H2) as (a2 & Ha2 & Hid2 & _). congruence. }
  revert Hkeys Hinj. generalize (allocations h). intros l.
  induction l as [|[k r] l IH]; cbn; [constructor|].
  intros [Hk Hkeys]%NoDup_cons Hinj. constructor.
  - intros ([k' r'] & Heq & Hin)%list_elem_of_fmap. cbn in Heq. subst r'.
    apply Hk. assert (k = k') as -> by (eapply Hinj; [left|by right]).
    apply list_elem_of_fmap. by exists (k', r).
  - apply IH; [done|]. intros k1 k2 r' H1 H2. eapply Hinj; by right.
Qed.

Lemma filter_ext_in {A} (f g : A -> bool) (l : list A) :
  (forall x, x ∈ l -> f x = g x) -> List.filter f l = List.filter g l.
Proof.
  induction l as [|x l IH]; cbn; [done|]. intros Hext.
  rewrite (Hext x) by left. rewrite IH; [done|]. intros y Hy. apply Hext. by right.
Qed.

(** Changing the test on the entries of one reference removes at most one. *)
Lemma filter_change_one (f g : Z * nat -> bool) (r : nat) (l : list (Z * nat)) :
  NoDup (snd <$> l) ->
  (forall e, e ∈ l -> snd e <> r -> g e = f e) ->
  (length (List.filter f l) <= length (List.filter g l) + 1)%nat.
Proof.
  induction l as [|e l IH]; cbn; [lia|].
  intros [He Hnodup]%NoDup_cons Hext.
  destruct (decide (snd e = r)) as [Heq|Hne].
  - rewrite (filter_ext_in g f l).
    + destruct (f e), (g e); cbn; lia.
    + intros x Hx. apply Hext; [by right|]. intros Hr. apply He.
      apply list_elem_of_fmap. exists x. split; [congruence|done].
  - rewrite (Hext e) by (done || left).
    assert (length (List.filter f l) <= length (List.filter g l) + 1)%nat.
    { apply IH; [done|]. intros x Hx. apply Hext. by right. }
    destruct (f e); cbn; lia.
Qed.

(** The records that are not allocated are at most as many as the
    deallocations counted. *)
Lemma freed_count_run c h h' :
  wf h -> run_analyzer c h = Some (tt, h') ->
  Z.of_nat (length (allocations h)) - active_count h <= totalDeallocations (stats h) ->
  Z.of_nat (length (allocations h')) - active_count h' <= totalDeallocations (stats h').
Proof.
  intros Hwf Hrun IH. unfold active_count in *.
  destruct (run_analyzer_cases c h h' Hwf Hrun)
    as [(now & size & type & metadata & ->)
       |[(now & aid & r0 & a0 & Hget & Ha0 & ->)
        |[(Hobj & Hallocs & _ & Hstats) | ->]]].
  - unfold allocated_state. cbn [objects allocations stats].
    rewrite (Map_set_fresh _ _ _ (wf_nextId_fresh h Hwf)).
    rewrite List.filter_app, !length_app. cbn [List.filter].
    unfold allocated_entry at 2, allocated_ref. cbn [snd].
    rewrite list_lookup_middle by done. cbn.
    erewrite filter_ext_in with (g := allocated_entry (objects h)).
    + unfold add_allocation, raise_max.
      rewrite bool_decide_eq_true_2 by done. destruct (_ <? _); cbn; lia.
    + intros [k r] Hin. unfold allocated_entry, allocated_ref. cbn.
      destruct (wf_alloc h Hwf _ _ Hin) as (a & Ha & _).
      rewrite lookup_app_l; [done|by eapply lookup_lt_Some].
  - unfold freed_state. cbn [objects allocations stats totalDeallocations].
    pose proof (filter_change_one (allocated_entry (objects h))
      (allocated_entry (<[r0:=Allocation.set_freed now a0]> (objects h))) r0
      (allocations h) (wf_refs_NoDup h Hwf)) as Hone.
    assert (length (List.filter (allocated_entry (objects h)) (allocations h))
      <= length (List.filter
                   (allocated_entry (<[r0:=Allocation.set_freed now a0]> (objects h)))
                   (allocations h)) + 1)%nat; [|lia].
    apply Hone. intros e _ Hne. unfold allocated_entry, allocated_ref.
    by rewrite list_lookup_insert_ne.
  - rewrite Hobj, Hallocs, Hstats. done.
  - cbn. lia.
Qed.

Lemma active_count_values l h es :
  deref_all (snd <$> l) h = Some (es, h) ->
  length (List.filter
    (fun alloc => bool_decide (Allocation.status (snd alloc) = Allocation.allocated)) es)
  = length (List.filter (allocated_entry (objects h)) l).
Proof.
  revert es. induction l as [|[k r] l IH]; intros es Hes.
  - by injection Hes as <-.
  - cbn [fmap list_fmap snd deref_all] in Hes.
    apply bind_Some in Hes as (a & h1 & [Ha ->]%deref_Some & Hes).
    apply bind_Some in Hes as (rest & h2 & Hrest & Hes).
    pose proof (deref_all_Some _ _ _ _ Hrest) as [-> _].
    injection Hes as <-. cbn [List.filter snd].
    unfold allocated_entry at 1, allocated_ref. cbn [snd]. rewrite Ha.
    specialize (IH rest Hrest). destruct (bool_decide _); cbn; congruence.
Qed.

(** X6: in a state the tracker can reach, [getActiveAllocations] returns,
    each once, exactly the records of the table whose status is allocated,
    and changes nothing.  The counter [currentLiveAllocations] is at most
    their number; it is smaller after a record was deallocated twice. *)
Theorem getActiveAllocations_spec (h : HeapAnalyzer.t) :
  analyzer_reachable h ->
  exists active,
    getActiveAllocations h = Some (active, h) /\
    NoDup active /\
    (forall r, r ∈ active <->
       exists id a, JS.Map_get id (allocations h) = Some r /\
         objects h !! r = Some a /\ Allocation.status a = Allocation.allocated) /\
    currentLiveAllocations (stats h) <= Z.of_nat (length active).
Proof.
  intros Hreach. apply analyzer_reachable_wf in Hreach as Hwf.
  destruct (deref_all_valid (JS.Map_values (allocations h)) h) as [es Hes];
    [intros r; by apply wf_values_valid|].
  pose proof (deref_all_Some _ _ _ _ Hes) as (_ & Hfst & Hrecords).
  exists (fst <$> List.filter
    (fun alloc => bool_decide (Allocation.status (snd alloc) = Allocation.allocated)) es).
  split; [|split; [|split]].
  - unfold getActiveAllocations. mstep. by erewrite bind_run by exact Hes.
  - assert (NoDup (fst <$> es)) as Hnodup
      by (rewrite Hfst; by apply wf_refs_NoDup).
    revert Hnodup. clear. induction es as [|e es IH]; cbn; [constructor|].
    intros [He Hnodup]%NoDup_cons. destruct (bool_decide _); cbn; [|by apply IH].
    constructor; [|by apply IH].
    intros (x & Hx & [Hin _]%elem_of_List_filter)%list_elem_of_fmap.
    apply He. apply list_elem_of_fmap. by exists x.
  - intros r. rewrite list_elem_of_fmap. split.
    + intros ([r' a] & -> & [Hin Hst]%elem_of_List_filter). cbn in *.
      apply bool_decide_eq_true in Hst.
      apply (deref_all_elem_of _ _ _ _ _ Hes) in Hin as [Hin Ha].
      apply list_elem_of_fmap in Hin as ([k r''] & -> & Hin). cbn in *.
      exists k, a. split; [|done]. apply elem_of_Map_get; [apply Hwf|done].
    + intros (k & a & Hget & Ha & Hst). exists (r, a). split; [done|].
      apply elem_of_List_filter. split; [|by apply bool_decide_eq_true].
      apply (deref_all_elem_of _ _ _ _ _ Hes). split; [|done].
      apply list_elem_of_fmap. exists (k, r). split; [done|].
      by apply Map_get_elem_of.
  - rewrite length_fmap, (active_count_values _ _ _ Hes).
    assert (Z.of_nat (length (allocations h)) = totalAllocations (stats h) /\
            currentLiveAllocations (stats h)
              = totalAllocations (stats h) - totalDeallocations (stats h) /\
            Z.of_nat (length (allocations h)) - active_count h
              <= totalDeallocations (stats h)) as (Hlen & Hlive & Hfreed).
    { clear -Hreach. induction Hreach as [|c h h' Hreach IH Hrun].
      - unfold active_count. cbn. lia.
      - apply analyzer_reachable_wf in Hreach as Hwf.
        destruct IH as (Hlen & Hlive & Hfreed).
        pose proof (freed_count_run c h h' Hwf Hrun Hfreed).
        destruct (run_analyzer_cases c h h' Hwf Hrun)
          as [(now & size & type & metadata & ->)
             |[(now & aid & r0 & a0 & Hget & Ha0 & ->)
              |[(Hobj & Hallocs & _ & Hstats) | ->]]].
        + split; [|split; [|done]]; unfold allocated_state; cbn [allocations stats];
            rewrite ?(Map_set_fresh _ _ _ (wf_nextId_fresh h Hwf)), ?length_app;
            unfold add_allocation, raise_max; destruct (_ <? _); cbn; lia.
        + split; [|split; [|done]]; cbn; lia.
        + rewrite Hallocs, Hstats in *. done.
        + split; [|split; [|done]]; cbn; lia. }
    unfold active_count in Hfreed. lia.
Qed.

Lemma getActiveAllocations_spec_witness :
  let h := analyzer_after
    [RecordAllocation 1 64 "Foo" []; RecordAllocation 2 60 "Bar" [];
     RecordDeallocation 3 1; RecordDeallocation 4 1] in
  exists active,
    getActiveAllocations h = Some (active, h) /\
    NoDup active /\
    (forall r, r ∈ active <->
       exists id a, JS.Map_get id (allocations h) = Some r /\
         objects h !! r = Some a /\ Allocation.status a = Allocation.allocated) /\
    currentLiveAllocations (stats h) <= Z.of_nat (length active).
Proof. intros h. apply (getActiveAllocations_spec h). apply analyzer_after_reachable. Defined.
End LiveFacts.

Section StatisticsFacts.
Import HeapAnalyzer Invariant API Facts.

Lemma generateBucketStats_loop_run entries stats h :
  (forall b bucketed, (b, bucketed) ∈ entries ->
     forall r, r ∈ bucketed -> is_Some (objects h !! r)) ->
  exists res,
    generateBucketStats_loop entries stats h = Some (res, h) /\
    (forall b, b ∉ (fst <$> entries) -> res !! b = stats !! b) /\
    (NoDup (fst <$> entries) ->
     forall b bucketed, (b, bucketed) ∈ entries ->
       exists resolved,
         deref_all bucketed h = Some (resolved, h) /\
         res !! b = Some (bucket_stat resolved)).
Proof.
  revert stats. induction entries as [|[b0 bucketed0] entries IH]; intros stats Hvalid.
  - exists stats. split; [done|]. split; [done|]. by intros _ b bucketed ?%elem_of_nil.
  - destruct (deref_all_valid bucketed0 h) as [resolved0 Hresolved0];
      [intros r; apply (Hvalid b0); left|].
    destruct (IH (<[b0 := bucket_stat resolved0]> stats)) as (res & Hrun & Hother & Hin).
    { intros b bucketed Hb. apply (Hvalid b). by right. }
    exists res. cbn [generateBucketStats_loop].
    split; [by erewrite bind_run by exact Hresolved0|]. split.
    + intros b [Hne Hb]%not_elem_of_cons. cbn in Hne.
      by rewrite Hother, lookup_insert_ne.
    + cbn [fmap list_fmap fst]. intros [Hb0 Hnodup]%NoDup_cons b bucketed
        [Heq|Hb]%elem_of_cons.
      * injection Heq as -> ->. exists resolved0. split; [done|].
        by rewrite Hother, lookup_insert_eq.
      * by apply Hin.
Qed.

Lemma count_status_total entries :
  count_status Allocation.allocated entries + count_status Allocation.freed entries
  = Z.of_nat (length entries).
Proof.
  unfold count_status. induction entries as [|[r a] entries IH]; cbn [List.filter snd];
    [done|].
  destruct (Allocation.status a); repeat case_bool_decide; try congruence;
    cbn [length]; lia.
Qed.

Lemma count_status_allocated bucketed h resolved :
  deref_all bucketed h = Some (resolved, h) ->
  count_status Allocation.allocated resolved
  = Z.of_nat (length (List.filter (allocated_ref (objects h)) bucketed)).
Proof.
  unfold count_status. revert resolved.
  induction bucketed as [|r bucketed IH]; intros resolved Hes.
  - by injection Hes as <-.
  - cbn [deref_all] in Hes.
    apply bind_Some in Hes as (a & h1 & [Ha ->]%deref_Some & Hes).
    apply bind_Some in Hes as (rest & h2 & Hrest & Hes).
    pose proof (deref_all_Some _ _ _ _ Hrest) as [-> _].
    injection Hes as <-. cbn [List.filter snd].
    unfold allocated_ref at 1. rewrite Ha.
    specialize (IH rest Hrest). destruct (bool_decide _); cbn [length]; lia.
Qed.

(** X7: in a state the tracker can reach, [generateBucketStats] has an
    entry for exactly the buckets; the entry of a bucket counts its records
    (at least one), the allocated ones among them and the freed ones, which
    add up to the total, and its utilization rate is allocated over total,
    between 0 and 1: the zero of the empty case is never used. *)
Theorem generateBucketStats_spec (h : HeapAnalyzer.t) :
  analyzer_reachable h ->
  exists stats,
    generateBucketStats h = Some (stats, h) /\
    forall b,
      match buckets h !! b with
      | None => stats !! b = None
      | Some bucketed =>
          exists st,
            stats !! b = Some st /\
            bs_totalAllocations st = Z.of_nat (length bucketed) /\
            0 < bs_totalAllocations st /\
            activeAllocations st
              = Z.of_nat (length (List.filter (allocated_ref (objects h)) bucketed)) /\
            activeAllocations st + freedAllocations st = bs_totalAllocations st /\
            (utilizationRate st
               == activeAllocations st # Z.to_pos (bs_totalAllocations st))%Q /\
            (0 <= utilizationRate st <= 1)%Q
      end.
Proof.
  intros Hreach. apply analyzer_reachable_wf in Hreach as Hwf.
  destruct (generateBucketStats_loop_run (map_to_list (buckets h)) ∅ h)
    as (stats & Hrun & Hother & Hin).
  { intros b bucketed Hb%elem_of_map_to_list r Hr.
    destruct (wf_bucket h Hwf _ _ Hb) as [_ Htable].
    destruct (Htable r Hr) as (a & -> & _). by eexists. }
  exists stats. split; [exact Hrun|]. intros b.
  destruct (buckets h !! b) as [bucketed|] eqn:Hb.
  - destruct (Hin (NoDup_fst_map_to_list _) b bucketed) as (resolved & Hresolved & Hst);
      [by apply elem_of_map_to_list|].
    pose proof (deref_all_Some _ _ _ _ Hresolved) as (_ & Hfst & _).
    assert (length resolved = length bucketed) as Hlen
      by (by rewrite <- Hfst, length_fmap).
    destruct (bucket_members h Hreach _ _ Hb) as [Hnil _].
    assert (0 < Z.of_nat (length resolved)) as Hpos
      by (rewrite Hlen; destruct bucketed; [done|cbn; lia]).
    pose proof (count_status_total resolved) as Htotal.
    pose proof (count_status_allocated _ _ _ Hresolved) as Hactive.
    assert (0 <= count_status Allocation.freed resolved)
      by (unfold count_status; lia).
    exists (bucket_stat resolved). split; [done|].
    unfold bucket_stat.
    cbn [bs_totalAllocations activeAllocations freedAllocations utilizationRate].
    rewrite (proj2 (Z.ltb_lt _ _) Hpos).
    split; [by rewrite Hlen|]. split; [done|]. split; [done|]. split; [done|].
    split; [apply Qred_correct|]. rewrite Qred_correct.
    unfold Qle. cbn. rewrite Z2Pos.id by done. lia.
  - rewrite Hother; [done|].
    intros ([b' bucketed] & -> & Hin'%elem_of_map_to_list)%list_elem_of_fmap.
    cbn in Hb. congruence.
Qed.

Lemma generateBucketStats_spec_witness :
  let h := analyzer_after
    [RecordAllocation 1 64 "Foo" []; RecordAllocation 2 60 "Bar" [];
     RecordAllocation 3 8 "Baz" []; RecordDeallocation 4 2] in
  exists stats,
    generateBucketStats h = Some (stats, h) /\
    forall b,
      match buckets h !! b with
      | None => stats !! b = None
      | Some bucketed =>
          exists st,
            stats !! b = Some st /\
            bs_totalAllocations st = Z.of_nat (length bucketed) /\
            0 < bs_totalAllocations st /\
            activeAllocations st
              = Z.of_nat (length (List.filter (allocated_ref (objects h)) bucketed)) /\
            activeAllocations st + freedAllocations st = bs_totalAllocations st /\
            (utilizationRate st
               == activeAllocations st # Z.to_pos (bs_totalAllocations st))%Q /\
            (0 <= utilizationRate st <= 1)%Q
      end.
Proof. intros h. apply (generateBucketStats_spec h). apply analyzer_after_reachable. Defined.



End StatisticsFacts.

(** *** Further properties of the simulator *)

Section SimulatorFacts.
Import HeapAnalyzer BugSimulator Toolkit BugSimulatorMethods Invariant API Facts.

(** X9: the simulations reject a bad source with a message and change
    nothing, not even the bug id counter: an id that is not in the table is
    [not found]; a freed source cannot overflow or be confused; an allocated
    record cannot be used after free. *)
Theorem simulate_errors (w : Toolkit.t) (now now_event aid overflowSize : Z)
    (wrongType : string) :
  reachable w ->
  match JS.Map_get aid (allocations (analyzer w)) with
  | None =>
      simulateOverflow now now_event aid overflowSize w
        = Some (inl "Source allocation not found", w) /\
      simulateTypeConfusion now now_event aid wrongType w
        = Some (inl "Source allocation not found", w) /\
      simulateUseAfterFree now now_event aid w
        = Some (inl "Allocation not found", w)
  | Some r =>
      exists a,
        objects (analyzer w) !! r = Some a /\
        match Allocation.status a with
        | Allocation.freed =>
            simulateOverflow now now_event aid overflowSize w
              = Some (inl "Source allocation is not active", w) /\
            simulateTypeConfusion now now_event aid wrongType w
              = Some (inl "Source allocation is not active", w)
        | Allocation.allocated =>
            simulateUseAfterFree now now_event aid w
              = Some (inl "Allocation is not freed yet", w)
        end
  end.
Proof.
  intros Hreach. apply reachable_wf in Hreach as [Hwf _].
  destruct w as [h b]. cbn [analyzer] in *.
  unfold simulateOverflow, simulateTypeConfusion, simulateUseAfterFree.
  repeat erewrite on_analyzer_run by reflexivity.
  destruct (JS.Map_get aid (allocations h)) as [r|] eqn:Hget; [|done].
  destruct (wf_deref_table h aid r Hwf Hget) as (a & Ha & _).
  exists a. split; [done|].
  repeat erewrite on_analyzer_run by (apply deref_Some; eauto).
  by destruct (Allocation.status a).
Qed.

Lemma simulate_errors_witness :
  let w := after [Analyzer (RecordAllocation 1 64 "Foo" []);
                  Analyzer (RecordAllocation 2 64 "Bar" []);
                  Analyzer (RecordDeallocation 3 1)] in
  match JS.Map_get 1 (allocations (analyzer w)) with
  | None =>
      simulateOverflow 4 5 1 16 w = Some (inl "Source allocation not found", w) /\
      simulateTypeConfusion 4 5 1 "Bar" w = Some (inl "Source allocation not found", w) /\
      simulateUseAfterFree 4 5 1 w = Some (inl "Allocation not found", w)
  | Some r =>
      exists a,
        objects (analyzer w) !! r = Some a /\
        match Allocation.status a with
        | Allocation.freed =>
            simulateOverflow 4 5 1 16 w
              = Some (inl "Source allocation is not active", w) /\
            simulateTypeConfusion 4 5 1 "Bar" w
              = Some (inl "Source allocation is not active", w)
        | Allocation.allocated =>
            simulateUseAfterFree 4 5 1 w = Some (inl "Allocation is not freed yet", w)
        end
  end.
Proof. intros w. apply (simulate_errors w 4 5 1 16 "Bar"). apply after_reachable. Defined.

Lemma overflow_impact_shape src overflowSize next :
  reusingAllocation (overflow_impact src overflowSize next) = None /\
  exampleAllocation (overflow_impact src overflowSize next) = None.
Proof.
  unfold overflow_impact. destruct next as [[r target]|]; [|done].
  by destruct (bool_decide _).
Qed.

Lemma uaf_impact_shape fa entries :
  corruptedAllocation (uaf_impact fa entries) = None /\
  exampleAllocation (uaf_impact fa entries) = None.
Proof. unfold uaf_impact. by destruct (JS.sort _ _). Qed.

Lemma confusion_impact_shape src wrongType values :
  corruptedAllocation (confusion_impact src wrongType values) = None /\
  reusingAllocation (confusion_impact src wrongType values) = None /\
  confusedType (confusion_impact src wrongType values) = Some wrongType.
Proof.
  unfold confusion_impact. destruct (List.filter _ _); [done|].
  by repeat destruct (_ <? _).
Qed.

(** What a call of the simulator does to the state: nothing, or one bug
    stored under the next id with its event, or a bug removed, or the
    simulator emptied. *)
Lemma simulator_cases c h b w' :
  wf h -> (forall c', c <> Analyzer c') -> run c (Toolkit.mk h b) = Some (tt, w') ->
  w' = Toolkit.mk h b \/
  (exists bug now sid bugType details a,
     w' = Toolkit.mk
            (set_timeline (fun tl => tl ++ [bug_event now sid bugType details]) h)
            (BugSimulator.mk (<[nextBugId b := bug]> (activeBugs b)) (nextBugId b + 1)) /\
     BugSimulator.id bug = nextBugId b /\
     objects h !! source bug = Some a /\ Allocation.id a = sourceId bug /\
     JS.Map_get (sourceId bug) (allocations h) = Some (source bug) /\
     impact_shape bug) \/
  (exists bugId, w' = Toolkit.mk h (BugSimulator.mk (delete bugId (activeBugs b))
                                                   (nextBugId b))) \/
  (c = ResetBugs /\ w' = Toolkit.mk h BugSimulator.new).
Proof.
  intros Hh Hc Hrun.
  destruct c as [c|now now_event sid overflowSize|now now_event freedId
                 |now now_event sid wrongType|bugId|]; cbn [run] in Hrun.
  - by destruct (Hc c).
  - apply bind_Some in Hrun as (res & w1 & Hrun & Hret). injection Hret as <-.
    destruct (status_cases h sid Allocation.allocated)
      as [(r & src & Hget & Hsrc & Hstatus)|Hno].
    + destruct (simulateOverflow_run h b now now_event sid overflowSize r src
                  Hh Hget Hsrc Hstatus) as (adjacent & next & _ & _ & Hnext & Hsim).
      cbv zeta in Hsim. rewrite Hsim in Hrun. injection Hrun as _ <-.
      destruct (wf_deref_table h sid r Hh Hget) as (a & Ha & Hid).
      right; left. eexists _, _, _, _, _, a. split; [reflexivity|].
      cbn [BugSimulator.id source sourceId]. do 4 (split; [done|]).
      apply overflow_impact_shape.
    + destruct (simulateOverflow_error h b now now_event sid overflowSize Hh Hno)
        as [msg Hsim].
      rewrite Hsim in Hrun. injection Hrun as _ <-. by left.
  - apply bind_Some in Hrun as (res & w1 & Hrun & Hret). injection Hret as <-.
    destruct (status_cases h freedId Allocation.freed)
      as [(r & fa & Hget & Hfa & Hstatus)|Hno].
    + destruct (simulateUseAfterFree_run h b now now_event freedId r fa
                  Hh Hget Hfa Hstatus)
        as (bucketed & entries & reuser & Hb & Hentries & _ & Hsim).
      cbv zeta in Hsim. rewrite Hsim in Hrun. injection Hrun as _ <-.
      destruct (wf_deref_table h freedId r Hh Hget) as (a & Ha & Hid).
      right; left. eexists _, _, _, _, _, a. split; [reflexivity|].
      cbn [BugSimulator.id source sourceId]. do 4 (split; [done|]).
      apply uaf_impact_shape.
    + destruct (simulateUseAfterFree_error h b now now_event freedId Hh Hno)
        as [msg Hsim].
      rewrite Hsim in Hrun. injection Hrun as _ <-. by left.
  - apply bind_Some in Hrun as (res & w1 & Hrun & Hret). injection Hret as <-.
    destruct (status_cases h sid Allocation.allocated)
      as [(r & src & Hget & Hsrc & Hstatus)|Hno].
    + destruct (simulateTypeConfusion_run h b now now_event sid wrongType r src
                  Hh Hget Hsrc Hstatus) as (values & Hvalues & Hsim).
      cbv zeta in Hsim. rewrite Hsim in Hrun. injection Hrun as _ <-.
      destruct (wf_deref_table h sid r Hh Hget) as (a & Ha & Hid).
      right; left. eexists _, _, _, _, _, a. split; [reflexivity|].
      cbn [BugSimulator.id source sourceId]. do 4 (split; [done|]).
      apply confusion_impact_shape.
    + destruct (simulateTypeConfusion_error h b now now_event sid wrongType Hh Hno)
        as [msg Hsim].
      rewrite Hsim in Hrun. injection Hrun as _ <-. by left.
  - injection Hrun as <-. right; right; left. by exists bugId.
  - injection Hrun as <-. by right; right; right.
Qed.

(** A call of the simulator returns. *)
Lemma simulator_returns c h b :
  wf h -> (forall c', c <> Analyzer c') -> exists w', run c (Toolkit.mk h b) = Some (tt, w').
Proof.
  intros Hh Hc.
  destruct c as [c|now now_event sid overflowSize|now now_event freedId
                 |now now_event sid wrongType|bugId|]; cbn [run].
  - by destruct (Hc c).
  - destruct (status_cases h sid Allocation.allocated)
      as [(r & src & Hget & Hsrc & Hstatus)|Hno].
    + destruct (simulateOverflow_run h b now now_event sid overflowSize r src
                  Hh Hget Hsrc Hstatus) as (adjacent & next & _ & _ & Hnext & Hsim).
      cbv zeta in Hsim. eexists. by erewrite bind_run by exact Hsim.
    + destruct (simulateOverflow_error h b now now_event sid overflowSize Hh Hno)
        as [msg Hsim].
      eexists. by erewrite bind_run by exact Hsim.
  - destruct (status_cases h freedId Allocation.freed)
      as [(r & fa & Hget & Hfa & Hstatus)|Hno].
    + destruct (simulateUseAfterFree_run h b now now_event freedId r fa
                  Hh Hget Hfa Hstatus)
        as (bucketed & entries & reuser & Hb & Hentries & _ & Hsim).
      cbv zeta in Hsim. eexists. by erewrite bind_run by exact Hsim.
    + destruct (simulateUseAfterFree_error h b now now_event freedId Hh Hno)
        as [msg Hsim].
      eexists. by erewrite bind_run by exact Hsim.
  - destruct (status_cases h sid Allocation.allocated)
      as [(r & src & Hget & Hsrc & Hstatus)|Hno].
    + destruct (simulateTypeConfusion_run h b now now_event sid wrongType r src
                  Hh Hget Hsrc Hstatus) as (values & Hvalues & Hsim).
      cbv zeta in Hsim. eexists. by erewrite bind_run by exact Hsim.
    + destruct (simulateTypeConfusion_error h b now now_event sid wrongType Hh Hno)
        as [msg Hsim].
      eexists. by erewrite bind_run by exact Hsim.
  - by eexists.
  - by eexists.
Qed.

(** X10: a call of the simulator returns and leaves the records, the table,
    the buckets, the id counter and the statistics of the tracker as they
    are; the timeline is unchanged or has one bug event more.  [removeBug]
    and [reset] of the simulator leave the whole tracker as it is. *)
Theorem simulator_frame (c : Call) (w : Toolkit.t) :
  reachable w -> (forall c', c <> Analyzer c') ->
  exists w',
    run c w = Some (tt, w') /\
    objects (analyzer w') = objects (analyzer w) /\
    allocations (analyzer w') = allocations (analyzer w) /\
    buckets (analyzer w') = buckets (analyzer w) /\
    nextId (analyzer w') = nextId (analyzer w) /\
    stats (analyzer w') = stats (analyzer w) /\
    (timeline (analyzer w') = timeline (analyzer w) \/
     exists now sid bugType details,
       timeline (analyzer w')
       = timeline (analyzer w) ++ [bug_event now sid bugType details]) /\
    ((c = ResetBugs \/ exists bugId, c = RemoveBug bugId) -> analyzer w' = analyzer w).
Proof.
  intros Hreach Hc. apply reachable_wf in Hreach as [Hwf _].
  destruct w as [h b]. cbn [analyzer] in *.
  destruct (simulator_returns c h b Hwf Hc) as [w' Hrun].
  exists w'. split; [done|].
  assert ((c = ResetBugs \/ exists bugId, c = RemoveBug bugId) -> analyzer w' = h) as Hsame.
  { intros [->|[bugId ->]]; by injection Hrun as <-. }
  destruct (simulator_cases c h b w' Hwf Hc Hrun)
    as [->|[(bug & now & sid & bugType & details & a & -> & _)
           |[(bugId & ->)|[_ ->]]]]; cbn [analyzer]; try (repeat split; by (done || left)).
  do 5 (split; [done|]). split; [|done]. right. by eexists _, _, _, _.
Qed.

Lemma simulator_frame_witness :
  let w := after [Analyzer (RecordAllocation 1 64 "Foo" []);
                  Analyzer (RecordAllocation 2 64 "Bar" [])] in
  exists w',
    run (SimulateOverflow 3 4 1 16) w = Some (tt, w') /\
    objects (analyzer w') = objects (analyzer w) /\
    allocations (analyzer w') = allocations (analyzer w) /\
    buckets (analyzer w') = buckets (analyzer w) /\
    nextId (analyzer w') = nextId (analyzer w) /\
    stats (analyzer w') = stats (analyzer w) /\
    (timeline (analyzer w') = timeline (analyzer w) \/
     exists now sid bugType details,
       timeline (analyzer w')
       = timeline (analyzer w) ++ [bug_event now sid bugType details]) /\
    ((SimulateOverflow 3 4 1 16 = ResetBugs \/
      exists bugId, SimulateOverflow 3 4 1 16 = RemoveBug bugId) ->
     analyzer w' = analyzer w).
Proof.
  intros w. apply (simulator_frame (SimulateOverflow 3 4 1 16) w).
  - apply after_reachable.
  - discriminate.
Defined.

Lemma call_cases (c : Call) :
  (exists c', c = Analyzer c') \/ (forall c', c <> Analyzer c').
Proof. destruct c; [left; eauto | right; discriminate..]. Qed.

(** The records keep their ids under the calls of the tracker. *)
Lemma run_analyzer_record_id c h h' r a :
  wf h -> run_analyzer c h = Some (tt, h') -> objects h !! r = Some a ->
  exists a', objects h' !! r = Some a' /\ Allocation.id a' = Allocation.id a.
Proof.
  intros Hwf Hrun Ha.
  destruct (run_analyzer_cases c h h' Hwf Hrun)
    as [(now & size & type & metadata & ->)
       |[(now & aid & r0 & a0 & Hget & Ha0 & ->)
        |[(Hobj & _) | ->]]].
  - exists a. split; [|done]. unfold allocated_state. cbn [objects].
    rewrite lookup_app_l; [done|by eapply lookup_lt_Some].
  - unfold freed_state. cbn [objects]. destruct (decide (r = r0)) as [->|Hne].
    + rewrite Ha0 in Ha. injection Ha as <-. exists (Allocation.set_freed now a0).
      split; [|done]. apply list_lookup_insert_eq. by eapply lookup_lt_Some.
    + exists a. by rewrite list_lookup_insert_ne.
  - exists a. by rewrite Hobj.
  - by exists a.
Qed.

Lemma bugs_wf_new : bugs_wf Toolkit.new.
Proof.
  split; [cbn; lia|]. intros bugId bug Hbug.
  change ((∅ : gmap Z BugDetails) !! bugId = Some bug) in Hbug.
  by rewrite lookup_empty in Hbug.
Qed.

(** The calls keep the stored bugs as they should be. *)
Lemma bugs_wf_run c w w' :
  toolkit_wf w -> run c w = Some (tt, w') -> bugs_wf w -> bugs_wf w'.
Proof.
  intros [Hwf _] Hrun [Hnext IH]. destruct w as [h b].
  cbn [analyzer bugSimulator] in *.
  destruct (call_cases c) as [[c' ->]|Hsim].
  { apply on_analyzer_Some in Hrun as (h' & Hrun & ->).
    split; cbn [analyzer bugSimulator] in *; [done|].
    intros bugId bug Hbug.
    destruct (IH _ _ Hbug) as (Hid & Hrange & (a & Ha & Hsid) & Hshape).
    do 2 (split; [done|]). split; [|done].
    destruct (run_analyzer_record_id c' h h' _ a Hwf Hrun Ha) as (a' & Ha' & Hid').
    exists a'. split; [done|]. congruence. }
  destruct (simulator_cases c h b w' Hwf Hsim Hrun)
    as [->|[(bug' & now' & sid' & bugType & details & a' & -> & Hid' & Ha' & Hsid' & _
             & Hshape')
           |[(bugId' & ->)|[_ ->]]]];
    split; cbn [analyzer bugSimulator activeBugs nextBugId]; try done; try lia.
  - intros bugId bug Hbug.
    destruct (decide (bugId = nextBugId b)) as [->|Hne].
    + rewrite lookup_insert_eq in Hbug. injection Hbug as <-.
      split; [done|]. split; [lia|]. split; [by exists a'|done].
    + rewrite lookup_insert_ne in Hbug by done.
      destruct (IH _ _ Hbug) as (? & ? & ? & ?).
      split; [done|]. split; [lia|]. by split.
  - intros bugId bug [_ Hbug]%lookup_delete_Some. by apply IH.
Qed.

(** X11: in every state the toolkit can reach, a stored bug is stored
    under its own id, which is at least 1 and below the bug id counter; the
    record it holds as its source is there and has the bug's [sourceId],
    also after the tracker was reset; and it refers only to the record its
    type gives: an overflow to a corrupted one, a use after free to a
    reusing one, a type confusion to an example, with the confused type it
    was asked for. *)
Theorem activeBugs_invariant (w : Toolkit.t) (bugId : Z) (bug : BugDetails) :
  reachable w ->
  activeBugs (bugSimulator w) !! bugId = Some bug ->
  BugSimulator.id bug = bugId /\
  1 <= bugId < nextBugId (bugSimulator w) /\
  (exists a, objects (analyzer w) !! source bug = Some a /\
             Allocation.id a = sourceId bug) /\
  impact_shape bug.
Proof.
  intros Hreach Hbug.
  assert (bugs_wf w) as [_ Hbugs].
  { clear Hbug. induction Hreach as [|c w w' Hreach IH Hrun]; [apply bugs_wf_new|].
    eapply bugs_wf_run; [by apply reachable_wf|exact Hrun|exact IH]. }
  by apply Hbugs.
Qed.

Lemma activeBugs_invariant_witness :
  let w := after [Analyzer (RecordAllocation 1 64 "Foo" []);
                  Analyzer (RecordAllocation 2 64 "Bar" []);
                  SimulateOverflow 3 4 1 16;
                  SimulateTypeConfusion 5 6 2 "Foo";
                  Analyzer Reset] in
  exists bug,
    activeBugs (bugSimulator w) !! 2 = Some bug /\
    BugSimulator.id bug = 2 /\
    1 <= 2 < nextBugId (bugSimulator w) /\
    (exists a, objects (analyzer w) !! source bug = Some a /\
               Allocation.id a = sourceId bug) /\
    impact_shape bug.
Proof.
  intros w.
  destruct (activeBugs (bugSimulator w) !! 2) as [bug|] eqn:Hbug;
    [|vm_compute in Hbug; discriminate].
  exists bug. split; [reflexivity|].
  apply (activeBugs_invariant w 2 bug); [apply after_reachable|exact Hbug].
Defined.

(** X12: the simulator never overwrites a stored bug and never gives an id
    twice: after a call other than its [reset], a stored bug was stored
    before, or it is the one new bug, under the id the counter had, which
    held no bug, and the counter went up by one.  The counter does not go
    down, also not when a bug is removed. *)
Theorem bug_ids_fresh (c : Call) (w w' : Toolkit.t) :
  reachable w -> c <> ResetBugs -> run c w = Some (tt, w') ->
  nextBugId (bugSimulator w) <= nextBugId (bugSimulator w') /\
  forall bugId bug, activeBugs (bugSimulator w') !! bugId = Some bug ->
    activeBugs (bugSimulator w) !! bugId = Some bug \/
    (activeBugs (bugSimulator w) !! bugId = None /\
     bugId = nextBugId (bugSimulator w) /\
     nextBugId (bugSimulator w') = bugId + 1).
Proof.
  intros Hreach Hc Hrun.
  assert (bugs_wf w) as [Hnext Hbugs].
  { clear Hrun. induction Hreach as [|c0 w0 w1 Hreach IH Hrun]; [apply bugs_wf_new|].
    eapply bugs_wf_run; [by apply reachable_wf|exact Hrun|exact IH]. }
  apply reachable_wf in Hreach as [Hwf _]. destruct w as [h b].
  cbn [analyzer bugSimulator] in *.
  destruct (call_cases c) as [[c' ->]|Hsim'].
  { apply on_analyzer_Some in Hrun as (h' & Hrun & ->). cbn. split; [lia|]. by left. }
  destruct (simulator_cases c h b w' Hwf Hsim' Hrun)
    as [->|[(bug' & now' & sid' & bugType & details & a' & -> & _)
           |[(bugId' & ->)|[-> _]]]]; cbn [analyzer bugSimulator activeBugs nextBugId];
    [| | |done].
  - split; [lia|]. by left.
  - split; [lia|]. intros bugId bug Hbug.
    destruct (decide (bugId = nextBugId b)) as [->|Hne].
    + right. split; [|done].
      destruct (activeBugs b !! nextBugId b) as [old|] eqn:Hold; [|done].
      destruct (Hbugs _ _ Hold) as (_ & ? & _). lia.
    + rewrite lookup_insert_ne in Hbug by done. by left.
  - split; [lia|]. intros bugId bug [_ Hbug]%lookup_delete_Some. by left.
Qed.

Lemma bug_ids_fresh_witness :
  let w := after [Analyzer (RecordAllocation 1 64 "Foo" []);
                  SimulateOverflow 2 3 1 16; RemoveBug 1] in
  let w' := after [Analyzer (RecordAllocation 1 64 "Foo" []);
                   SimulateOverflow 2 3 1 16; RemoveBug 1;
                   SimulateTypeConfusion 4 5 1 "Bar"] in
  nextBugId (bugSimulator w) <= nextBugId (bugSimulator w') /\
  forall bugId bug, activeBugs (bugSimulator w') !! bugId = Some bug ->
    activeBugs (bugSimulator w) !! bugId = Some bug \/
    (activeBugs (bugSimulator w) !! bugId = None /\
     bugId = nextBugId (bugSimulator w) /\
     nextBugId (bugSimulator w') = bugId + 1).
Proof.
  intros w w'. apply (bug_ids_fresh (SimulateTypeConfusion 4 5 1 "Bar") w w').
  - apply after_reachable.
  - discriminate.
  - reflexivity.
Defined.
End SimulatorFacts.

Section SimulatorResults.
Import HeapAnalyzer BugSimulator Toolkit BugSimulatorMethods Invariant API Rules Facts.

(** The first entry that a filter keeps, with the entries before it. *)
Lemma filter_head {A} (f : A -> bool) (l : list A) x rest :
  List.filter f l = x :: rest ->
  exists pre post, l = pre ++ x :: post /\ f x = true /\
    forall y, y ∈ pre -> f y = false.
Proof.
  induction l as [|y l IH]; cbn [List.filter]; [done|].
  destruct (f y) eqn:Hy.
  - intros [= -> <-]. exists [], l. split; [done|]. split; [done|].
    by intros y ?%elem_of_nil.
  - intros (pre & post & -> & Hx & Hpre)%IH. exists (y :: pre), post.
    split; [done|]. split; [done|].
    intros z [->|Hz]%elem_of_cons; [done|by apply Hpre].
Qed.

Lemma filter_nil {A} (f : A -> bool) (l : list A) y :
  List.filter f l = [] -> y ∈ l -> f y = false.
Proof.
  intros Hnil Hy. destruct (f y) eqn:Hf; [|done].
  assert (y ∈ List.filter f l) as Hin by (by apply elem_of_List_filter).
  rewrite Hnil in Hin. by apply elem_of_nil in Hin.
Qed.

(** X13: for a source that is in the table and allocated,
    [simulateTypeConfusion] stores a type confusion bug that names the type
    of the source and the wrong type.  Its example is the first record in
    the order of the table that has the wrong type and is allocated; the
    severity is high when the source is larger than the example and medium
    otherwise.  Without such a record the severity is unknown, with the
    note. *)
Theorem simulateTypeConfusion_spec (w : Toolkit.t) (now now_event sid : Z)
    (wrongType : string) (r : nat) (src : Allocation.t) :
  reachable w ->
  JS.Map_get sid (allocations (analyzer w)) = Some r ->
  objects (analyzer w) !! r = Some src ->
  Allocation.status src = Allocation.allocated ->
  exists bug w',
    simulateTypeConfusion now now_event sid wrongType w = Some (inr bug, w') /\
    activeBugs (bugSimulator w') !! BugSimulator.id bug = Some bug /\
    kind bug = type_confusion wrongType /\
    sourceId bug = sid /\ source bug = r /\
    originalType (impact bug) = Some (Allocation.type src) /\
    confusedType (impact bug) = Some wrongType /\
    match exampleAllocation (impact bug) with
    | Some e =>
        exists ea pre post,
          JS.Map_values (allocations (analyzer w)) = pre ++ e :: post /\
          objects (analyzer w) !! e = Some ea /\
          Allocation.type ea = wrongType /\
          Allocation.status ea = Allocation.allocated /\
          (forall r' a', r' ∈ pre -> objects (analyzer w) !! r' = Some a' ->
             ~ (Allocation.type a' = wrongType /\
                Allocation.status a' = Allocation.allocated)) /\
          severity (impact bug)
            = (if Allocation.size ea <? Allocation.size src then high else medium)
    | None =>
        (forall id' r' a', JS.Map_get id' (allocations (analyzer w)) = Some r' ->
           objects (analyzer w) !! r' = Some a' ->
           ~ (Allocation.type a' = wrongType /\
              Allocation.status a' = Allocation.allocated)) /\
        severity (impact bug) = unknown /\
        notes (impact bug)
          = Some ("No examples of " +:+ wrongType +:+ " available for comparison")
    end.
Proof.
  intros Hreach Hget Hsrc Hstatus. apply reachable_wf in Hreach as [Hwf _].
  destruct w as [h b]. cbn [analyzer bugSimulator] in *.
  destruct (simulateTypeConfusion_run h b now now_event sid wrongType r src
              Hwf Hget Hsrc Hstatus) as (values & Hvalues & Hsim).
  cbv zeta in Hsim. eexists _, _. split; [exact Hsim|].
  cbn [bugSimulator activeBugs BugSimulator.id kind sourceId source impact].
  split; [by rewrite lookup_insert_eq|]. do 3 (split; [reflexivity|]).
  pose proof (deref_all_Some _ _ _ _ Hvalues) as (_ & Hfst & Hrecords).
  rewrite Forall_forall in Hrecords.
  set (f := fun alloc : nat * Allocation.t =>
         bool_decide (Allocation.type (snd alloc) = wrongType)
         && bool_decide (Allocation.status (snd alloc) = Allocation.allocated)).
  assert (forall x, f x = false ->
            ~ (Allocation.type (snd x) = wrongType /\
               Allocation.status (snd x) = Allocation.allocated)) as Hfalse.
  { intros x Hx [Ht Hs]. unfold f in Hx.
    by rewrite !bool_decide_eq_true_2 in Hx. }
  unfold confusion_impact. fold f.
  destruct (List.filter f values) as [|[e ea] rest] eqn:Hfilter.
  - cbn [originalType confusedType exampleAllocation severity notes].
    do 2 (split; [reflexivity|]). split; [|done].
    intros id' r' a' Hget' Ha'.
    apply (Hfalse (r', a')). eapply filter_nil; [exact Hfilter|].
    apply (deref_all_elem_of _ _ _ _ _ Hvalues). split; [|done].
    apply list_elem_of_fmap. exists (id', r'). split; [done|].
    by apply Map_get_elem_of.
  - apply filter_head in Hfilter as (pre & post & -> & He & Hpre).
    apply andb_true_iff in He as [Ht%bool_decide_eq_true Hs%bool_decide_eq_true].
    cbn [snd fst] in *.
    assert (objects h !! e = Some ea) as Hea.
    { apply (Hrecords (e, ea)). apply elem_of_app. right. left. }
    assert (JS.Map_values (allocations h) = (fst <$> pre) ++ e :: (fst <$> post))
      as Hsplit by (by rewrite <- Hfst, fmap_app).
    assert (forall r' a', r' ∈ (fst <$> pre) -> objects h !! r' = Some a' ->
              ~ (Allocation.type a' = wrongType /\
                 Allocation.status a' = Allocation.allocated)) as Hbefore.
    { intros r' a' ([r'' a''] & -> & Hin)%list_elem_of_fmap Ha'. cbn in Ha'.
      assert (objects h !! r'' = Some a'') as Ha''.
      { apply (Hrecords (r'', a'')). apply elem_of_app. by left. }
      rewrite Ha' in Ha''. injection Ha'' as ->.
      by apply (Hfalse (r'', a'')), Hpre. }
    destruct (Z.ltb_spec 0 (Allocation.size src - Allocation.size ea));
      [|destruct (Z.ltb_spec (Allocation.size src - Allocation.size ea) 0)];
      cbn [originalType confusedType exampleAllocation severity];
      (do 2 (split; [reflexivity|]));
      exists ea, (fst <$> pre), (fst <$> post);
      (do 5 (split; [done|]));
      destruct (Z.ltb_spec (Allocation.size ea) (Allocation.size src)); (done || lia).
Qed.

Lemma simulateTypeConfusion_spec_witness :
  let w := after [Analyzer (RecordAllocation 1 64 "Foo" []);
                  Analyzer (RecordAllocation 2 32 "Bar" []);
                  Analyzer (RecordAllocation 3 16 "Bar" []);
                  Analyzer (RecordDeallocation 4 2)] in
  let src := Allocation.mk 1 64 "Foo" 1 [] Allocation.allocated None in
  exists bug w',
    simulateTypeConfusion 5 6 1 "Bar" w = Some (inr bug, w') /\
    activeBugs (bugSimulator w') !! BugSimulator.id bug = Some bug /\
    kind bug = type_confusion "Bar" /\
    sourceId bug = 1 /\ source bug = 0%nat /\
    originalType (impact bug) = Some (Allocation.type src) /\
    confusedType (impact bug) = Some "Bar" /\
    match exampleAllocation (impact bug) with
    | Some e =>
        exists ea pre post,
          JS.Map_values (allocations (analyzer w)) = pre ++ e :: post /\
          objects (analyzer w) !! e = Some ea /\
          Allocation.type ea = "Bar" /\
          Allocation.status ea = Allocation.allocated /\
          (forall r' a', r' ∈ pre -> objects (analyzer w) !! r' = Some a' ->
             ~ (Allocation.type a' = "Bar" /\
                Allocation.status a' = Allocation.allocated)) /\
          severity (impact bug)
            = (if Allocation.size ea <? Allocation.size src then high else medium)
    | None =>
        (forall id' r' a', JS.Map_get id' (allocations (analyzer w)) = Some r' ->
           objects (analyzer w) !! r' = Some a' ->
           ~ (Allocation.type a' = "Bar" /\
              Allocation.status a' = Allocation.allocated)) /\
        severity (impact bug) = unknown /\
        notes (impact bug)
          = Some ("No examples of " +:+ "Bar" +:+ " available for comparison")
    end.
Proof.
  intros w src. apply (simulateTypeConfusion_spec w 5 6 1 "Bar" 0%nat src).
  - apply after_reachable.
  - reflexivity.
  - reflexivity.
  - reflexivity.
Defined.
End SimulatorResults.

Section ScoreFacts.
Import HeapAnalyzer BugSimulator Toolkit BugSimulatorMethods Invariant API Rules Facts.

(** X14: [assessExploitability] changes nothing.  An id without a bug gives
    [Bug not found].  For a stored bug the score is between -20 and 60 and
    the rating is low, medium or high; it is high only when a type that
    contains "Function" or "ArrayBuffer" is involved (the corrupted record,
    the reusing record, or the wrong type), and never when the bug names no
    impacted record. *)
Theorem assessExploitability_bounds (w : Toolkit.t) (bugId : Z) :
  reachable w ->
  match activeBugs (bugSimulator w) !! bugId with
  | None => assessExploitability bugId w = Some (inl "Bug not found", w)
  | Some bug =>
      exists a,
        assessExploitability bugId w = Some (inr a, w) /\
        -20 <= score a <= 60 /\
        (overall a = low \/ overall a = medium \/ overall a = high) /\
        (overall a = high ->
           match kind bug with
           | overflow _ =>
               exists r target,
                 corruptedAllocation (impact bug) = Some r /\
                 objects (analyzer w) !! r = Some target /\
                 Function_or_ArrayBuffer (Allocation.type target)
           | use_after_free =>
               exists r reuser,
                 reusingAllocation (impact bug) = Some r /\
                 objects (analyzer w) !! r = Some reuser /\
                 Function_or_ArrayBuffer (Allocation.type reuser)
           | type_confusion wrongType => Function_or_ArrayBuffer wrongType
           end) /\
        (corruptedAllocation (impact bug) = None ->
         reusingAllocation (impact bug) = None ->
         exampleAllocation (impact bug) = None -> overall a <> high)
  end.
Proof.
  intros Hreach. apply reachable_wf in Hreach as [_ Hbugs].
  destruct w as [h b]. cbn [analyzer bugSimulator] in *.
  unfold assessExploitability. mstep. cbn [bugSimulator].
  destruct (activeBugs b !! bugId) as [bug|] eqn:Hlookup; [|done].
  destruct (assess_bug_points h bug (Hbugs bugId bug Hlookup))
    as (a & points & Hrun & Hscore & Hpoints).
  erewrite on_analyzer_run by exact Hrun.
  erewrite on_analyzer_run by reflexivity.
  eexists. split; [reflexivity|].
  set (a' := if 100 <? totalAllocations (stats h) then _ else a).
  assert (score a' = points \/ score a' = points + 10) as Hbonus.
  { unfold a'. destruct (_ <? _); cbn; lia. }
  pose proof (set_overall_tier a') as (Hhigh & Hmedium & Hlow).
  assert (score (set_overall a') = score a') as Hsame by done.
  rewrite Hsame in *.
  split; [|split; [|split]].
  - destruct Hpoints;
      repeat match goal with
      | H : _ \/ _ |- _ => destruct H
      | H : _ /\ _ |- _ => destruct H
      end; subst; lia.
  - unfold set_overall. cbn [overall]. repeat destruct (_ <=? _); eauto.
  - intros Hov%Hhigh.
    destruct Hpoints as [n r target c s Hkind Hr Htarget Hc Hs
                        |n Hkind Hr
                        |r reuser freed c s Hkind Hr Hreuser Hfreed Hc Hs
                        |Hkind Hr
                        |wrongType r example src c s Hkind Hr Hex Hsrc Hc Hs
                        |wrongType c Hkind Hr Hc]; rewrite Hkind.
    + destruct Hc as [[Hcrit _]|[_ ->]]; [by eauto|].
      destruct Hs as [[_ ->]|[[_ ->]|[_ ->]]]; lia.
    + lia.
    + destruct Hc as [[Hcrit _]|[_ ->]]; [by eauto|].
      destruct Hs as [[_ ->]|[_ ->]]; lia.
    + lia.
    + destruct Hc as [[Hcrit _]|[_ ->]]; [done|].
      destruct Hs as [[_ ->]|[_ ->]]; lia.
    + destruct Hc as [[Hcrit _]|[_ ->]]; [done|]. lia.
  - intros Hc Hr He Hov%Hhigh.
    destruct Hpoints;
      repeat match goal with
      | H : _ \/ _ |- _ => destruct H
      | H : _ /\ _ |- _ => destruct H
      end; subst; try congruence; lia.
Qed.

Lemma assessExploitability_bounds_witness :
  let w := after
    [Analyzer (RecordAllocation 1 64 "Src" []);
     Analyzer (RecordAllocation 2 64 "ArrayBufferView" []);
     SimulateOverflow 3 4 1 8] in
  match activeBugs (bugSimulator w) !! 1 with
  | None => assessExploitability 1 w = Some (inl "Bug not found", w)
  | Some bug =>
      exists a,
        assessExploitability 1 w = Some (inr a, w) /\
        -20 <= score a <= 60 /\
        (overall a = low \/ overall a = medium \/ overall a = high) /\
        (overall a = high ->
           match kind bug with
           | overflow _ =>
               exists r target,
                 corruptedAllocation (impact bug) = Some r /\
                 objects (analyzer w) !! r = Some target /\
                 Function_or_ArrayBuffer (Allocation.type target)
           | use_after_free =>
               exists r reuser,
                 reusingAllocation (impact bug) = Some r /\
                 objects (analyzer w) !! r = Some reuser /\
                 Function_or_ArrayBuffer (Allocation.type reuser)
           | type_confusion wrongType => Function_or_ArrayBuffer wrongType
           end) /\
        (corruptedAllocation (impact bug) = None ->
         reusingAllocation (impact bug) = None ->
         exampleAllocation (impact bug) = None -> overall a <> high)
  end.
Proof. intros w. apply (assessExploitability_bounds w 1). apply after_reachable. Defined.

Lemma assessOverflowSeverity_monotone source target n m :
  n <= m ->
  rank (assessOverflowSeverity source target n)
  <= rank (assessOverflowSeverity source target m) /\
  assessOverflowSeverity source target n <> unknown.
Proof.
  intros Hle. unfold assessOverflowSeverity.
  repeat destruct (JS.some_included _ _); [by split..|].
  destruct (Z.ltb_spec 100 n), (Z.ltb_spec 100 m), (Z.ltb_spec 16 n), (Z.ltb_spec 16 m);
    cbn; (split; [lia|done]).
Qed.

(** X15: a larger overflow from the same source in the same state is
    never rated lower: [simulateOverflow] with [n <= m] names the same
    corrupted record in both bugs, and the severity for [m] is at least the
    one for [n] in the order low, medium, high, critical; it is never
    unknown. *)
Theorem simulateOverflow_monotone (w : Toolkit.t) (now now_event sid n m : Z)
    (r : nat) (src : Allocation.t) :
  reachable w ->
  JS.Map_get sid (allocations (analyzer w)) = Some r ->
  objects (analyzer w) !! r = Some src ->
  Allocation.status src = Allocation.allocated ->
  n <= m ->
  exists bug_n bug_m w_n w_m,
    simulateOverflow now now_event sid n w = Some (inr bug_n, w_n) /\
    simulateOverflow now now_event sid m w = Some (inr bug_m, w_m) /\
    corruptedAllocation (impact bug_n) = corruptedAllocation (impact bug_m) /\
    rank (severity (impact bug_n)) <= rank (severity (impact bug_m)) /\
    severity (impact bug_n) <> unknown.
Proof.
  intros Hreach Hget Hsrc Hstatus Hle. apply reachable_wf in Hreach as [Hwf _].
  destruct w as [h b]. cbn [analyzer bugSimulator] in *.
  destruct (simulateOverflow_run h b now now_event sid n r src Hwf Hget Hsrc Hstatus)
    as (adjacent & next & Hadj & Hfst & Hobj & Hsim_n).
  destruct (simulateOverflow_run h b now now_event sid m r src Hwf Hget Hsrc Hstatus)
    as (adjacent' & next' & Hadj' & Hfst' & Hobj' & Hsim_m).
  rewrite Hadj in Hadj'. injection Hadj' as <-.
  assert (next' = next) as ->.
  { destruct next as [[x a]|], next' as [[x' a']|]; cbn in *; try congruence.
    assert (x' = x) as -> by congruence.
    pose proof (Hobj x a eq_refl). pose proof (Hobj' x a' eq_refl). congruence. }
  cbv zeta in Hsim_n, Hsim_m. eexists _, _, _, _.
  split; [exact Hsim_n|]. split; [exact Hsim_m|]. cbn [impact].
  unfold overflow_impact. destruct next as [[x target]|]; [|by cbn].
  destruct (bool_decide _); cbn [corruptedAllocation severity]; [|by cbn].
  split; [done|]. by apply assessOverflowSeverity_monotone.
Qed.

Lemma simulateOverflow_monotone_witness :
  let w := after
    [Analyzer (RecordAllocation 1 64 "Src" []);
     Analyzer (RecordAllocation 2 64 "Data" [])] in
  let src := Allocation.mk 1 64 "Src" 1 [] Allocation.allocated None in
  exists bug_n bug_m w_n w_m,
    simulateOverflow 3 4 1 16 w = Some (inr bug_n, w_n) /\
    simulateOverflow 3 4 1 17 w = Some (inr bug_m, w_m) /\
    corruptedAllocation (impact bug_n) = corruptedAllocation (impact bug_m) /\
    rank (severity (impact bug_n)) <= rank (severity (impact bug_m)) /\
    severity (impact bug_n) <> unknown.
Proof.
  intros w src. apply (simulateOverflow_monotone w 3 4 1 16 17 0%nat src).
  - apply after_reachable.
  - reflexivity.
  - reflexivity.
  - reflexivity.
  - lia.
Defined.
End ScoreFacts.

(** *** Further properties of the strategy generator *)

Section GeneratorFacts.
Import HeapAnalyzer BugSimulator Toolkit BugSimulatorMethods Invariant API Rules.
Import GroomingStrategyGenerator.
Context `{CodeTemplates}.
Variable generateOverflowStrategy : BugDetails -> M Toolkit.t (string + Strategy).
Variable generateUafStrategy : BugDetails -> M Toolkit.t (string + Strategy).


End GeneratorFacts.

Section GeneratorExample.
Import HeapAnalyzer BugSimulator Toolkit BugSimulatorMethods Invariant API Rules.
Import GroomingStrategyGenerator.

End GeneratorExample.

Section NeighbourFacts.
Import HeapAnalyzer BugSimulator Toolkit BugSimulatorMethods Invariant API Rules.
Import GroomingStrategyGenerator.

Lemma first_match_elem {A} (f : A -> bool) (l : list A) x :
  x ∈ match List.filter f l with first :: _ => [first] | [] => [] end ->
  x ∈ l /\ f x = true.
Proof.
  destruct (List.filter f l) as [|first rest] eqn:Hfilter; [by intros ?%elem_of_nil|].
  intros ->%list_elem_of_singleton. apply elem_of_List_filter.
  rewrite Hfilter. left.
Qed.

Lemma first_match_nil {A} (f : A -> bool) (l : list A) y :
  match List.filter f l with first :: _ => [first] | [] => [] end = [] ->
  y ∈ l -> f y = false.
Proof.
  destruct (List.filter f l) as [|first rest] eqn:Hfilter; [|done].
  intros _ Hy. destruct (f y) eqn:Hf; [|done].
  assert (y ∈ List.filter f l) as Hin by (by apply elem_of_List_filter).
  rewrite Hfilter in Hin. by apply elem_of_nil in Hin.
Qed.

Lemma first_match_length {A} (f : A -> bool) (l : list A) :
  (length match List.filter f l with first :: _ => [first] | [] => [] end <= 1)%nat.
Proof. destruct (List.filter f l); cbn; lia. Qed.

(** X17: in a state the tracker can reach, [findDesirableNeighbors]
    returns at most three records; each is in the bucket of the size of the
    source, allocated, and not the source.  The result is empty only when
    the bucket has no such record, and a record whose type contains none of
    "ArrayBuffer", "Function", "WebAssembly" is returned only when the
    bucket has no such record of one of these types. *)
Theorem findDesirableNeighbors_spec (h : HeapAnalyzer.t) (source : Allocation.t)
    (overflowSize : Z) :
  analyzer_reachable h ->
  let bucketed :=
    default [] (buckets h !! findBucketForSize (Allocation.size source)) in
  let candidate (r : nat) (a : Allocation.t) :=
    r ∈ bucketed /\ objects h !! r = Some a /\
    Allocation.status a = Allocation.allocated /\
    Allocation.id a <> Allocation.id source in
  let critical (a : Allocation.t) :=
    matches_any ["ArrayBuffer"; "Function"; "WebAssembly"] (Allocation.type a) in
  exists result,
    findDesirableNeighbors source overflowSize h = Some (result, h) /\
    (length result <= 3)%nat /\
    (forall r a, (r, a) ∈ result -> candidate r a) /\
    (result = [] -> forall r a, ~ candidate r a) /\
    (forall r a, (r, a) ∈ result -> ~ critical a ->
       length result = 1%nat /\ forall r' a', candidate r' a' -> ~ critical a').
Proof.
  intros Hreach bucketed candidate critical.
  apply analyzer_reachable_wf in Hreach as Hwf.
  destruct (deref_all_valid bucketed h) as [es Hes].
  { intros r Hr. unfold bucketed in Hr.
    destruct (buckets h !! _) as [found|] eqn:Hb; [|by apply elem_of_nil in Hr].
    destruct (wf_bucket h Hwf _ _ Hb) as [_ Htable].
    destruct (Htable r Hr) as (a & -> & _). by eexists. }
  pose proof (fun r a => deref_all_elem_of _ _ _ r a Hes) as Helem.
  assert (forall type r a, desirable_of_type source type (r, a) = true <->
            JS.includes (Allocation.type a) type = true /\
            Allocation.id a <> Allocation.id source /\
            Allocation.status a = Allocation.allocated) as Hof_type.
  { intros type r a. unfold desirable_of_type. cbn [snd].
    rewrite !andb_true_iff, negb_true_iff, bool_decide_eq_false, bool_decide_eq_true.
    tauto. }
  assert (forall r a,
            desirable_other source ["ArrayBuffer"; "Function"; "WebAssembly"] (r, a) = true <->
            ~ critical a /\
            Allocation.id a <> Allocation.id source /\
            Allocation.status a = Allocation.allocated) as Hother.
  { intros r a. unfold desirable_other. cbn [snd].
    rewrite !andb_true_iff, !negb_true_iff, bool_decide_eq_false, bool_decide_eq_true,
      some_included_false.
    tauto. }
  assert (forall a, critical a <->
            exists type, type ∈ ["ArrayBuffer"; "Function"; "WebAssembly"] /\
                         JS.includes (Allocation.type a) type = true) as Hcritical.
  { intros a. unfold critical, matches_any. by setoid_rewrite includes_spec. }
  unfold findDesirableNeighbors.
  erewrite bind_run by reflexivity. fold bucketed.
  erewrite bind_run by exact Hes. cbn [flat_map]. rewrite app_nil_r.
  set (first_of := fun type =>
         match List.filter (desirable_of_type source type) es with
         | first :: _ => [first]
         | [] => []
         end).
  fold (first_of "ArrayBuffer") (first_of "Function") (first_of "WebAssembly").
  assert (forall type r a, (r, a) ∈ first_of type ->
            candidate r a /\ JS.includes (Allocation.type a) type = true) as Hfirst.
  { intros type r a [Hin Hd]%first_match_elem. apply Helem in Hin as [Hr Ha].
    apply Hof_type in Hd as (Hinc & Hid & Hst). done. }
  destruct (first_of "ArrayBuffer" ++ first_of "Function" ++ first_of "WebAssembly")
    as [|x result] eqn:Hresult.
  - apply app_eq_nil in Hresult as [Hab [Hfn Hwa]%app_eq_nil].
    assert (forall r a, candidate r a -> ~ critical a) as Hnone.
    { intros r a (Hr & Ha & Hst & Hid) (type & Htype & Hinc)%Hcritical.
      assert (desirable_of_type source type (r, a) = false) as Hfalse.
      { assert ((r, a) ∈ es) as Hin by (by apply Helem).
        decompose_list_elem_of; subst type.
        - by apply (first_match_nil _ es); [exact Hab|].
        - by apply (first_match_nil _ es); [exact Hfn|].
        - by apply (first_match_nil _ es); [exact Hwa|]. }
      assert (desirable_of_type source type (r, a) = true) by (by apply Hof_type).
      congruence. }
    destruct (List.filter (desirable_other source _) es) as [|[r0 a0] rest] eqn:Hfilter.
    + exists []. split; [done|]. split; [cbn; lia|].
      split; [by intros r a ?%elem_of_nil|]. split; [|by intros r a ?%elem_of_nil].
      intros _ r a Hcand. pose proof Hcand as (Hr & Ha & Hst & Hid).
      assert (desirable_other source ["ArrayBuffer"; "Function"; "WebAssembly"] (r, a)
              = true) as Hd by (apply Hother; split; [by eapply Hnone|done]).
      assert ((r, a) ∈ List.filter
                (desirable_other source ["ArrayBuffer"; "Function"; "WebAssembly"]) es)
        as Hin by (apply elem_of_List_filter; split; [by apply Helem|done]).
      rewrite Hfilter in Hin. by apply elem_of_nil in Hin.
    + exists [(r0, a0)]. split; [done|]. split; [cbn; lia|].
      assert ((r0, a0) ∈ List.filter
                (desirable_other source ["ArrayBuffer"; "Function"; "WebAssembly"]) es)
        as [Hin Hd]%elem_of_List_filter by (rewrite Hfilter; left).
      apply Helem in Hin as [Hr Ha]. apply Hother in Hd as (Hnc & Hid & Hst).
      split; [by intros r a [= -> ->]%list_elem_of_singleton|].
      split; [done|]. intros r a _ _. split; [done|exact Hnone].
  - exists (x :: result). split; [done|]. rewrite <- Hresult. split.
    { rewrite !length_app.
      pose proof (first_match_length (desirable_of_type source "ArrayBuffer") es).
      pose proof (first_match_length (desirable_of_type source "Function") es).
      pose proof (first_match_length (desirable_of_type source "WebAssembly") es).
      unfold first_of. lia. }
    assert (forall r a,
              (r, a) ∈ first_of "ArrayBuffer" ++ first_of "Function"
                       ++ first_of "WebAssembly" ->
              candidate r a /\ critical a) as Hall.
    { intros r a Hin. rewrite !elem_of_app in Hin.
      destruct Hin as [Hin|[Hin|Hin]]; apply Hfirst in Hin as [Hcand Hinc];
        (split; [done|]); apply Hcritical; eexists; (split; [|exact Hinc]);
        first [left | right; left | right; right; left]. }
    split; [intros r a Hin; by apply Hall|].
    split; [by rewrite Hresult|].
    intros r a Hin Hnc. by destruct (Hall r a Hin).
Qed.

Lemma findDesirableNeighbors_spec_witness :
  let h := analyzer_after
    [RecordAllocation 1 64 "Src" []; RecordAllocation 2 60 "Text" [];
     RecordAllocation 3 64 "ArrayBufferView" []; RecordAllocation 4 64 "Function" [];
     RecordDeallocation 5 4] in
  let source := Allocation.mk 1 64 "Src" 1 [] Allocation.allocated None in
  let bucketed :=
    default [] (buckets h !! findBucketForSize (Allocation.size source)) in
  let candidate (r : nat) (a : Allocation.t) :=
    r ∈ bucketed /\ objects h !! r = Some a /\
    Allocation.status a = Allocation.allocated /\
    Allocation.id a <> Allocation.id source in
  let critical (a : Allocation.t) :=
    matches_any ["ArrayBuffer"; "Function"; "WebAssembly"] (Allocation.type a) in
  exists result,
    findDesirableNeighbors source 16 h = Some (result, h) /\
    (length result <= 3)%nat /\
    (forall r a, (r, a) ∈ result -> candidate r a) /\
    (result = [] -> forall r a, ~ candidate r a) /\
    (forall r a, (r, a) ∈ result -> ~ critical a ->
       length result = 1%nat /\ forall r' a', candidate r' a' -> ~ critical a').
Proof.
  intros h source. apply (findDesirableNeighbors_spec h source 16).
  apply analyzer_after_reachable.
Defined.
End NeighbourFacts.

Section SprayFacts.
Import HeapAnalyzer Invariant API.
Import GroomingStrategyGenerator.

Lemma find_first {A} (f : A -> bool) (l : list A) :
  match List.find f l with
  | Some x => exists before after,
      l = before ++ x :: after /\ f x = true /\ forall y, y ∈ before -> f y = false
  | None => forall y, y ∈ l -> f y = false
  end.
Proof.
  induction l as [|x l IH]; cbn [List.find]; [by intros y ?%elem_of_nil|].
  destruct (f x) eqn:Hx.
  - exists [], l. split; [done|]. split; [done|]. by intros y ?%elem_of_nil.
  - destruct (List.find f l) as [z|].
    + destruct IH as (before & after & -> & Hz & Hbefore).
      exists (x :: before), after. split; [done|]. split; [done|].
      intros y [->|Hy]%elem_of_cons; [done|by apply Hbefore].
    + intros y [->|Hy]%elem_of_cons; [done|by apply IH].
Qed.

(** X18: in a state the tracker can reach, [findBestSprayCandidate]
    returns the first of "ArrayBuffer", "Uint8Array", "Object", "Array" that
    is the type of a record of the table, allocated or freed, the name taken
    as a whole; when no record has one of these types it returns
    "ArrayBuffer". *)
Theorem findBestSprayCandidate_spec (h : HeapAnalyzer.t) (targetSize : Z) :
  analyzer_reachable h ->
  let used (type : string) :=
    exists id r a, JS.Map_get id (allocations h) = Some r /\
      objects h !! r = Some a /\ Allocation.type a = type in
  exists type,
    findBestSprayCandidate targetSize h = Some (type, h) /\
    ((used type /\
      exists before after,
        ["ArrayBuffer"; "Uint8Array"; "Object"; "Array"] = before ++ type :: after /\
        forall other, other ∈ before -> ~ used other) \/
     (type = "ArrayBuffer" /\
      forall other, other ∈ ["ArrayBuffer"; "Uint8Array"; "Object"; "Array"] ->
        ~ used other)).
Proof.
  intros Hreach used. apply analyzer_reachable_wf in Hreach as Hwf.
  destruct (deref_all_valid (JS.Map_values (allocations h)) h) as [values Hvalues];
    [intros r; by apply wf_values_valid|].
  set (usedTypes := (fun allocation : nat * Allocation.t =>
                       Allocation.type (snd allocation)) <$> values).
  assert (forall type, bool_decide (type ∈ usedTypes) = true <-> used type) as Hused.
  { intros type. rewrite bool_decide_eq_true. unfold usedTypes, used.
    rewrite list_elem_of_fmap. split.
    - intros ([r a] & -> & Hin). cbn.
      apply (deref_all_elem_of _ _ _ _ _ Hvalues) in Hin as [Hr Ha].
      apply list_elem_of_fmap in Hr as ([aid r'] & -> & Hr). cbn in *.
      exists aid, r', a. split; [|done]. apply elem_of_Map_get; [apply Hwf|done].
    - intros (aid & r & a & Hget & Ha & <-). exists (r, a). split; [done|].
      apply (deref_all_elem_of _ _ _ _ _ Hvalues). split; [|done].
      apply list_elem_of_fmap. exists (aid, r). split; [done|].
      by apply Map_get_elem_of. }
  assert (forall type, bool_decide (type ∈ usedTypes) = false -> ~ used type) as Hnot.
  { intros type Hfalse Htype%Hused. congruence. }
  unfold findBestSprayCandidate. mstep. erewrite bind_run by exact Hvalues.
  fold usedTypes.
  pose proof (find_first (fun type => bool_decide (type ∈ usedTypes))
                ["ArrayBuffer"; "Uint8Array"; "Object"; "Array"]) as Hfind.
  destruct (List.find _ _) as [type|].
  - destruct Hfind as (before & after & Heq & Htype & Hbefore).
    exists type. split; [done|]. left. split; [by apply Hused|].
    exists before, after. split; [done|]. intros other Hin. by apply Hnot, Hbefore.
  - exists "ArrayBuffer". split; [done|]. right. split; [done|].
    intros other Hin. by apply Hnot, Hfind.
Qed.

Lemma findBestSprayCandidate_spec_witness :
  let h := analyzer_after
    [RecordAllocation 1 64 "ArrayBufferView" []; RecordAllocation 2 60 "Object" [];
     RecordDeallocation 3 2] in
  let used (type : string) :=
    exists id r a, JS.Map_get id (allocations h) = Some r /\
      objects h !! r = Some a /\ Allocation.type a = type in
  exists type,
    findBestSprayCandidate 64 h = Some (type, h) /\
    ((used type /\
      exists before after,
        ["ArrayBuffer"; "Uint8Array"; "Object"; "Array"] = before ++ type :: after /\
        forall other, other ∈ before -> ~ used other) \/
     (type = "ArrayBuffer" /\
      forall other, other ∈ ["ArrayBuffer"; "Uint8Array"; "Object"; "Array"] ->
        ~ used other)).
Proof.
  intros h. apply (findBestSprayCandidate_spec h 64). apply analyzer_after_reachable.
Defined.
End SprayFacts.

(** *** Properties of the pattern detector *)

Section PatternFacts.
Import PatternDetector Facts.

Lemma hamming_nonneg window pattern : 0 <= hamming window pattern.
Proof.
  revert window. induction pattern as [|p pattern IH]; intros window; cbn; [lia|].
  specialize (IH (tail window)). destruct window as [|b window]; [lia|].
  destruct (b =? p); lia.
Qed.

(** The inner loop stays within the tolerance exactly when the number of
    differing positions does, and then it has counted them all. *)
Lemma count_mismatches_hamming window patternView tolerance mismatches :
  (count_mismatches window patternView tolerance mismatches <= tolerance <->
   mismatches + hamming window patternView <= tolerance) /\
  (count_mismatches window patternView tolerance mismatches <= tolerance ->
   count_mismatches window patternView tolerance mismatches
   = mismatches + hamming window patternView).
Proof.
  revert window mismatches.
  induction patternView as [|p patternView IH]; intros window mismatches;
    cbn [count_mismatches hamming]; [split; [|intros _]; lia|].
  pose proof (hamming_nonneg (tail window) patternView) as Hnonneg.
  assert (match window with b :: _ => negb (b =? p) | [] => true end = true /\
          match window with b :: _ => if b =? p then 0 else 1 | [] => 1 end = 1 \/
          match window with b :: _ => negb (b =? p) | [] => true end = false /\
          match window with b :: _ => if b =? p then 0 else 1 | [] => 1 end = 0)
    as [[-> ->]|[-> ->]].
  { destruct window as [|b window]; [by left|]. destruct (b =? p); [by right|by left]. }
  - destruct (Z.ltb_spec tolerance (mismatches + 1)).
    + split; [split|]; lia.
    + destruct (IH (tail window) (mismatches + 1)) as [Hiff Heq].
      split; [rewrite Hiff; lia|]. intros Hle. rewrite Heq by done. lia.
  - destruct (IH (tail window) mismatches) as [Hiff Heq].
    split; [rewrite Hiff; lia|]. intros Hle. rewrite Heq by done. lia.
Qed.

Lemma elem_of_flat_map {A B} (f : A -> list B) (l : list A) y :
  y ∈ flat_map f l <-> exists x, x ∈ l /\ y ∈ f x.
Proof.
  rewrite list_elem_of_In, in_flat_map. by setoid_rewrite list_elem_of_In.
Qed.

(** The offsets of the matches found from offset [start] on go up. *)
Lemma flat_map_seq_sorted (f : nat -> list Match) (start len : nat) :
  (forall i m, m ∈ f i -> offset m = Z.of_nat i) ->
  (forall i, length (f i) <= 1)%nat ->
  StronglySorted Z.lt (offset <$> flat_map f (seq start len)) /\
  Forall (fun m => Z.of_nat start <= offset m) (flat_map f (seq start len)).
Proof.
  intros Hoffset Hone. revert start.
  induction len as [|len IH]; intros start; cbn [seq flat_map];
    [split; constructor|].
  destruct (IH (S start)) as [Hsorted Hbound].
  split.
  - specialize (Hone start). specialize (Hoffset start).
    destruct (f start) as [|m [|m' rest]]; cbn in *; [done| |lia].
    constructor; [done|]. apply Forall_fmap.
    eapply Forall_impl; [exact Hbound|]. cbn. intros m' Hm'.
    rewrite (Hoffset m) by left. lia.
  - apply Forall_app. split.
    + apply Forall_forall. intros m Hm. rewrite (Hoffset start m Hm). lia.
    + eapply Forall_impl; [exact Hbound|]. cbn. lia.
Qed.

(** X19: [findPattern] reports exactly the offsets at which the pattern
    fits into the buffer and differs from it in at most [tolerance]
    positions, each once and in ascending order, and a match is exact when
    no position differs. *)
Theorem findPattern_spec (bufferView patternView : list Z) (tolerance : Z) :
  (forall m, m ∈ findPattern bufferView patternView tolerance <->
     exists i : nat,
       (i + length patternView <= length bufferView)%nat /\
       hamming (drop i bufferView) patternView <= tolerance /\
       m = mkMatch (Z.of_nat i) (hamming (drop i bufferView) patternView =? 0)) /\
  StronglySorted Z.lt (offset <$> findPattern bufferView patternView tolerance).
Proof.
  unfold findPattern. cbv zeta.
  set (limit := Z.of_nat (length bufferView) - Z.of_nat (length patternView) + 1).
  set (f := fun i : nat =>
    if count_mismatches (drop i bufferView) patternView tolerance 0 <=? tolerance
    then [mkMatch (Z.of_nat i)
            (count_mismatches (drop i bufferView) patternView tolerance 0 =? 0)]
    else []).
  assert (forall i m, m ∈ f i <->
            hamming (drop i bufferView) patternView <= tolerance /\
            m = mkMatch (Z.of_nat i) (hamming (drop i bufferView) patternView =? 0))
    as Hf.
  { intros i m. unfold f.
    destruct (count_mismatches_hamming (drop i bufferView) patternView tolerance 0)
      as [Hiff Heq].
    destruct (Z.leb_spec (count_mismatches (drop i bufferView) patternView tolerance 0)
                tolerance) as [Hle|Hgt].
    - rewrite list_elem_of_singleton, (Heq Hle). cbn. split.
      + intros ->. split; [apply Hiff in Hle; lia|done].
      + by intros [_ ->].
    - split; [by intros ?%elem_of_nil|]. intros [Hle _]. lia. }
  assert (forall m, m ∈ flat_map f (seq 0 (Z.to_nat limit)) <->
            exists i : nat,
              (i + length patternView <= length bufferView)%nat /\
              hamming (drop i bufferView) patternView <= tolerance /\
              m = mkMatch (Z.of_nat i) (hamming (drop i bufferView) patternView =? 0))
    as Hspec.
  { intros m. rewrite elem_of_flat_map. split.
    - intros (i & Hi & Hm). apply list_elem_of_In, in_seq in Hi. apply Hf in Hm.
      exists i. split; [unfold limit in Hi; lia|done].
    - intros (i & Hi & Hm). exists i. split; [|by apply Hf].
      apply list_elem_of_In, in_seq. unfold limit. lia. }
  split; [exact Hspec|].
  apply flat_map_seq_sorted.
  - by intros i m [_ ->]%Hf.
  - intros i. unfold f. destruct (_ <=? _); cbn; lia.
Qed.

(** The inner loop is above a negative tolerance from the start. *)
Lemma count_mismatches_negative window patternView tolerance :
  tolerance < 0 ->
  (count_mismatches window patternView tolerance 0 <=? tolerance) = false.
Proof.
  intros Hneg. apply Z.leb_gt.
  destruct (count_mismatches_hamming window patternView tolerance 0) as [Hiff _].
  pose proof (hamming_nonneg window patternView).
  destruct (Z.le_gt_cases (count_mismatches window patternView tolerance 0) tolerance)
    as [Hle|Hgt]; [apply Hiff in Hle|]; lia.
Qed.

(** X20: the empty pattern matches exactly at every offset from 0 to the
    length of the buffer, the end included; a pattern longer than the buffer
    matches nowhere; with a negative tolerance nothing matches, not even an
    exact occurrence. *)
Theorem findPattern_edges (bufferView patternView : list Z) (tolerance : Z) :
  (0 <= tolerance ->
   findPattern bufferView [] tolerance
     = (fun i => mkMatch (Z.of_nat i) true) <$> seq 0 (S (length bufferView))) /\
  ((length bufferView < length patternView)%nat ->
   findPattern bufferView patternView tolerance = []) /\
  (tolerance < 0 -> findPattern bufferView patternView tolerance = []).
Proof.
  unfold findPattern. cbv zeta. split; [|split].
  - intros Htol. cbn [length count_mismatches].
    replace (Z.to_nat (Z.of_nat (length bufferView) - Z.of_nat 0 + 1))
      with (S (length bufferView)) by lia.
    rewrite (proj2 (Z.leb_le 0 tolerance) Htol).
    generalize (S (length bufferView)). generalize 0%nat.
    intros start len. revert start.
    induction len as [|len IH]; intros start; cbn; [done|]. by rewrite IH.
  - intros Hlong.
    replace (Z.to_nat (Z.of_nat (length bufferView) - Z.of_nat (length patternView) + 1))
      with 0%nat by lia.
    done.
  - intros Hneg. generalize (Z.to_nat
      (Z.of_nat (length bufferView) - Z.of_nat (length patternView) + 1)).
    generalize 0%nat. intros start len. revert start.
    induction len as [|len IH]; intros start; cbn [seq flat_map]; [done|].
    by rewrite count_mismatches_negative, IH.
Qed.

Lemma findPattern_edges_witness :
  findPattern [65; 66] [] 0
    = (fun i => mkMatch (Z.of_nat i) true) <$> seq 0 (S (length [65; 66])) /\
  findPattern [65; 66] [65; 66; 67] 0 = [] /\
  findPattern [65; 66] [65; 66] (-1) = [].
Proof.
  split; [|split].
  - apply (proj1 (findPattern_edges [65; 66] [] 0)). lia.
  - apply (proj1 (proj2 (findPattern_edges [65; 66] [65; 66; 67] 0))). cbn. lia.
  - apply (proj2 (proj2 (findPattern_edges [65; 66] [65; 66] (-1)))). lia.
Defined.
End PatternFacts.

Section HexFacts.
Import PatternDetector Facts.

Lemma hex_digit_cases (d : Z) :
  0 <= d < 16 ->
  d = 0 \/ d = 1 \/ d = 2 \/ d = 3 \/ d = 4 \/ d = 5 \/ d = 6 \/ d = 7 \/
  d = 8 \/ d = 9 \/ d = 10 \/ d = 11 \/ d = 12 \/ d = 13 \/ d = 14 \/ d = 15.
Proof. lia. Qed.

(** Two digits written by [to_hex] are read back by [parseInt] and kept by
    the white space filter. *)
Lemma parseInt16_hex_char upper hi lo :
  0 <= hi < 16 -> 0 <= lo < 16 ->
  parseInt16 [hex_char upper hi; hex_char upper lo] = Some (16 * hi + lo) /\
  is_whitespace (hex_char upper hi) = false /\
  is_whitespace (hex_char upper lo) = false.
Proof.
  intros Hhi Hlo.
  destruct (hex_digit_cases hi Hhi) as [->|[->|[->|[->|[->|[->|[->|[->|
    [->|[->|[->|[->|[->|[->|[->| ->]]]]]]]]]]]]]]];
  destruct (hex_digit_cases lo Hlo) as [->|[->|[->|[->|[->|[->|[->|[->|
    [->|[->|[->|[->|[->|[->|[->| ->]]]]]]]]]]]]]]];
  destruct upper; vm_compute; done.
Qed.

Lemma to_hex_filter upper bytes :
  Forall (fun b => 0 <= b < 256) bytes ->
  List.filter (fun c => negb (is_whitespace c)) (to_hex upper bytes) = to_hex upper bytes /\
  length (to_hex upper bytes) = (2 * length bytes)%nat /\
  hex_pairs (to_hex upper bytes) = bytes.
Proof.
  induction 1 as [|b bytes Hb Hbytes (IHfilter & IHlen & IHpairs)]; [done|].
  assert (0 <= b / 16 < 16) as Hhi
    by (split; [apply Z.div_pos; lia|apply Z.div_lt_upper_bound; lia]).
  assert (0 <= b mod 16 < 16) as Hlo by (apply Z.mod_pos_bound; lia).
  destruct (parseInt16_hex_char upper _ _ Hhi Hlo) as (Hparse & Hws1 & Hws2).
  cbn [to_hex List.filter hex_pairs length]. rewrite Hws1, Hws2. cbn [negb].
  rewrite IHfilter, IHpairs, Hparse, IHlen. cbn [to_uint8].
  split; [done|]. split; [lia|]. f_equal.
  rewrite <- Z.div_mod by lia. apply Z.mod_small. lia.
Qed.

(** X21: [createHexPattern] reads back the bytes from their two-digit
    hexadecimal text, in lower or in upper case. *)
Theorem createHexPattern_to_hex (upper : bool) (bytes : list Z) :
  Forall (fun b => 0 <= b < 256) bytes ->
  createHexPattern (String.string_of_list_ascii (to_hex upper bytes)) = inr bytes.
Proof.
  intros Hbytes. destruct (to_hex_filter upper bytes Hbytes) as (Hfilter & Hlen & Hpairs).
  unfold createHexPattern. cbv zeta.
  rewrite String.list_ascii_of_string_of_list_ascii, Hfilter, Hlen, Hpairs.
  replace (Z.of_nat (2 * length bytes) mod 2) with 0; [done|].
  rewrite Nat2Z.inj_mul, Z.mul_comm. by rewrite Z.mod_mul.
Qed.

Lemma createHexPattern_to_hex_witness :
  createHexPattern (String.string_of_list_ascii (to_hex true [0; 65; 171; 255]))
  = inr [0; 65; 171; 255].
Proof.
  apply (createHexPattern_to_hex true [0; 65; 171; 255]).
  repeat constructor; lia.
Defined.

Lemma hex_pairs_bytes hexStr :
  Forall (fun b => 0 <= b < 256) (hex_pairs hexStr) /\
  length (hex_pairs hexStr) = Nat.div2 (length hexStr).
Proof.
  assert (forall n (s : list Ascii.ascii), (length s <= n)%nat ->
            Forall (fun b => 0 <= b < 256) (hex_pairs s) /\
            length (hex_pairs s) = Nat.div2 (length s)) as Hall.
  { induction n as [|n IH]; intros [|a [|b rest]] Hlen; cbn in *;
      try (split; [constructor|done]); try lia.
    destruct (IH rest) as [Hbytes Hlength]; [lia|].
    split; [|by rewrite Hlength]. constructor; [|done].
    unfold to_uint8. destruct (parseInt16 _); [apply Z.mod_pos_bound|]; lia. }
  by apply (Hall (length hexStr)).
Qed.

(** X22: [createHexPattern] fails only for an odd number of characters
    other than white space, with [Hex string must have an even length];
    otherwise it gives one byte between 0 and 255 for two characters, also
    for characters that are no digits. *)
Theorem createHexPattern_shape (hexStr : String.string) :
  let digits :=
    List.filter (fun c => negb (is_whitespace c)) (String.list_ascii_of_string hexStr) in
  match createHexPattern hexStr with
  | inl thrown =>
      thrown = Error "Hex string must have an even length" /\
      Nat.Odd (length digits)
  | inr bytes =>
      Nat.Even (length digits) /\
      (2 * length bytes = length digits)%nat /\
      Forall (fun b => 0 <= b < 256) bytes
  end.
Proof.
  intros digits. unfold createHexPattern. cbv zeta. fold digits.
  destruct (hex_pairs_bytes digits) as [Hbytes Hlength].
  destruct (Z.eqb_spec (Z.of_nat (length digits) mod 2) 0) as [Heven|Hodd]; cbn [negb].
  - assert (Nat.Even (length digits)) as Hev.
    { exists (Z.to_nat (Z.of_nat (length digits) / 2)).
      pose proof (Z.div_mod (Z.of_nat (length digits)) 2). lia. }
    split; [done|]. split; [|done]. rewrite Hlength.
    destruct Hev as [k ->]. by rewrite Nat.div2_double.
  - split; [done|].
    exists (Z.to_nat (Z.of_nat (length digits) / 2)).
    pose proof (Z.div_mod (Z.of_nat (length digits)) 2).
    pose proof (Z.mod_pos_bound (Z.of_nat (length digits)) 2). lia.
Qed.
End HexFacts.

Section ScanFacts.
Import PatternDetector Facts.

Lemma detector_predefined d :
  detector_reachable d ->
  forall patternType,
    patternType ∈ ["shellcode"; "vtable"; "heap_metadata"; "fake_object"; "string"] ->
    is_Some (d !! patternType).
Proof.
  induction 1 as [|patternType pattern d res d' Hreach IH Hadd].
  - intros patternType Hin. decompose_list_elem_of; subst; by eexists.
  - intros key Hin. specialize (IH key Hin). unfold addCustomPattern in Hadd.
    rewrite bind_gets in Hadd.
    destruct (d !! patternType) as [entries|] eqn:Hlookup.
    + injection Hadd as _ <-. destruct (decide (key = patternType)) as [->|Hne].
      * rewrite lookup_insert_eq. by eexists.
      * by rewrite lookup_insert_ne.
    + destruct (inherited patternType); injection Hadd as _ <-; [done|].
      destruct (decide (key = patternType)) as [->|Hne].
      * rewrite lookup_insert_eq. by eexists.
      * by rewrite lookup_insert_ne.
Qed.

Lemma scanForPatternType_known bufferView patternType tolerance d entries :
  d !! patternType = Some entries ->
  scanForPatternType bufferView patternType tolerance d
  = Some (inr (mkTypeResults patternType (Z.of_nat (length bufferView))
                 (pattern_hits bufferView tolerance entries)), d).
Proof. intros Hlookup. unfold scanForPatternType. mstep. by rewrite Hlookup. Qed.

Lemma scanForPatternType_unknown bufferView patternType tolerance d :
  d !! patternType = None -> inherited patternType = false ->
  scanForPatternType bufferView patternType tolerance d
  = Some (inl (Error ("Unknown pattern type: " +:+ patternType)), d).
Proof.
  intros Hlookup Hown. unfold scanForPatternType. mstep. by rewrite Hlookup, Hown.
Qed.

(** X23: [scanBuffer] does not change the patterns.  On a detector that
    has no pattern of type "custom", as it is after the constructor, it throws
    [Unknown pattern type: custom] for every buffer; once a pattern of this
    type was added it returns, for each pattern type in the order of
    [patternTypes], the patterns of the type that have a match, leaving out
    the types without one. *)
Theorem scanBuffer_custom (d : gmap String.string (list Pattern)) (bufferView : list Z)
    (tolerance : Z) :
  detector_reachable d ->
  match d !! "custom" with
  | None =>
      scanBuffer bufferView tolerance d
      = Some (inl (Error "Unknown pattern type: custom"), d)
  | Some _ =>
      scanBuffer bufferView tolerance d
      = Some (inr (omap (fun patternType =>
                     match pattern_hits bufferView tolerance
                             (default [] (d !! patternType)) with
                     | [] => None
                     | hits => Some (patternType, hits)
                     end) patternTypes), d)
  end.
Proof.
  intros Hreach. pose proof (detector_predefined d Hreach) as Hpre.
  destruct (Hpre "shellcode") as [e1 H1]; [solve [repeat first [left | right]]|].
  destruct (Hpre "vtable") as [e2 H2]; [solve [repeat first [left | right]]|].
  destruct (Hpre "heap_metadata") as [e3 H3]; [solve [repeat first [left | right]]|].
  destruct (Hpre "fake_object") as [e4 H4]; [solve [repeat first [left | right]]|].
  destruct (Hpre "string") as [e5 H5]; [solve [repeat first [left | right]]|].
  unfold scanBuffer, patternTypes. cbn [scanBuffer_loop omap list_omap].
  rewrite H1, H2, H3, H4, H5. cbn [default].
  do 5 (erewrite bind_run by (by apply scanForPatternType_known); cbn [patterns]).
  destruct (d !! "custom") as [e6|] eqn:H6; cbn [default].
  - erewrite bind_run by (by apply scanForPatternType_known). cbn [patterns].
    repeat destruct (pattern_hits _ _ _); reflexivity.
  - erewrite bind_run by (by apply scanForPatternType_unknown).
    repeat destruct (pattern_hits _ _ _); reflexivity.
Qed.

Lemma scanBuffer_custom_witness :
  scanBuffer [144; 144; 144; 144; 144; 144; 144; 144] 0 PatternDetector.new
  = Some (inl (Error "Unknown pattern type: custom"), PatternDetector.new).
Proof.
  apply (scanBuffer_custom PatternDetector.new [144; 144; 144; 144; 144; 144; 144; 144] 0).
  apply detector_new.
Defined.
End ScanFacts.

Section CorruptionFacts.
Import PatternDetector Facts.

(** The default check counts up to the fourth unexpected byte. *)
Lemma unexpected_values_count view unexpectedCount :
  unexpectedCount <= 3 ->
  unexpected_values view unexpectedCount = true <->
  3 < unexpectedCount
      + Z.of_nat (length (List.filter (fun b => negb (b =? 0) && negb (b =? 65)) view)).
Proof.
  revert unexpectedCount.
  induction view as [|b view IH]; intros unexpectedCount Hle;
    cbn [unexpected_values List.filter length].
  - split; [done|lia].
  - destruct (negb (b =? 0) && negb (b =? 65)); cbn [length].
    + destruct (Z.ltb_spec 3 (unexpectedCount + 1)); [split; [lia|done]|].
      rewrite IH by lia. lia.
    + by apply IH.
Qed.

Lemma scanForCorruption_loop_spec arrays i corrupted index :
  index ∈ scanForCorruption_loop arrays i corrupted <->
  index ∈ corrupted \/
  exists n view, index = i + Z.of_nat n /\ arrays !! n = Some view /\
                 default_check view = true.
Proof.
  revert i corrupted.
  induction arrays as [|array arrays IH]; intros i corrupted;
    cbn [scanForCorruption_loop].
  - split; [by left|]. by intros [?|(n & view & _ & ? & _)].
  - rewrite IH. split.
    + intros [Hin|(n & view & -> & Hn & Hcheck)].
      * destruct (default_check array) eqn:Hcheck; [|by left].
        apply elem_of_app in Hin as [Hin| ->%list_elem_of_singleton]; [by left|].
        right. exists 0%nat, array. split; [lia|done].
      * right. exists (S n), view. split; [lia|done].
    + intros [Hin|([|n] & view & -> & Hn & Hcheck)].
      * left. destruct (default_check array); [|done]. apply elem_of_app. by left.
      * injection Hn as ->. left. rewrite Hcheck. apply elem_of_app. right.
        apply list_elem_of_singleton. lia.
      * right. exists n, view. split; [lia|done].
Qed.

(** X24: without a check function, [scanForCorruption] reports exactly
    the arrays whose buffer holds at least four bytes other than 0 and 0x41,
    by their index. *)
Theorem scanForCorruption_spec (arrays : list (list Z)) (index : Z) :
  index ∈ scanForCorruption arrays <->
  exists (n : nat) view,
    index = Z.of_nat n /\ arrays !! n = Some view /\
    4 <= Z.of_nat (length (List.filter (fun b => negb (b =? 0) && negb (b =? 65)) view)).
Proof.
  unfold scanForCorruption. rewrite scanForCorruption_loop_spec. split.
  - intros [?%elem_of_nil|(n & view & -> & Hn & Hcheck)]; [done|].
    exists n, view. split; [lia|]. split; [done|].
    apply unexpected_values_count in Hcheck; lia.
  - intros (n & view & -> & Hn & Hcount). right. exists n, view.
    split; [lia|]. split; [done|]. apply unexpected_values_count; lia.
Qed.
End CorruptionFacts.

Section StringFacts.
Import PatternDetector Facts.

(** The printable bytes at the start of a list, up to the first other byte,
    are determined. *)
Lemma printable_prefix_unique (s1 s2 a1 a2 : list Z) :
  s1 ++ a1 = s2 ++ a2 ->
  Forall (fun b => printable b = true) s1 -> Forall (fun b => printable b = true) s2 ->
  match head a1 with Some b => printable b = false | None => True end ->
  match head a2 with Some b => printable b = false | None => True end ->
  s1 = s2 /\ a1 = a2.
Proof.
  revert s2. induction s1 as [|x s1 IH]; intros s2 Heq H1 H2 Ha1 Ha2.
  - destruct s2 as [|y s2]; [done|]. cbn in Heq. subst a1. cbn in Ha1.
    apply Forall_cons in H2 as [Hy _]. congruence.
  - destruct s2 as [|y s2].
    + cbn in Heq. subst a2. cbn in Ha2. apply Forall_cons in H1 as [Hx _]. congruence.
    + injection Heq as -> Heq. apply Forall_cons in H1 as [_ H1].
      apply Forall_cons in H2 as [_ H2].
      destruct (IH s2 Heq H1 H2 Ha1 Ha2) as [-> ->]. done.
Qed.

Lemma last_elem_of {A} (l : list A) x : last l = Some x -> x ∈ l.
Proof.
  intros Hlast. destruct (last_Some l x) as [[l' ->] _]; [done|].
  apply elem_of_app. right. left.
Qed.

(** The run that starts where the part [done] ends. *)
Lemma printable_run_first (done cur rest : list Z) :
  Forall (fun b => printable b = true) cur ->
  match last done with Some b => printable b = false | None => True end ->
  match head rest with Some b => printable b = false | None => True end ->
  printable_run (done ++ cur ++ rest)
    (mkFoundString (Z.of_nat (length done)) (Z.of_nat (length cur)) cur).
Proof. intros Hcur Hdone Hrest. by exists done, rest. Qed.

(** A run that starts in or after [cur] is [cur] or starts after the byte
    that ends it. *)
Lemma printable_run_from (done cur rest : list Z) (s : FoundString) :
  Forall (fun b => printable b = true) cur ->
  match head rest with Some b => printable b = false | None => True end ->
  printable_run (done ++ cur ++ rest) s ->
  Z.of_nat (length done) <= string_offset s ->
  s = mkFoundString (Z.of_nat (length done)) (Z.of_nat (length cur)) cur \/
  Z.of_nat (length done) + Z.of_nat (length cur) + 1 <= string_offset s.
Proof.
  intros Hcur Hrest (before & after & Heq & Hoff & Hlen & Hstr & Hbefore & Hafter) Hfrom.
  destruct s as [off len str]. cbn [string_offset string_length string] in *.
  apply app_eq_inv in Heq as [(k & -> & Heq)|(k & -> & Heq)].
  - assert (k = []) as -> by (apply nil_length_inv; rewrite length_app in Hfrom; lia).
    cbn in Heq. rewrite app_nil_r in *. symmetry in Heq.
    destruct (printable_prefix_unique cur str rest after Heq Hcur Hstr Hrest Hafter)
      as [-> ->].
    left. by rewrite Hoff, Hlen.
  - rewrite length_app in Hoff.
    destruct (decide (k = [])) as [->|Hk].
    + cbn in Heq. rewrite app_nil_r in *.
      destruct (printable_prefix_unique cur str rest after Heq Hcur Hstr Hrest Hafter)
        as [-> ->].
      left. rewrite Hoff, Hlen. cbn [length]. f_equal. lia.
    + right. destruct (last k) as [c|] eqn:Hlast; [|by apply last_None in Hlast].
      rewrite last_app, Hlast in Hbefore.
      apply app_eq_inv in Heq as [(k' & -> & Heq)|(k' & -> & Heq)].
      * apply last_elem_of in Hlast.
        assert (c ∈ k ++ k') as Hin by (apply elem_of_app; by left).
        rewrite Forall_forall in Hcur. rewrite (Hcur c Hin) in Hbefore. done.
      * destruct k' as [|c' k'].
        { rewrite app_nil_r in *. apply last_elem_of in Hlast.
          rewrite Forall_forall in Hcur. rewrite (Hcur c Hlast) in Hbefore. done. }
        rewrite !length_app in Hoff. cbn [length] in Hoff. lia.
Qed.

Lemma elem_of_push_string minLength i currentString strings s :
  s ∈ push_string minLength i currentString strings <->
  s ∈ strings \/
  (minLength <= Z.of_nat (length currentString) /\
   s = mkFoundString (i - Z.of_nat (length currentString))
         (Z.of_nat (length currentString)) currentString).
Proof.
  unfold push_string. destruct (Z.leb_spec minLength (Z.of_nat (length currentString))).
  - rewrite elem_of_app, list_elem_of_singleton.
    split; [intros [?| ->]|intros [?|[_ ->]]]; (by left) || (by right).
  - split; [by left|]. intros [?|[? _]]; [done|lia].
Qed.

Lemma findStrings_loop_spec rest minLength :
  forall done cur strings s,
    Forall (fun b => printable b = true) cur ->
    match last done with Some b => printable b = false | None => True end ->
    s ∈ findStrings_loop rest (Z.of_nat (length (done ++ cur))) minLength cur strings <->
    s ∈ strings \/
    (minLength <= string_length s /\ printable_run (done ++ cur ++ rest) s /\
     Z.of_nat (length done) <= string_offset s).
Proof.
  induction rest as [|byte rest IH]; intros done cur strings s Hcur Hdone;
    cbn [findStrings_loop].
  - rewrite elem_of_push_string, length_app.
    replace (Z.of_nat (length done + length cur) - Z.of_nat (length cur))
      with (Z.of_nat (length done)) by lia.
    split; intros [Hin|Hrun]; try by left.
    + destruct Hrun as [Hmin ->]. right. cbn [string_length string_offset].
      split; [done|]. split; [by apply printable_run_first|lia].
    + destruct Hrun as (Hmin & Hrun & Hfrom).
      destruct (printable_run_from done cur [] s Hcur I Hrun Hfrom) as [->|Hafter].
      * right. by split.
      * destruct Hrun as (before & after & Heq & Hoff & _).
        apply (f_equal length) in Heq. rewrite !length_app in Heq. cbn in Heq. lia.
  - destruct (printable byte) eqn:Hbyte.
    + replace (Z.of_nat (length (done ++ cur)) + 1)
        with (Z.of_nat (length (done ++ cur ++ [byte])))
        by (rewrite !length_app; cbn; lia).
      rewrite (IH done (cur ++ [byte]) strings s); [|by apply Forall_app; split;
        [|repeat constructor]|done].
      by rewrite <- (app_assoc cur [byte] rest).
    + replace (Z.of_nat (length (done ++ cur)) + 1)
        with (Z.of_nat (length ((done ++ cur ++ [byte]) ++ [])))
        by (rewrite !length_app; cbn; lia).
      rewrite (IH (done ++ cur ++ [byte]) [] _ s); [|done|].
      2:{ rewrite app_assoc, last_snoc. done. }
      rewrite elem_of_push_string, length_app.
      replace (Z.of_nat (length done + length cur) - Z.of_nat (length cur))
        with (Z.of_nat (length done)) by lia.
      replace ((done ++ cur ++ [byte]) ++ [] ++ rest) with (done ++ cur ++ byte :: rest)
        by (by rewrite <- !app_assoc).
      rewrite !length_app. cbn [length].
      assert (match head (byte :: rest) with
              | Some b => printable b = false
              | None => True
              end) as Hrest by done.
      split.
      * intros [[Hin|[Hmin ->]]|(Hmin & Hrun & Hfrom)]; [by left| |].
        -- right. cbn [string_length string_offset].
           split; [done|]. split; [by apply printable_run_first|lia].
        -- right. split; [done|]. split; [done|]. lia.
      * intros [Hin|(Hmin & Hrun & Hfrom)]; [by left; left|].
        destruct (printable_run_from done cur (byte :: rest) s Hcur Hrest Hrun Hfrom)
          as [->|Hafter].
        -- left. right. by split.
        -- right. split; [done|]. split; [done|]. lia.
Qed.

(** X25: [findStrings] returns exactly the runs of printable bytes (32 to
    126) that cannot be made longer at either end and have at least
    [minLength] bytes, each with its offset and its length.  With a
    [minLength] of 0 or less this includes the empty run at every byte that
    is not printable and follows no printable byte, and at the end of such a
    buffer. *)
Theorem findStrings_spec (bufferView : list Z) (minLength : Z) (s : FoundString) :
  s ∈ findStrings bufferView minLength <->
  printable_run bufferView s /\ minLength <= string_length s.
Proof.
  unfold findStrings.
  rewrite (findStrings_loop_spec bufferView minLength [] [] [] s); [|done..].
  cbn [app length]. split.
  - intros [?%elem_of_nil|(Hmin & Hrun & _)]; done.
  - intros [Hrun Hmin]. right. split; [done|]. split; [done|].
    destruct Hrun as (before & after & _ & -> & _). lia.
Qed.
End StringFacts.

Section CustomPatternFacts.
Import PatternDetector Facts.

Lemma detector_own_names d :
  detector_reachable d ->
  forall patternType, inherited patternType = true -> d !! patternType = None.
Proof.
  induction 1 as [|patternType pattern d res d' Hreach IH Hadd].
  - intros patternType Hin. apply bool_decide_eq_true in Hin.
    decompose_list_elem_of; subst; reflexivity.
  - intros key Hkey. specialize (IH key Hkey). unfold addCustomPattern in Hadd.
    rewrite bind_gets in Hadd.
    destruct (d !! patternType) as [entries|] eqn:Hlookup.
    + injection Hadd as _ <-. rewrite lookup_insert_ne; [done|]. congruence.
    + destruct (inherited patternType) eqn:Hown; injection Hadd as _ <-; [done|].
      rewrite lookup_insert_ne; [done|]. congruence.
Qed.

(** X26: [addCustomPattern] puts the pattern last in the list of its type,
    making the list when the type is new, and leaves the other types as they
    are; a scan for this type then reports what it reported before and, last,
    the new pattern when it has a match.  For a type named like a property
    that every object inherits it throws a [TypeError] and adds nothing. *)
Theorem addCustomPattern_scan (d : gmap String.string (list Pattern))
    (patternType : String.string) (pattern : Pattern) (bufferView : list Z)
    (tolerance : Z) :
  detector_reachable d ->
  if inherited patternType
  then addCustomPattern patternType pattern d = Some (inl TypeError, d)
  else
    exists d' before after,
      addCustomPattern patternType pattern d = Some (inr tt, d') /\
      d' !! patternType = Some (default [] (d !! patternType) ++ [pattern]) /\
      (forall other, other <> patternType -> d' !! other = d !! other) /\
      scanForPatternType bufferView patternType tolerance d = Some (before, d) /\
      scanForPatternType bufferView patternType tolerance d' = Some (inr after, d') /\
      patterns after
      = match before with
        | inr found => patterns found
        | inl _ => []
        end ++
        match findPattern bufferView (pattern_bytes pattern) tolerance with
        | [] => []
        | found => [mkPatternHit (pattern_name pattern) (pattern_length pattern) found]
        end.
Proof.
  intros Hreach. destruct (inherited patternType) eqn:Hown.
  - unfold addCustomPattern. mstep.
    by rewrite (detector_own_names d Hreach patternType Hown), Hown.
  - exists (<[patternType := default [] (d !! patternType) ++ [pattern]]> d).
    assert (addCustomPattern patternType pattern d
            = Some (inr tt,
                    <[patternType := default [] (d !! patternType) ++ [pattern]]> d))
      as Hadd.
    { unfold addCustomPattern. mstep.
      destruct (d !! patternType); [done|]. by rewrite Hown. }
    destruct (d !! patternType) as [entries|] eqn:Hlookup; cbn [default] in *.
    + eexists _, _. split; [exact Hadd|]. split; [by rewrite lookup_insert_eq|].
      split; [intros other Hne; by rewrite lookup_insert_ne|].
      split; [by apply scanForPatternType_known|].
      split; [apply scanForPatternType_known; by rewrite lookup_insert_eq|].
      cbn [patterns]. unfold pattern_hits. rewrite flat_map_app. cbn [flat_map].
      by rewrite app_nil_r.
    + eexists _, _. split; [exact Hadd|]. split; [by rewrite lookup_insert_eq|].
      split; [intros other Hne; by rewrite lookup_insert_ne|].
      split; [by apply scanForPatternType_unknown|].
      split; [apply scanForPatternType_known; by rewrite lookup_insert_eq|].
      cbn [patterns]. unfold pattern_hits. cbn [flat_map app]. by rewrite app_nil_r.
Qed.

Lemma addCustomPattern_scan_witness :
  let pattern := Uint8 "marker" [222; 173] in
  exists d' before after,
    addCustomPattern "custom" pattern PatternDetector.new = Some (inr tt, d') /\
    d' !! "custom" = Some (default [] (PatternDetector.new !! "custom") ++ [pattern]) /\
    (forall other, other <> "custom" -> d' !! other = PatternDetector.new !! other) /\
    scanForPatternType [0; 222; 173] "custom" 0 PatternDetector.new
      = Some (before, PatternDetector.new) /\
    scanForPatternType [0; 222; 173] "custom" 0 d' = Some (inr after, d') /\
    patterns after
    = match before with
      | inr found => patterns found
      | inl _ => []
      end ++
      match findPattern [0; 222; 173] (pattern_bytes pattern) 0 with
      | [] => []
      | found => [mkPatternHit (pattern_name pattern) (pattern_length pattern) found]
      end.
Proof.
  intros pattern.
  apply (addCustomPattern_scan PatternDetector.new "custom" pattern [0; 222; 173] 0).
  apply detector_new.
Defined.
End CustomPatternFacts.
